(** * Project status describer (pkg/cmd/cli/describe/projectstatus.go)

    A shallow embedding of the parts of [ProjectStatusDescriber] whose
    behaviour the specification pins down: the loader fan-out of
    [MakeGraph], the coverage passes and the marker ordering of [Describe],
    the summary-line decision table, the exposed-route comparator, the
    service-port summary, the boring-pod filter and the build timestamp.

    Part I holds the definitions, translated from the Go source; Part II
    holds the properties. *)

From Stdlib Require Import ZArith List String Ascii Bool Lia Permutation Sorted.
From stdpp Require Import base gmap sets list strings sorting.

Import ListNotations.
Local Open Scope Z_scope.

#[local] Set Warnings "-clear-no-such-hyp".

(** * Part I: definitions *)

(** ** Go strings

    Go strings are byte sequences; [String.string] is a list of 8-bit
    [ascii] codes, and [String.compare] orders them byte by byte, as Go's
    [<] on strings does. *)
Module GoStr.

(** [len(s)] *)
Definition len (s : string) : Z := Z.of_nat (String.length s).

(** [strings.HasPrefix(s, p)] *)
Definition HasPrefix (s p : string) : bool := String.prefix p s.

(** [s[n:]] for [n <= len(s)] *)
Fixpoint slice_from (n : nat) (s : string) : string :=
  match n, s with
  | O, _ => s
  | S n', String _ r => slice_from n' r
  | S _, EmptyString => EmptyString
  end.

(** [strings.Index(s, sep)] for a one-byte separator: the index of the
    first occurrence of [c] in [s], or [-1]. *)
Fixpoint IndexByte (s : string) (c : ascii) : Z :=
  match s with
  | EmptyString => -1
  | String x r =>
      if Ascii.eqb x c then 0
      else let i := IndexByte r c in
           if i =? -1 then -1 else i + 1
  end.

(** [a < b] on strings *)
Definition lt (a b : string) : bool := String.ltb a b.

(** [strings.Join(l, sep)] *)
Fixpoint Join (l : list string) (sep : string) : string :=
  match l with
  | [] => ""
  | [x] => x
  | x :: r => x +:+ sep +:+ Join r sep
  end.

(** Decimal digits of a positive number, most significant first. The fuel
    is the number of binary digits, which bounds the number of decimal
    ones. *)
Definition digit (d : Z) : ascii := ascii_of_nat (48 + Z.to_nat d).

Fixpoint digits (fuel : nat) (n : Z) (acc : string) : string :=
  match fuel with
  | O => acc
  | S f =>
      let acc' := String (digit (n mod 10)) acc in
      if n / 10 =? 0 then acc' else digits f (n / 10) acc'
  end.

(** [strconv.Itoa(n)], which is also what the verb [%d] prints *)
Definition Itoa (n : Z) : string :=
  if n =? 0 then "0"
  else if n <? 0 then String "-" (digits (S (Z.to_nat (Z.log2 (- n)))) (- n) "")
  else digits (S (Z.to_nat (Z.log2 n))) n "".

(** The line feed that [Fprintln] and a trailing [\n] write *)
Definition nl : string := String (ascii_of_nat 10) EmptyString.

End GoStr.

(** ** [sort.Sort] and [sort.Stable]

    Both library sorts are modelled by the insertion sort that Go runs on
    short slices: each element in turn is moved left while
    [Less(j, j-1)] holds. The sorted prefix is kept reversed, so that one
    step towards the head of [rev_sorted] is one swap to the left in the
    slice. On a comparator that is a strict weak order every stable sort
    returns this same list, and on a strict total order every sort does. *)
Module GoSort.
Section Insertion.
Context {A : Type} (less : A -> A -> bool).

(** Sink [x] into the reversed sorted prefix: [x] passes every element
    [y] with [less x y] and stops at the first one it is not less than. *)
Fixpoint sink (x : A) (rev_sorted : list A) : list A :=
  match rev_sorted with
  | [] => [x]
  | y :: r => if less x y then y :: sink x r else x :: y :: r
  end.

Definition insertionSort (l : list A) : list A :=
  rev (fold_left (fun acc x => sink x acc) l []).

(** A list is in the order of [less] when no element is less than one
    that comes before it. *)
Definition inOrder (l : list A) : Prop :=
  StronglySorted (fun a b => less b a = false) l.

End Insertion.
End GoSort.

(** ** Exposed routes *)
Module Routes.
Import GoStr.

(** The tail of [Less]: the distance to the first space, then the strings
    themselves. *)
Definition lessBySegment (a b : string) : bool :=
  let lA := IndexByte a " "%char in
  let lB := IndexByte b " "%char in
  let lA := if lA =? -1 then len a else lA in
  let lB := if lB =? -1 then len b else lB in
  if lA <? lB then true
  else if lB <? lA then false
  else lt a b.

(** [exposedRoutes.Less], on the two elements [e[i]] and [e[j]]. *)
Definition exposedRoutes_Less (a b : string) : bool :=
  let prefixA := HasPrefix a "https://" in
  let prefixB := HasPrefix b "https://" in
  if prefixA && negb prefixB then true
  else if negb prefixA && prefixB then false
  else if negb prefixA && negb prefixB then
    let prefixA := HasPrefix a "http://" in
    let prefixB := HasPrefix b "http://" in
    if prefixA && negb prefixB then true
    else if negb prefixA && prefixB then false
    else if negb prefixA && negb prefixB then lt a b
    else lessBySegment (slice_from 7 a) (slice_from 7 b)
  else lessBySegment (slice_from 8 a) (slice_from 8 b).

(** [sort.Sort(exposedRoutes(exposes))] *)
Definition sortExposed (exposes : list string) : list string :=
  GoSort.insertionSort exposedRoutes_Less exposes.

(** *** The order in the words of the specification *)

(** Scheme priority: [https://] first, [http://] second, the rest last. *)
Definition schemeRank (s : string) : Z :=
  if HasPrefix s "https://" then 0
  else if HasPrefix s "http://" then 1
  else 2.

(** The length of the substring up to the first space. *)
Definition segmentLen (s : string) : Z :=
  let i := IndexByte s " "%char in
  if i =? -1 then len s else i.

(** Lexicographic comparison of [(rank, length, string)] triples. *)
Definition tripleLess (x y : Z * Z * string) : bool :=
  let '(r1, l1, s1) := x in
  let '(r2, l2, s2) := y in
  if r1 <? r2 then true
  else if r2 <? r1 then false
  else if l1 <? l2 then true
  else if l2 <? l1 then false
  else lt s1 s2.

(** The three-level comparison the specification describes: scheme, then
    segment length, then the raw string, for every pair of strings. *)
Definition routeTupleLess (a b : string) : bool :=
  tripleLess (schemeRank a, segmentLen a, a) (schemeRank b, segmentLen b, b).

(** The comparison the code computes: the segment length counts only for
    the two URL schemes; strings with neither prefix all take length 0, so
    that they are ordered by the raw string alone. *)
Definition hostLen (s : string) : Z :=
  if schemeRank s =? 2 then 0 else segmentLen s.

Definition routeKeyLess (a b : string) : bool :=
  tripleLess (schemeRank a, hostLen a, a) (schemeRank b, hostLen b, b).

End Routes.

(** ** A state monad for the stateful parts

    [MakeGraph] and [Describe] mutate loader fields, the graph and the
    covered set in place. They are written in a state monad; the state
    also carries a trace of the calls made, which is what the ordering
    properties are stated on. *)
Module St.

Definition M (S A : Type) : Type := S -> A * S.

Definition ret {S A} (a : A) : M S A := fun s => (a, s).

Definition bind {S A B} (m : M S A) (k : A -> M S B) : M S B :=
  fun s => let '(a, s') := m s in k a s'.

Definition get {S} : M S S := fun s => (s, s).

Definition modify {S} (f : S -> S) : M S unit := fun s => (tt, f s).

(** [for _, x := range l { body x }] *)
Fixpoint forEach {S A} (l : list A) (body : A -> M S unit) : M S unit :=
  match l with
  | [] => ret tt
  | x :: r => bind (body x) (fun _ => forEach r body)
  end.

End St.

Declare Scope st_scope.
Delimit Scope st_scope with st.
Notation "x <- m ;; k" := (St.bind m (fun x => k))
  (at level 100, m at next level, right associativity) : st_scope.
Notation "'let*' pat := m 'in' k" := (St.bind m (fun pat => k))
  (at level 10, pat pattern, k at level 200) : st_scope.
Notation "m ;;; k" := (St.bind m (fun _ => k))
  (at level 100, right associativity) : st_scope.

(** ** API errors *)
Module Errors.

Inductive StatusReason :=
| StatusReasonForbidden
| StatusReasonNotFound
| StatusReasonOther (reason : string).

(** [unversioned.StatusDetails]; only [Kind] is read here. *)
Record StatusDetails := { Kind : string }.

(** [unversioned.Status]; [Details] is a pointer and may be nil. *)
Record Status := {
  Reason : StatusReason;
  Details : option StatusDetails;
  StatusMessage : string
}.

(** Go [error] values: an API [*StatusError], any other error, or the
    aggregate [utilerrors.NewAggregate] builds. *)
#[warnings="-register-all"]
Inductive GoError :=
| StatusError (s : Status)
| PlainError (msg : string)
| Aggregate (errs : list GoError).

(** [kapierrors.IsForbidden]: only an API status carries a reason. *)
Definition IsForbidden (err : GoError) : bool :=
  match err with
  | StatusError s =>
      match Reason s with StatusReasonForbidden => true | _ => false end
  | _ => false
  end.

(** [kapierrors.IsNotFound] *)
Definition IsNotFound (err : GoError) : bool :=
  match err with
  | StatusError s =>
      match Reason s with StatusReasonNotFound => true | _ => false end
  | _ => false
  end.

(** Modelled from the spec: [errors.TolerateNotFoundError] of
    pkg/util/errors, which is not among the sources. The two build-related
    kinds "tolerate a kind-not-found condition as an empty result rather
    than an error": a NotFound error becomes nil, any other error is
    returned unchanged. *)
Definition TolerateNotFoundError (err : GoError) : option GoError :=
  if IsNotFound err then None else Some err.

(** [utilerrors.NewAggregate]: nil for an empty list. *)
Definition NewAggregate (errs : list GoError) : option GoError :=
  match errs with
  | [] => None
  | _ => Some (Aggregate errs)
  end.

End Errors.

(** ** The graph and its collaborators

    The graph package, the node constructors and the edge-inference
    functions live in other packages; [MakeGraph] only calls them. They are
    the operations of this interface. *)
Module Graph.

(** The ten loaders of [MakeGraph], in the order of its [loaders] slice. *)
Inductive LoaderKind :=
| serviceLoader | serviceAccountLoader | secretLoader | rcLoader | podLoader
| bcLoader | buildLoader | isLoader | dcLoader | routeLoader.

(** The thirteen edge-inference calls of [MakeGraph], in call order. *)
Inductive EdgePass :=
| AddAllExposedPodTemplateSpecEdges | AddAllExposedPodEdges
| AddAllManagedByRCPodEdges | AddAllRequestedServiceAccountEdges
| AddAllMountableSecretEdges | AddAllMountedSecretEdges
| AddAllInputOutputEdges | AddAllBuildEdges
| AddAllTriggerEdges | AddAllDeploymentEdges
| AddAllImageStreamRefEdges | AddAllImageStreamImageRefEdges
| AddAllRouteEdges.

Class Ops := {
  (** [osgraph.Graph] *)
  T : Type;
  (** a listed API object *)
  Item : Type;
  (** [osgraph.New()] *)
  New : T;
  (** the [Ensure...Node] calls one loader makes for one of its items *)
  EnsureNodes : LoaderKind -> Item -> T -> T;
  (** one edge-inference function *)
  AddEdges : EdgePass -> T -> T
}.

End Graph.

(** ** [MakeGraph] *)
Module MakeGraph.
Import Errors Graph.
Local Open Scope st_scope.

#[global] Instance LoaderKind_eq_dec : EqDecision LoaderKind.
Proof. solve_decision. Defined.

Definition loaders : list LoaderKind :=
  [serviceLoader; serviceAccountLoader; secretLoader; rcLoader; podLoader;
   bcLoader; buildLoader; isLoader; dcLoader; routeLoader].

Definition edgePasses : list EdgePass :=
  [AddAllExposedPodTemplateSpecEdges; AddAllExposedPodEdges;
   AddAllManagedByRCPodEdges; AddAllRequestedServiceAccountEdges;
   AddAllMountableSecretEdges; AddAllMountedSecretEdges;
   AddAllInputOutputEdges; AddAllBuildEdges;
   AddAllTriggerEdges; AddAllDeploymentEdges;
   AddAllImageStreamRefEdges; AddAllImageStreamImageRefEdges;
   AddAllRouteEdges].

(** What is observable of a run: a [Load] call returned, a loader's
    [AddToGraph] ran, an edge-inference function ran. *)
Inductive Event :=
| EvLoadReturned (l : LoaderKind)
| EvAddToGraph (l : LoaderKind)
| EvAddEdges (p : EdgePass).


Section WithGraph.
Context `{Ops}.

(** The answer of the cluster to one [List] call. *)
Inductive ListResult :=
| Listed (items : list Item)
| ListFailed (err : GoError).

(** The state [MakeGraph] works on: the [items] field of every loader,
    the graph [g], and the trace. *)
Record State := {
  items : LoaderKind -> list Item;
  g : T;
  trace : list Event
}.

Definition emit (e : Event) : St.M State unit :=
  St.modify (fun s => {| items := items s; g := g s; trace := trace s ++ [e] |}).

Definition setItems (l : LoaderKind) (its : list Item) : St.M State unit :=
  St.modify (fun s =>
    {| items := fun l' => if decide (l' = l) then its else items s l';
       g := g s; trace := trace s |}).

Definition updGraph (f : T -> T) : St.M State unit :=
  St.modify (fun s => {| items := items s; g := f (g s); trace := trace s |}).

(** The two loaders whose [Load] wraps the error in
    [TolerateNotFoundError]. *)
Definition toleratesNotFound (l : LoaderKind) : bool :=
  match l with bcLoader | buildLoader => true | _ => false end.

(** [(l *xLoader) Load()]: on success the listed items are stored in the
    loader; on failure the error is returned and the items stay nil. *)
Definition Load (lister : LoaderKind -> ListResult) (l : LoaderKind)
  : St.M State (option GoError) :=
  match lister l with
  | ListFailed err =>
      if toleratesNotFound l then St.ret (TolerateNotFoundError err)
      else St.ret (Some err)
  | Listed list => setItems l list ;;; St.ret None
  end.

(** [(l *xLoader) AddToGraph(g)] *)
Definition AddToGraph (l : LoaderKind) : St.M State unit :=
  s <- St.get ;;
  St.forEach (items s l) (fun it => updGraph (EnsureNodes l it)) ;;;
  emit (EvAddToGraph l).

(** Modelled from the spec: [parallel.Run] of pkg/util/parallel, which is
    not among the sources. It "executes all tasks concurrently" and "blocks
    until every task has finished"; the errors of the failed tasks are
    what it returns. The tasks touch disjoint loaders, so a run is decided
    by the order in which the tasks return: [sched] lists the positions of
    the tasks in that order, and the errors are collected in it. *)
Fixpoint parallel_Run (fns : list (LoaderKind * St.M State (option GoError)))
    (sched : list nat) : St.M State (list GoError) :=
  match sched with
  | [] => St.ret []
  | i :: rest =>
      match fns !! i with
      | None => parallel_Run fns rest
      | Some (l, fn) =>
          err <- fn ;;
          emit (EvLoadReturned l) ;;;
          errs <- parallel_Run fns rest ;;
          St.ret (match err with Some e => e :: errs | None => errs end)
      end
  end.

(** The loop of [MakeGraph] over [errs]: forbidden errors put their kind,
    when they name one, into [forbiddenResources] and are skipped; the
    others are appended to [actualErrors]. *)
Fixpoint classify (errs : list GoError) (forbiddenResources : gset string)
    (actualErrors : list GoError) : gset string * list GoError :=
  match errs with
  | [] => (forbiddenResources, actualErrors)
  | err :: rest =>
      if IsForbidden err then
        match err with
        | StatusError forbiddenErr =>
            match Details forbiddenErr with
            | Some details =>
                if 0 <? GoStr.len (Kind details)
                then classify rest ({[Kind details]} ∪ forbiddenResources) actualErrors
                else classify rest forbiddenResources actualErrors
            | None => classify rest forbiddenResources actualErrors
            end
        | _ => classify rest forbiddenResources actualErrors
        end
      else classify rest forbiddenResources (actualErrors ++ [err])
  end.

(** The tail of [MakeGraph], reached when no genuine failure is left:
    the loaders commit their items, then the edges are inferred. *)
Definition commit (forbiddenResources : gset string)
  : St.M State (gset string * option GoError) :=
  St.forEach loaders AddToGraph ;;;
  St.forEach edgePasses (fun p => updGraph (AddEdges p) ;;; emit (EvAddEdges p)) ;;;
  St.ret (forbiddenResources, None).

(** [ProjectStatusDescriber.MakeGraph] *)
Definition MakeGraph (lister : LoaderKind -> ListResult) (sched : list nat)
  : St.M State (gset string * option GoError) :=
  let loadingFuncs := map (fun l => (l, Load lister l)) loaders in
  errs <- parallel_Run loadingFuncs sched ;;
  if 0 <? Z.of_nat (length errs) then
    let '(forbiddenResources, actualErrors) := classify errs ∅ [] in
    if 0 <? Z.of_nat (length actualErrors)
    then St.ret (forbiddenResources, NewAggregate actualErrors)
    else commit forbiddenResources
  else commit ∅.

(** The state [MakeGraph] starts from: a new graph and ten fresh
    loaders. *)
Definition initial : State :=
  {| items := fun _ => []; g := New; trace := [] |}.

(** The three results of [MakeGraph], and the trace of the run. *)
Definition run (lister : LoaderKind -> ListResult) (sched : list nat)
  : T * gset string * option GoError * list Event :=
  let '((forbiddenResources, err), s) := MakeGraph lister sched initial in
  (g s, forbiddenResources, err, trace s).

(** *** The vocabulary of the specification *)

(** The error the [Load] of a loader returns, if any: the failure of its
    [List] call, unless the loader is one of the two build-related ones and
    the failure is NotFound. *)
Definition loadFailure (lister : LoaderKind -> ListResult) (l : LoaderKind)
  : option GoError :=
  match lister l with
  | Listed _ => None
  | ListFailed err =>
      if toleratesNotFound l && IsNotFound err then None else Some err
  end.

(** The errors [parallel.Run] hands back when the tasks return in the
    order [order]. *)
Definition loadErrors (lister : LoaderKind -> ListResult) (order : list nat)
  : list GoError :=
  omap (fun i => l ← loaders !! i; loadFailure lister l) order.

(** The items a loader holds once the tasks at the positions [order] have
    returned. *)
Definition scheduled (order : list nat) (l : LoaderKind) : bool :=
  existsb (fun i => bool_decide (loaders !! i = Some l)) order.

Definition stagedItems (lister : LoaderKind -> ListResult) (order : list nat)
    (l : LoaderKind) : list Item :=
  match lister l with
  | Listed its => if scheduled order l then its else []
  | ListFailed _ => []
  end.

(** The trace of the fan-out: one return per scheduled task. *)
Definition loadTrace (sched : list nat) : list Event :=
  omap (fun i => EvLoadReturned <$> loaders !! i) sched.

(** The genuine failures of a run: the load failures that are not
    Forbidden, in the order given by the positions [order]. *)
Definition genuineFailures (lister : LoaderKind -> ListResult)
    (order : list nat) : list GoError :=
  List.filter (fun e => negb (IsForbidden e)) (loadErrors lister order).

(** The graph a run commits from the staged items [staged]: every item
    inserted, loader by loader, then the edge passes in their order. *)
Definition commitGraph (staged : LoaderKind -> list Item) (gr : T) : T :=
  let nodes :=
    fold_left (fun gr l => fold_left (fun gr it => EnsureNodes l it gr) (staged l) gr)
      loaders gr in
  fold_left (fun gr p => AddEdges p gr) edgePasses nodes.

(** The graph a successful run returns when every task has run: all the
    listed items, then the edges. *)
Definition committed (lister : LoaderKind -> ListResult) : T :=
  commitGraph
    (fun l => match lister l with Listed its => its | ListFailed _ => [] end) New.

(** A Forbidden error that names no kind: it has no details, or its
    details have an empty kind. *)
Definition forbiddenWithoutKind (err : GoError) : bool :=
  match err with
  | StatusError s =>
      match Reason s, Details s with
      | StatusReasonForbidden, None => true
      | StatusReasonForbidden, Some d => GoStr.len (Kind d) =? 0
      | _, _ => false
      end
  | _ => false
  end.

(** The cluster [lister], except that the [List] call of the loader [l]
    succeeds with no items. *)
Definition listsNothing (lister : LoaderKind -> ListResult) (l : LoaderKind)
  : LoaderKind -> ListResult :=
  fun l' => if decide (l' = l) then Listed [] else lister l'.

End WithGraph.

(** A small graph to run [MakeGraph] on: the nodes in insertion order,
    each one the loader and the number of the item it wraps, followed by
    the edge passes applied. Inserting a node that is present changes
    nothing, as the [Ensure...Node] functions do. *)
Definition logGraphOps : Ops := {|
  T := list (LoaderKind * nat + EdgePass);
  Item := nat;
  New := [];
  EnsureNodes := fun l it gr =>
    if existsb (fun n => match n with
                         | inl (l', it') => bool_decide (l' = l) && Nat.eqb it' it
                         | inr _ => false
                         end) gr
    then gr else gr ++ [inl (l, it)];
  AddEdges := fun p gr => gr ++ [inr p]
|}.

(** A cluster for the examples: two services, one pod, no build API
    (NotFound for both build kinds), secrets denied with a kind, service
    accounts denied without details; [routesDown] makes the route list
    fail with a server error. *)
Definition forbidden (d : option StatusDetails) : GoError :=
  StatusError {| Reason := StatusReasonForbidden; Details := d;
                 StatusMessage := "forbidden" |}.

Definition notFound : GoError :=
  StatusError {| Reason := StatusReasonNotFound; Details := None;
                 StatusMessage := "not found" |}.

Definition serverError : GoError := PlainError "connection refused".

Definition sampleCluster (routesDown : bool)
  : LoaderKind -> @ListResult logGraphOps :=
  fun l =>
    match l with
    | serviceLoader => @Listed logGraphOps [1%nat; 2%nat]
    | podLoader => @Listed logGraphOps [7%nat]
    | bcLoader | buildLoader => @ListFailed logGraphOps notFound
    | secretLoader => @ListFailed logGraphOps (forbidden (Some {| Kind := "secrets" |}))
    | serviceAccountLoader => @ListFailed logGraphOps (forbidden None)
    | routeLoader =>
        if routesDown then @ListFailed logGraphOps serverError
        else @Listed logGraphOps []
    | _ => @Listed logGraphOps []
    end.

End MakeGraph.

(** ** Standalone pods *)
Module Pods.
Import Errors.

Inductive PodPhase := PodPending | PodRunning | PodSucceeded | PodFailed | PodUnknown.

#[global] Instance PodPhase_eq_dec : EqDecision PodPhase.
Proof. solve_decision. Defined.

(** [kapi.ObjectMeta]: the two maps [filterBoringPods] looks into. *)
Record ObjectMeta := {
  Name : string;
  Namespace : string;
  Labels : gmap string string;
  Annotations : gmap string string
}.

(** [kapi.Pod], with [Status.Phase] *)
Record kapi_Pod := {
  Meta : ObjectMeta;
  Phase : PodPhase
}.

(** What [Object()] of a graph node returns: an [interface{}], which the
    type assertion to a pod pointer tells apart. *)
Inductive Object :=
| PodObject (p : kapi_Pod)
| OtherObject.

(** [kubegraph.PodNode]: a node of the graph, with its [ID]. *)
Record PodNode := {
  ID : Z;
  Object_ : Object
}.

(** [graphview.Pod] *)
Record graphview_Pod := { Pod : PodNode }.

(** [kapi.ObjectMetaFor], which finds the metadata of a pod and has no
    error to report for one. *)
Definition ObjectMetaFor (p : kapi_Pod) : GoError + ObjectMeta := inr (Meta p).

Section Filter.
(** [deployapi.DeployerPodForDeploymentLabel] and
    [buildapi.BuildAnnotation], two string constants of other packages. *)
Variables (DeployerPodForDeploymentLabel BuildAnnotation : string).

(** The body of the loop of [filterBoringPods]: the pods kept so far, or
    the error that ends the function. *)
Fixpoint filterLoop (pods : list graphview_Pod) (monopods : list graphview_Pod)
  : GoError + list graphview_Pod :=
  match pods with
  | [] => inr monopods
  | pod :: rest =>
      match Object_ (Pod pod) with
      | OtherObject => filterLoop rest monopods
      | PodObject actualPod =>
          match ObjectMetaFor actualPod with
          | inl err => inl err
          | inr meta =>
              let isDeployerPod :=
                bool_decide (is_Some (Labels meta !! DeployerPodForDeploymentLabel)) in
              let isBuilderPod :=
                bool_decide (is_Some (Annotations meta !! BuildAnnotation)) in
              let isFinished :=
                bool_decide (Phase actualPod = PodSucceeded)
                || bool_decide (Phase actualPod = PodFailed) in
              if isDeployerPod || isBuilderPod || isFinished
              then filterLoop rest monopods
              else filterLoop rest (monopods ++ [pod])
          end
      end
  end.

(** [filterBoringPods] *)
Definition filterBoringPods (pods : list graphview_Pod)
  : GoError + list graphview_Pod :=
  filterLoop pods [].

(** *** The vocabulary of the specification *)

Definition isDeployerHelper (p : kapi_Pod) : Prop :=
  exists v, Labels (Meta p) !! DeployerPodForDeploymentLabel = Some v.

Definition isBuilderHelper (p : kapi_Pod) : Prop :=
  exists v, Annotations (Meta p) !! BuildAnnotation = Some v.

Definition isTerminal (p : kapi_Pod) : Prop :=
  Phase p = PodSucceeded \/ Phase p = PodFailed.

(** A standalone pod worth printing: the node holds a pod that is neither
    a deployer helper, nor a builder helper, nor in a terminal phase. *)
Definition interesting (pod : graphview_Pod) : Prop :=
  match Object_ (Pod pod) with
  | PodObject p => ~ isDeployerHelper p /\ ~ isBuilderHelper p /\ ~ isTerminal p
  | OtherObject => False
  end.

#[global] Instance interesting_dec (pod : graphview_Pod) : Decision (interesting pod).
Proof.
  unfold interesting, isDeployerHelper, isBuilderHelper, isTerminal.
  destruct (Object_ (Pod pod)) as [p|]; [|right; tauto].
  destruct (Labels (Meta p) !! DeployerPodForDeploymentLabel) as [v|].
  { right. intros (Hd & _). apply Hd. now exists v. }
  destruct (Annotations (Meta p) !! BuildAnnotation) as [v|].
  { right. intros (_ & Hb & _). apply Hb. now exists v. }
  destruct (decide (Phase p = PodSucceeded)) as [Hs|Hs].
  { right. intros (_ & _ & Ht). apply Ht. now left. }
  destruct (decide (Phase p = PodFailed)) as [Hf|Hf].
  { right. intros (_ & _ & Ht). apply Ht. now right. }
  left. split; [intros [v Hv]; discriminate|].
  split; [intros [v Hv]; discriminate|]. tauto.
Defined.

End Filter.
End Pods.

(** ** The coverage passes of [Describe] *)
Module Coverage.
Import Pods.
Local Open Scope st_scope.

(** The five partition functions of the graphview package, in the order
    [Describe] calls them. *)
Inductive Pass :=
| ServiceGroupsPass
| DeploymentConfigPipelinesPass
| ReplicationControllersPass
| ImagePipelinesFromBuildConfigPass
| PodsPass.

#[global] Instance Pass_eq_dec : EqDecision Pass.
Proof. solve_decision. Defined.

(** The graphview package is not among the sources. Each of its
    functions takes the graph and the set of node IDs to exclude, and
    returns the views it found and the set of node IDs they cover. *)
Class Views := {
  Graph : Type;
  ServiceGroup : Type;
  DeploymentConfigPipeline : Type;
  ReplicationController : Type;
  ImagePipeline : Type;
  AllServiceGroups : Graph -> gset Z -> list ServiceGroup * gset Z;
  AllDeploymentConfigPipelines : Graph -> gset Z -> list DeploymentConfigPipeline * gset Z;
  AllReplicationControllers : Graph -> gset Z -> list ReplicationController * gset Z;
  AllImagePipelinesFromBuildConfig : Graph -> gset Z -> list ImagePipeline * gset Z;
  AllPods : Graph -> gset Z -> list graphview_Pod * gset Z
}.

(** What is observable of the passes: a partition function was called
    with the set [excluded] and returned the set [claimed]; the covered set
    took the value [covered]. *)
Inductive Event :=
| EvPass (p : Pass) (excluded claimed : gset Z)
| EvCovered (covered : gset Z).

(** The mutable [coveredNodes] of [Describe], and the trace. *)
Record State := {
  coveredNodes : gset Z;
  trace : list Event
}.

(** Modelled from the spec: [IntSet.List] and [IntSet.Insert] of the
    graphview package, which is not among the sources. "The caller unions
    that into the running covered set": [List] enumerates a set and
    [Insert] adds the given IDs one by one. *)
Definition IntSet_List (s : gset Z) : list Z := elements s.

Definition IntSet_Insert (items : list Z) (s : gset Z) : gset Z :=
  fold_left (fun s item => {[item]} ∪ s) items s.

(** [coveredNodes.Insert(items...)] *)
Definition Insert (items : list Z) : St.M State unit :=
  St.modify (fun s =>
    let covered := IntSet_Insert items (coveredNodes s) in
    {| coveredNodes := covered; trace := trace s ++ [EvCovered covered] |}).

Section WithViews.
Context `{Views}.

(** A call [graphview.AllX(g, coveredNodes)] *)
Definition call {V} (p : Pass) (all : Graph -> gset Z -> list V * gset Z)
    (g : Graph) : St.M State (list V * gset Z) :=
  fun s =>
    let r := all g (coveredNodes s) in
    (r, {| coveredNodes := coveredNodes s;
           trace := trace s ++ [EvPass p (coveredNodes s) (snd r)] |}).

(** The groups [Describe] renders. *)
Record Groups := {
  services : list ServiceGroup;
  standaloneDCs : list DeploymentConfigPipeline;
  standaloneRCs : list ReplicationController;
  standaloneImages : list ImagePipeline;
  standalonePods : list graphview_Pod
}.

(** The five passes of [Describe], from [coveredNodes := IntSet{}] to the
    last [Insert]. *)
Definition partition (g : Graph) : St.M State Groups :=
  let* (services, coveredByServices) := call ServiceGroupsPass AllServiceGroups g in
  Insert (IntSet_List coveredByServices) ;;;
  let* (standaloneDCs, coveredByDCs) :=
    call DeploymentConfigPipelinesPass AllDeploymentConfigPipelines g in
  Insert (IntSet_List coveredByDCs) ;;;
  let* (standaloneRCs, coveredByRCs) :=
    call ReplicationControllersPass AllReplicationControllers g in
  Insert (IntSet_List coveredByRCs) ;;;
  let* (standaloneImages, coveredByImages) :=
    call ImagePipelinesFromBuildConfigPass AllImagePipelinesFromBuildConfig g in
  Insert (IntSet_List coveredByImages) ;;;
  let* (standalonePods, coveredByPods) := call PodsPass AllPods g in
  Insert (IntSet_List coveredByPods) ;;;
  St.ret {| services := services; standaloneDCs := standaloneDCs;
            standaloneRCs := standaloneRCs; standaloneImages := standaloneImages;
            standalonePods := standalonePods |}.

Definition initial : State := {| coveredNodes := ∅; trace := [] |}.

(** The part of [Describe] that decides what is printed as a monopod:
    the passes, then [filterBoringPods] on the standalone pods. *)
Definition monopods (DeployerPodForDeploymentLabel BuildAnnotation : string)
    (g : Graph) : (Errors.GoError + list graphview_Pod) * State :=
  let '(groups, s) := partition g initial in
  (filterBoringPods DeployerPodForDeploymentLabel BuildAnnotation
     (standalonePods groups), s).

(** Modelled from the spec: the contract of the pods pass of the
    graphview package, which is not among the sources. A pass "returns both
    the list of matched group views and the set of newly-covered node IDs":
    the node of every pod that [AllPods] returns is among the IDs it
    returns as covered. *)
Definition podsPassCovers : Prop :=
  forall (g : Graph) (excluded : gset Z) (pod : graphview_Pod),
    pod ∈ (AllPods g excluded).1 -> ID (Pod pod) ∈ (AllPods g excluded).2.

End WithViews.

(** *** Reading a trace *)

(** The passes in the order they were called. *)
Definition passOrder (tr : list Event) : list Pass :=
  omap (fun e => match e with EvPass p _ _ => Some p | EvCovered _ => None end) tr.

(** The union of the node IDs claimed by the passes of a trace. *)
Definition claimedBy (tr : list Event) : gset Z :=
  fold_left
    (fun acc e => match e with EvPass _ _ claimed => acc ∪ claimed | EvCovered _ => acc end)
    tr ∅.

(** The successive values of the covered set, from the empty set it starts
    as. *)
Definition coveredHistory (tr : list Event) : list (gset Z) :=
  ∅ :: omap (fun e => match e with EvCovered c => Some c | EvPass _ _ _ => None end) tr.

(** A small graph for the examples: the nodes are numbers, a service
    group is a service node with the nodes it covers; every other pass
    finds the nodes of its kind that are not excluded. *)
Definition sampleViews : Views := {|
  Graph := list (Pass * Z);
  ServiceGroup := Z;
  DeploymentConfigPipeline := Z;
  ReplicationController := Z;
  ImagePipeline := Z;
  AllServiceGroups := fun g excluded =>
    let found := List.filter (fun n => bool_decide (n.1 = ServiceGroupsPass)
                                       && bool_decide (n.2 ∉ excluded)) g in
    (map snd found, list_to_set (flat_map (fun n => [n.2; n.2 + 1]) found));
  AllDeploymentConfigPipelines := fun g excluded =>
    let found := List.filter (fun n => bool_decide (n.1 = DeploymentConfigPipelinesPass)
                                       && bool_decide (n.2 ∉ excluded)) g in
    (map snd found, list_to_set (map snd found));
  AllReplicationControllers := fun g excluded =>
    let found := List.filter (fun n => bool_decide (n.1 = ReplicationControllersPass)
                                       && bool_decide (n.2 ∉ excluded)) g in
    (map snd found, list_to_set (map snd found));
  AllImagePipelinesFromBuildConfig := fun g excluded =>
    let found := List.filter (fun n => bool_decide (n.1 = ImagePipelinesFromBuildConfigPass)
                                       && bool_decide (n.2 ∉ excluded)) g in
    (map snd found, list_to_set (map snd found));
  AllPods := fun g excluded =>
    let found := List.filter (fun n => bool_decide (n.1 = PodsPass)
                                       && bool_decide (n.2 ∉ excluded)) g in
    (map (fun n => {| Pod := {| ID := n.2;
                                Object_ := PodObject
                                  {| Meta := {| Name := "pod"; Namespace := "test";
                                                Labels := ∅; Annotations := ∅ |};
                                     Phase := if n.2 =? 40 then PodSucceeded
                                              else PodRunning |} |} |}) found,
     list_to_set (map snd found))
|}.

End Coverage.

(** ** Markers *)
Module Markers.
Import GoStr.

Inductive Severity := InfoSeverity | WarningSeverity | ErrorSeverity.

#[global] Instance Severity_eq_dec : EqDecision Severity.
Proof. solve_decision. Defined.

(** Modelled from the spec: [osgraph.Marker] of pkg/api/graph, which is
    not among the sources: "severity, key, relatedNode: NodeID?, message,
    suggestion". [Node] is the identity of the related node, absent for a
    marker that is about no node; an absent suggestion is the empty
    string, which is how [Describe] tests for it. *)
Record Marker := {
  Node : option Z;
  Severity_ : Severity;
  Key : string;
  Message : string;
  Suggestion : string
}.

Definition ForbiddenListWarning : string := "Forbidden".

(** [createForbiddenMarkers]: one warning per forbidden kind. Go ranges
    over the set in no fixed order; [elements] fixes one. *)
Definition createForbiddenMarkers (forbiddenResources : gset string) : list Marker :=
  fold_left
    (fun markers forbiddenResource =>
       markers ++
       [{| Node := None;
           Severity_ := WarningSeverity;
           Key := ForbiddenListWarning;
           Message := "Unable to list " +:+ forbiddenResource
                      +:+ " resources.  Not all status relationships can be established.";
           Suggestion := "" |}])
    (elements forbiddenResources) [].

(** Modelled from the spec: the method [Less] of [osgraph.ByKey], which
    is not among the sources; it sorts "by marker key". *)
Definition ByKey_Less (a b : Marker) : bool := lt (Key a) (Key b).

(** Modelled from the spec: the method [Less] of [osgraph.ByNodeID], which
    is not among the sources; it sorts "by related-node identity". Two
    markers about the same node, or both about no node, are ties; a marker
    about no node has no identity and goes before those that have one. *)
Definition ByNodeID_Less (a b : Marker) : bool :=
  match Node a, Node b with
  | None, None => false
  | None, Some _ => true
  | Some _, None => false
  | Some i, Some j => i <? j
  end.

(** The two calls of [Describe]:
    [sort.Stable(osgraph.ByKey(allMarkers))] and then
    [sort.Stable(osgraph.ByNodeID(allMarkers))]. *)
Definition sortMarkers (allMarkers : list Marker) : list Marker :=
  let allMarkers := GoSort.insertionSort ByKey_Less allMarkers in
  GoSort.insertionSort ByNodeID_Less allMarkers.

(** Modelled from the spec: [Markers.BySeverity], which is not among the
    sources; it "buckets by severity". *)
Definition BySeverity (severity : Severity) (m : list Marker) : list Marker :=
  List.filter (fun x => bool_decide (Severity_ x = severity)) m.

(** The markers that share the key [k] and the related node [n]. *)
Definition sameKeyAndNode (k : string) (n : option Z) (m : Marker) : bool :=
  bool_decide (Key m = k) && bool_decide (Node m = n).

Definition aboutNode (n : option Z) (m : Marker) : bool :=
  bool_decide (Node m = n).

End Markers.

(** ** The summary line of [Describe] *)
Module Summary.
Import GoStr Markers.

(** [errorSuggestions]: the error markers that carry a suggestion. *)
Definition countSuggestions (errorMarkers : list Marker) : Z :=
  fold_left
    (fun errorSuggestions marker =>
       if 0 <? len (Suggestion marker) then errorSuggestions + 1 else errorSuggestions)
    errorMarkers 0.

(** The strings [errors] and [warnings]. *)
Definition countPhrase (n : Z) (one : string) (many : string) : string :=
  if n =? 1 then one
  else if 1 <? n then Itoa n +:+ many
  else "".

Definition seeDetails : string := " identified, use 'oc status -v' to see details.".

(** The final [switch] of [Describe]: what is written after the marker
    sections. [nServices], [nDCs] and [nImages] are the lengths of
    [services], [standaloneDCs] and [standaloneImages]. *)
Definition summary (Suggest : bool) (errorMarkers warningMarkers : list Marker)
    (nServices nDCs nImages : Z) : string :=
  let nErrors := Z.of_nat (length errorMarkers) in
  let nWarnings := Z.of_nat (length warningMarkers) in
  let errorSuggestions := countSuggestions errorMarkers in
  let errors := countPhrase nErrors "1 error" " errors" in
  let warnings := countPhrase nWarnings "1 warning" " warnings" in
  if negb Suggest && (0 <? nErrors) && (0 <? nWarnings) then
    errors +:+ " and " +:+ warnings +:+ seeDetails +:+ nl
  else if negb Suggest && (0 <? nErrors) && (0 <? errorSuggestions) then
    errors +:+ seeDetails +:+ nl
  else if negb Suggest && (0 <? nWarnings) then
    warnings +:+ seeDetails +:+ nl
  else if (nServices =? 0) && (nDCs =? 0) && (nImages =? 0) then
    "You have no services, deployment configs, or build configs." +:+ nl
    +:+ "Run 'oc new-app' to create an application." +:+ nl
  else
    "View details with 'oc describe <resource>/<name>' or list everything with 'oc get all'."
    +:+ nl.

(** The summary as [Describe] computes it from the sorted markers. *)
Definition describeSummary (Suggest : bool) (allMarkers : list Marker)
    (nServices nDCs nImages : Z) : string :=
  summary Suggest (BySeverity ErrorSeverity allMarkers)
    (BySeverity WarningSeverity allMarkers) nServices nDCs nImages.

(** The three fixed phrasings with counts, and the two guidance texts. *)
Definition combinedSummary (nErrors nWarnings : Z) : string :=
  countPhrase nErrors "1 error" " errors" +:+ " and "
  +:+ countPhrase nWarnings "1 warning" " warnings" +:+ seeDetails +:+ nl.

Definition errorOnlySummary (nErrors : Z) : string :=
  countPhrase nErrors "1 error" " errors" +:+ seeDetails +:+ nl.

Definition warningOnlySummary (nWarnings : Z) : string :=
  countPhrase nWarnings "1 warning" " warnings" +:+ seeDetails +:+ nl.

Definition noResourcesGuidance : string :=
  "You have no services, deployment configs, or build configs." +:+ nl
  +:+ "Run 'oc new-app' to create an application." +:+ nl.

Definition seeDetailsGuidance : string :=
  "View details with 'oc describe <resource>/<name>' or list everything with 'oc get all'."
  +:+ nl.

End Summary.

(** ** Service ports *)
Module Ports.
Import GoStr.

Inductive ServiceType :=
| ServiceTypeClusterIP
| ServiceTypeNodePort
| ServiceTypeLoadBalancer.

#[global] Instance ServiceType_eq_dec : EqDecision ServiceType.
Proof. solve_decision. Defined.

(** [intstr.IntOrString]: a port number or a port name, with the tag that
    says which. Both fields exist whatever the tag says, and
    [describeServicePorts] reads [IntVal] without looking at it. *)
Inductive IntstrKind := IntstrInt | IntstrString.

Record IntOrString := {
  Kind : IntstrKind;
  IntVal : Z;
  StrVal : string
}.

(** [IntOrString.String()] *)
Definition IntOrString_String (v : IntOrString) : string :=
  match Kind v with
  | IntstrString => StrVal v
  | IntstrInt => Itoa (IntVal v)
  end.

(** [kapi.ServicePort] *)
Record ServicePort := {
  Port : Z;
  TargetPort : IntOrString;
  NodePort : Z
}.

(** [kapi.ServiceSpec] *)
Record ServiceSpec := {
  Type_ : ServiceType;
  ClusterIP : string;
  Ports : list ServicePort
}.

(** [kapi.ClusterIPNone] *)
Definition ClusterIPNone : string := "None".

(** [portOrNodePort] *)
Definition portOrNodePort (spec : ServiceSpec) (port : ServicePort) : string :=
  if negb (bool_decide (Type_ spec = ServiceTypeNodePort)) then Itoa (Port port)
  else if NodePort port =? 0 then "<initializing>"
  else Itoa (NodePort port).

(** The loop of the multi-port case of [describeServicePorts] *)
Definition describePortPairs (spec : ServiceSpec) : list string :=
  fold_left
    (fun pairs port =>
       let externalPort := portOrNodePort spec port in
       if String.eqb (IntOrString_String (TargetPort port)) "0"
          || String.eqb (ClusterIP spec) ClusterIPNone
       then pairs ++ [externalPort]
       else if Port port =? IntVal (TargetPort port)
       then pairs ++ [IntOrString_String (TargetPort port)]
       else pairs ++ [externalPort +:+ "->" +:+ IntOrString_String (TargetPort port)])
    (Ports spec) [].

(** [describeServicePorts] *)
Definition describeServicePorts (spec : ServiceSpec) : string :=
  match Ports spec with
  | [] => " no ports"
  | [port0] =>
      let port := portOrNodePort spec port0 in
      if String.eqb (IntOrString_String (TargetPort port0)) "0"
         || String.eqb (ClusterIP spec) ClusterIPNone
         || String.eqb port (IntOrString_String (TargetPort port0))
      then ":" +:+ port
      else ":" +:+ port +:+ " -> " +:+ IntOrString_String (TargetPort port0)
  | _ => " ports " +:+ Join (describePortPairs spec) ", "
  end.

(** A port given by number *)
Definition FromInt (n : Z) : IntOrString :=
  {| Kind := IntstrInt; IntVal := n; StrVal := "" |}.

End Ports.

(** ** Build timestamps *)
Module Builds.

(** [unversioned.Time]: an instant, counted from the zero time, which is
    what [Time{}] is and what [IsZero] tests for. *)
Definition Time : Type := Z.

Definition zeroTime : Time := 0.

Definition IsZero (t : Time) : bool := t =? 0.

(** [IsZero] on a pointer to a time, which is true of a nil pointer *)
Definition IsZeroPtr (t : option Time) : bool :=
  match t with
  | None => true
  | Some t => IsZero t
  end.

Definition Before (t u : Time) : bool := t <? u.

Definition After (t u : Time) : bool := u <? t.

(** [buildapi.Build]: the name and the three timestamps; the start and the
    completion are pointers. *)
Record Build := {
  Name : string;
  CreationTimestamp : Time;
  StartTimestamp : option Time;
  CompletionTimestamp : option Time
}.

(** [buildTimestamp] *)
Definition buildTimestamp (build : option Build) : Time :=
  match build with
  | None => zeroTime
  | Some build =>
      if negb (IsZeroPtr (CompletionTimestamp build)) then
        match CompletionTimestamp build with Some t => t | None => zeroTime end
      else if negb (IsZeroPtr (StartTimestamp build)) then
        match StartTimestamp build with Some t => t | None => zeroTime end
      else CreationTimestamp build
  end.

(** [buildgraph.BuildNode] and [buildgraph.BuildConfigNode]: the build a
    node holds, possibly nil, and the name of a build config. *)
Record BuildNode := { Build_ : option Build }.

Record BuildConfigNode := { BuildConfigName : string }.

Section Detail.
(** [describeBuildPhase] phrases one build; it is given the build, the
    time to print (nil for the build's own timestamp), the name of the
    build config and whether the push target resolved. Its text depends on
    the clock and is not looked into here. *)
Variable describeBuildPhase : Build -> option Time -> string -> bool -> string.

(** A call [describeBuildPhase(node.Build, ...)]: the function reads the
    fields of the build, so a nil build is a nil dereference, [None]. *)
Definition phaseOf (node : BuildNode) (t : option Time) (parentName : string)
    (pushTargetResolved : bool) : option string :=
  match Build_ node with
  | None => None
  | Some b => Some (describeBuildPhase b t parentName pushTargetResolved)
  end.

(** The loop over [activeBuilds] *)
Fixpoint activeLines (activeBuilds : list BuildNode) (parentName : string)
    (pushTargetResolved : bool) (activeOut : list string) : option (list string) :=
  match activeBuilds with
  | [] => Some activeOut
  | node :: rest =>
      match phaseOf node None parentName pushTargetResolved with
      | None => None
      | Some line => activeLines rest parentName pushTargetResolved (activeOut ++ [line])
      end
  end.

(** [describeAdditionalBuildDetail]; [None] is a nil dereference. *)
Definition describeAdditionalBuildDetail (build : option BuildConfigNode)
    (lastSuccessfulBuild lastUnsuccessfulBuild : option BuildNode)
    (activeBuilds : list BuildNode) (pushTargetResolved includeSuccess : bool)
  : option (list string) :=
  match build with
  | None => Some []
  | Some build =>
      let out : list string := [] in
      let passTime :=
        match lastSuccessfulBuild with
        | Some node => buildTimestamp (Build_ node)
        | None => zeroTime
        end in
      let failTime :=
        match lastUnsuccessfulBuild with
        | Some node => buildTimestamp (Build_ node)
        | None => zeroTime
        end in
      let lastTime := if After passTime failTime then passTime else failTime in
      out ← match lastSuccessfulBuild with
            | Some node =>
                if includeSuccess || (0 <? Z.of_nat (length activeBuilds)) then
                  line ← phaseOf node (Some passTime) (BuildConfigName build)
                           pushTargetResolved;
                  Some (out ++ [line])
                else Some out
            | None => Some out
            end;
      out ← (if Before passTime failTime then
               match lastUnsuccessfulBuild with
               | None => None
               | Some node =>
                   line ← phaseOf node (Some failTime) (BuildConfigName build)
                            pushTargetResolved;
                   Some (out ++ [line])
               end
             else Some out);
      out ← match activeBuilds with
            | [] => Some out
            | first :: _ =>
                activeOut ← activeLines activeBuilds (BuildConfigName build)
                              pushTargetResolved [];
                if Before (buildTimestamp (Build_ first)) lastTime
                then Some (out ++ activeOut)
                else Some (activeOut ++ out)
            end;
      match out, lastSuccessfulBuild with
      | [], None => Some (out ++ ["not built yet"])
      | _, _ => Some out
      end
  end.

End Detail.
End Builds.

(** ** Resource names *)
Module Names.
Import GoStr.

(** [namespaceNameWithType] *)
Definition namespaceNameWithType (resource name namespace defaultNamespace : string)
    (noNamespace : bool) : string :=
  if noNamespace || String.eqb namespace defaultNamespace || (len namespace =? 0)
  then resource +:+ "/" +:+ name
  else resource +:+ "/" +:+ name +:+ "[" +:+ namespace +:+ "]".

(** [namespacedFormatter] *)
Record namespacedFormatter := {
  hideNamespace : bool;
  currentNamespace : string
}.

(** The node types the type switch of [ResourceName] knows. *)
Inductive NodeKind :=
| PodNode | ServiceNode | SecretNode | ServiceAccountNode
| ReplicationControllerNode
| ImageStreamNode | ImageStreamTagNode | ImageStreamImageNode | ImageNode
| BuildConfigNode | BuildNode
| DeploymentConfigNode
| RouteNode.

(** What [ResourceName] is given: a node of one of these types, of which
    it reads the name and the namespace, or any other value, of which it
    prints the Go syntax ([%#v]). *)
Inductive Object :=
| Node (kind : NodeKind) (name namespace : string)
| Other (goSyntax : string).

(** [namespacedFormatter.ResourceName] *)
Definition ResourceName (f : namespacedFormatter) (obj : Object) : string :=
  match obj with
  | Node PodNode name namespace =>
      namespaceNameWithType "pod" name namespace (currentNamespace f) (hideNamespace f)
  | Node ServiceNode name namespace =>
      namespaceNameWithType "svc" name namespace (currentNamespace f) (hideNamespace f)
  | Node SecretNode name namespace =>
      namespaceNameWithType "secret" name namespace (currentNamespace f) (hideNamespace f)
  | Node ServiceAccountNode name namespace =>
      namespaceNameWithType "sa" name namespace (currentNamespace f) (hideNamespace f)
  | Node ReplicationControllerNode name namespace =>
      namespaceNameWithType "rc" name namespace (currentNamespace f) (hideNamespace f)
  | Node ImageStreamNode name namespace =>
      namespaceNameWithType "is" name namespace (currentNamespace f) (hideNamespace f)
  | Node ImageStreamTagNode name namespace =>
      namespaceNameWithType "istag" name namespace (currentNamespace f) (hideNamespace f)
  | Node ImageStreamImageNode name namespace =>
      namespaceNameWithType "isi" name namespace (currentNamespace f) (hideNamespace f)
  | Node ImageNode name namespace =>
      namespaceNameWithType "image" name namespace (currentNamespace f) (hideNamespace f)
  | Node BuildConfigNode name namespace =>
      namespaceNameWithType "bc" name namespace (currentNamespace f) (hideNamespace f)
  | Node BuildNode name namespace =>
      namespaceNameWithType "build" name namespace (currentNamespace f) (hideNamespace f)
  | Node DeploymentConfigNode name namespace =>
      namespaceNameWithType "dc" name namespace (currentNamespace f) (hideNamespace f)
  | Node RouteNode name namespace =>
      namespaceNameWithType "route" name namespace (currentNamespace f) (hideNamespace f)
  | Other goSyntax => "<unrecognized object: " +:+ goSyntax +:+ ">"
  end.

(** The abbreviation [ResourceName] puts before the name of a node. *)
Definition resourceOf (kind : NodeKind) : string :=
  match kind with
  | PodNode => "pod" | ServiceNode => "svc" | SecretNode => "secret"
  | ServiceAccountNode => "sa" | ReplicationControllerNode => "rc"
  | ImageStreamNode => "is" | ImageStreamTagNode => "istag"
  | ImageStreamImageNode => "isi" | ImageNode => "image"
  | BuildConfigNode => "bc" | BuildNode => "build"
  | DeploymentConfigNode => "dc" | RouteNode => "route"
  end.

(** [indentLines] *)
Definition indentLines (indent : string) (lines : list string) : list string :=
  fold_left (fun ret line => ret ++ [indent +:+ line]) lines [].

(** Whether the byte [c] occurs in [s] *)
Definition containsByte (s : string) (c : ascii) : bool :=
  negb (IndexByte s c =? -1).

(** The namespace [namespaceNameWithType] shows for a node, if any. *)
Definition shownNamespace (f : namespacedFormatter) (namespace : string)
  : option string :=
  if hideNamespace f || String.eqb namespace (currentNamespace f)
     || (len namespace =? 0)
  then None else Some namespace.

End Names.

(** ** Routes of a service group *)
Module RouteView.
Import GoStr Names.

(** [routeapi.TLSTerminationType] and
    [routeapi.InsecureEdgeTerminationPolicyType] are strings; the code
    compares them with these constants. *)
Inductive TLSTerminationType :=
| TLSTerminationEdge
| TLSTerminationPassthrough
| TLSTerminationReencrypt
| TLSTerminationOther (value : string).

Inductive InsecureEdgeTerminationPolicyType :=
| InsecureEdgeTerminationPolicyNone
| InsecureEdgeTerminationPolicyAllow
| InsecureEdgeTerminationPolicyRedirect
| InsecureEdgeTerminationPolicyOther (value : string).

Record TLSConfig := {
  Termination : TLSTerminationType;
  InsecureEdgeTerminationPolicy : InsecureEdgeTerminationPolicyType
}.

Record RoutePort := { TargetPort : Ports.IntOrString }.

Inductive ConditionStatus := ConditionTrue | ConditionFalse | ConditionUnknown.

(** One entry of [route.Status.Ingress]. [IngressConditionStatus] of the
    route API package, which looks up the condition of type
    [RouteAdmitted], is not among the sources; its two results for an
    ingress are kept with it: the status and the reason of the condition. *)
Record RouteIngress := {
  Host : string;
  AdmittedStatus : ConditionStatus;
  AdmittedReason : string
}.

(** [routeapi.Route], with the fields that are read. [TLS] and [Port] are
    pointers. *)
Record Route := {
  Name : string;
  Namespace : string;
  SpecHost : string;
  TLS : option TLSConfig;
  Port : option RoutePort;
  Ingress : list RouteIngress
}.

(** An ingress the router rejected: its admission condition is false. *)
Definition rejected (i : RouteIngress) : bool :=
  match AdmittedStatus i with ConditionFalse => true | _ => false end.

(** [sets.String.List()]: the members in increasing order. *)
Definition sortedList (s : gset string) : list string :=
  GoSort.insertionSort GoStr.lt (elements s).

(** The loop of [extractRouteInfo] over the ingresses, on [requested],
    [other] and the set [reasons]. *)
Definition extractLoop (specHost : string) (ingresses : list RouteIngress)
  : bool * list string * gset string :=
  fold_left
    (fun '(requested, other, reasons) ingress =>
       let exact := String.eqb specHost (Host ingress) in
       match AdmittedStatus ingress with
       | ConditionFalse => (requested, other, {[AdmittedReason ingress]} ∪ reasons)
       | _ =>
           if exact then (true, other, reasons)
           else (requested, other ++ [Host ingress], reasons)
       end)
    ingresses (false, [], ∅).

(** [extractRouteInfo] *)
Definition extractRouteInfo (route : Route) : bool * list string * list string :=
  let '(requested, other, reasons) := extractLoop (SpecHost route) (Ingress route) in
  (requested, other, sortedList reasons).

(** [describeRouteExposed] *)
Definition describeRouteExposed (host : string) (route : Route) (errors : bool)
  : string :=
  let trailer := if errors then " (!)" else "" in
  let prefix :=
    match TLS route with
    | None => "http://" +:+ host
    | Some tls =>
        match Termination tls with
        | TLSTerminationPassthrough => "https://" +:+ host +:+ " (passthrough)"
        | TLSTerminationReencrypt => "https://" +:+ host +:+ " (reencrypt)"
        | TLSTerminationOther _ => "https://" +:+ host
        | TLSTerminationEdge =>
            match InsecureEdgeTerminationPolicy tls with
            | InsecureEdgeTerminationPolicyRedirect =>
                "https://" +:+ host +:+ " (redirects)"
            | InsecureEdgeTerminationPolicyAllow =>
                "https://" +:+ host +:+ " (and http)"
            | _ => "https://" +:+ host
            end
        end
    end in
  match Port route with
  | Some port =>
      if 0 <? len (Ports.IntOrString_String (TargetPort port))
      then prefix +:+ " to pod port "
           +:+ Ports.IntOrString_String (TargetPort port) +:+ trailer
      else prefix +:+ trailer
  | None => prefix +:+ trailer
  end.

(** What [describeRouteExposed] writes after the host: the note on the
    TLS termination, the target port, the trailer. *)
Definition exposedTail (route : Route) (errors : bool) : string :=
  let trailer := if errors then " (!)" else "" in
  let note :=
    match TLS route with
    | None => ""
    | Some tls =>
        match Termination tls with
        | TLSTerminationPassthrough => " (passthrough)"
        | TLSTerminationReencrypt => " (reencrypt)"
        | TLSTerminationOther _ => ""
        | TLSTerminationEdge =>
            match InsecureEdgeTerminationPolicy tls with
            | InsecureEdgeTerminationPolicyRedirect => " (redirects)"
            | InsecureEdgeTerminationPolicyAllow => " (and http)"
            | _ => ""
            end
        end
    end in
  match Port route with
  | Some port =>
      if 0 <? len (Ports.IntOrString_String (TargetPort port))
      then note +:+ " to pod port "
           +:+ Ports.IntOrString_String (TargetPort port) +:+ trailer
      else note +:+ trailer
  | None => note +:+ trailer
  end.

(** The scheme [describeRouteExposed] writes before the host. *)
Definition schemeOf (route : Route) : string :=
  match TLS route with None => "http://" | Some _ => "https://" end.

(** [describeRouteInServiceGroup]; the formatter names the route node. *)
Definition describeRouteInServiceGroup (f : namespacedFormatter) (routeNode : Route)
  : list string :=
  let '(requested, other, errors) := extractRouteInfo routeNode in
  let hasErrors := 0 <? Z.of_nat (length errors) in
  let lines : list string := [] in
  let lines :=
    if requested
    then lines ++ [describeRouteExposed (SpecHost routeNode) routeNode hasErrors]
    else lines in
  let lines :=
    fold_left (fun lines s => lines ++ [describeRouteExposed s routeNode hasErrors])
      other lines in
  let name := ResourceName f (Node RouteNode (Name routeNode) (Namespace routeNode)) in
  match lines with
  | [] =>
      match errors with
      | reason :: _ => lines ++ [name +:+ " not accepted: " +:+ reason]
      | [] =>
          if len (SpecHost routeNode) =? 0
          then lines ++ [name +:+ " has no host set"]
          else if Z.of_nat (length (Ingress routeNode)) =? 0
          then lines ++ [describeRouteExposed (SpecHost routeNode) routeNode false]
          else lines ++ ["exposed as " +:+ SpecHost routeNode +:+ " by " +:+ name]
      end
  | _ => lines
  end.

(** [kubegraph.ServiceNode] and [graphview.ServiceGroup], with what the
    header of a service group reads. *)
Record ServiceNode := {
  ServiceName : string;
  ServiceNamespace : string;
  Spec : Ports.ServiceSpec
}.

Record ServiceGroup := {
  Service : ServiceNode;
  ExposingRoutes : list Route
}.

(** [describeServiceInServiceGroup] *)
Definition describeServiceInServiceGroup (f : namespacedFormatter)
    (svc : ServiceGroup) (exposed : list string) : list string :=
  let spec := Spec (Service svc) in
  let ip := Ports.ClusterIP spec in
  let port := Ports.describeServicePorts spec in
  let name :=
    ResourceName f (Node Names.ServiceNode (ServiceName (Service svc))
                      (ServiceNamespace (Service svc))) in
  match exposed with
  | first :: ((_ :: _) as rest) => [first +:+ " (" +:+ name +:+ ")"] ++ rest
  | [first] => [first +:+ " (" +:+ name +:+ ")"]
  | [] =>
      if bool_decide (Ports.Type_ spec = Ports.ServiceTypeNodePort)
      then [name +:+ " (all nodes)" +:+ port]
      else if String.eqb ip "None" then [name +:+ " (headless)" +:+ port]
      else if len ip =? 0 then [name +:+ " <initializing>" +:+ port]
      else [name +:+ " - " +:+ ip +:+ port]
  end.

(** The header lines [Describe] prints for one service group: the lines of
    its routes, sorted, handed to [describeServiceInServiceGroup]. *)
Definition serviceHeader (f : namespacedFormatter) (service : ServiceGroup)
  : list string :=
  let local := {| hideNamespace := false;
                  currentNamespace := ServiceNamespace (Service service) |} in
  let exposes :=
    fold_left (fun exposes routeNode =>
                 exposes ++ describeRouteInServiceGroup local routeNode)
      (ExposingRoutes service) [] in
  let exposes := Routes.sortExposed exposes in
  describeServiceInServiceGroup f service exposes.

(** A service that one route exposes, for the examples. *)
Definition sampleService : ServiceGroup :=
  {| Service := {| ServiceName := "frontend"; ServiceNamespace := "test";
                   Spec := {| Ports.Type_ := Ports.ServiceTypeClusterIP;
                              Ports.ClusterIP := "172.30.0.10";
                              Ports.Ports := [] |} |};
     ExposingRoutes :=
       [{| Name := "frontend"; Namespace := "test"; SpecHost := "www.example.com";
           TLS := None; Port := None; Ingress := [] |}] |}.

End RouteView.

(** ** Deployments and replication controllers *)
Module Deploy.
Import GoStr.

(** [deployapi.DeploymentStatus] is a string; the code tells three of its
    values apart and prints any other in lower case. *)
Inductive DeploymentStatus :=
| DeploymentStatusFailed
| DeploymentStatusComplete
| DeploymentStatusRunning
| DeploymentStatusOther (value : string).

(** [kapi.ReplicationController], with what is read of it. The package
    deployutil, whose functions read the status, the version and the status
    reason of a deployment from its annotations, is not among the sources:
    the three values are kept with the controller. *)
Record ReplicationController := {
  Name : string;
  CreationTimestamp : Builds.Time;
  SpecReplicas : Z;
  StatusReplicas : Z;
  DeploymentStatusFor : DeploymentStatus;
  DeploymentVersionFor : Z;
  DeploymentStatusReasonFor : string
}.

(** [deployapi.DeploymentTriggerType] *)
Inductive DeploymentTriggerType :=
| DeploymentTriggerOnConfigChange
| DeploymentTriggerOnImageChange
| DeploymentTriggerOther (value : string).

(** [deployapi.DeploymentConfig], with what is read of it *)
Record DeploymentConfig := {
  LatestVersion : Z;
  Test : bool;
  Triggers : list DeploymentTriggerType
}.

(** [describePodSummary] *)
Definition describePodSummary (rc : ReplicationController) (includeEmpty : bool)
  : string :=
  let actual := StatusReplicas rc in
  let requested := SpecReplicas rc in
  if actual =? requested then
    if actual =? 0 then (if negb includeEmpty then "" else "0 pods")
    else if 1 <? actual then Itoa actual +:+ " pods"
    else "1 pod"
  else Itoa actual +:+ "/" +:+ Itoa requested +:+ " pods".

(** [describePodSummaryInline] *)
Definition describePodSummaryInline (rc : ReplicationController) (includeEmpty : bool)
  : string :=
  let s := describePodSummary rc includeEmpty in
  if len s =? 0 then s
  else
    let desired := SpecReplicas rc in
    let change :=
      if desired <? StatusReplicas rc then " reducing to " +:+ Itoa desired
      else if StatusReplicas rc <? desired then " growing to " +:+ Itoa desired
      else "" in
    " - " +:+ s +:+ change.

(** [describeDeploymentConfigTrigger] *)
Definition describeDeploymentConfigTrigger (dc : DeploymentConfig) : string :=
  if Z.of_nat (length (Triggers dc)) =? 0 then "(manual)" else "".

(** [describeDeploymentConfigTriggers] *)
Definition describeDeploymentConfigTriggers (config : DeploymentConfig)
  : string * bool :=
  let '(hasConfig, hasImage) :=
    fold_left
      (fun '(hasConfig, hasImage) t =>
         match t with
         | DeploymentTriggerOnConfigChange => (true, hasImage)
         | DeploymentTriggerOnImageChange => (hasConfig, true)
         | DeploymentTriggerOther _ => (hasConfig, hasImage)
         end)
      (Triggers config) (false, false) in
  if hasConfig && hasImage then ("on image or update", true)
  else if hasConfig then ("on update", true)
  else if hasImage then ("on image", true)
  else ("for manual", false).

Section Text.
(** [formatRelativeTime], a helper of the package that is not among the
    sources and reads the clock, and [strings.ToLower]. *)
Variables (formatRelativeTime : Builds.Time -> string) (ToLower : string -> string).

(** [describeDeploymentStatus] *)
Definition describeDeploymentStatus (deploy : ReplicationController)
    (first test : bool) : string :=
  let timeAt := ToLower (formatRelativeTime (CreationTimestamp deploy)) in
  let status := DeploymentStatusFor deploy in
  let version := DeploymentVersionFor deploy in
  match status with
  | DeploymentStatusFailed =>
      let reason := DeploymentStatusReasonFor deploy in
      let reason := if 0 <? len reason then ": " +:+ reason else reason in
      "deployment #" +:+ Itoa version +:+ " failed " +:+ timeAt +:+ " ago"
      +:+ reason +:+ describePodSummaryInline deploy false
  | DeploymentStatusComplete =>
      if test
      then "test deployment #" +:+ Itoa version +:+ " deployed " +:+ timeAt +:+ " ago"
      else "deployment #" +:+ Itoa version +:+ " deployed " +:+ timeAt +:+ " ago"
           +:+ describePodSummaryInline deploy first
  | DeploymentStatusRunning =>
      (if test then "test deployment #" else "deployment #")
      +:+ Itoa version +:+ " running for " +:+ timeAt
      +:+ describePodSummaryInline deploy false
  | DeploymentStatusOther value =>
      "deployment #" +:+ Itoa version +:+ " " +:+ ToLower value +:+ " " +:+ timeAt
      +:+ " ago" +:+ describePodSummaryInline deploy false
  end.

(** [describeRCStatus] *)
Definition describeRCStatus (rc : ReplicationController) : string :=
  let timeAt := ToLower (formatRelativeTime (CreationTimestamp rc)) in
  "rc/" +:+ Name rc +:+ " created " +:+ timeAt +:+ " ago"
  +:+ describePodSummaryInline rc false.

(** The loop of [describeDeployments] from the index [i] on: a line for
    each deployment, until the one that ends the loop. *)
Fixpoint deploymentLoop (test : bool) (count : Z) (i : Z)
    (deploymentsToPrint : list ReplicationController) (out : list string)
  : list string :=
  match deploymentsToPrint with
  | [] => out
  | deployment :: rest =>
      let out := out ++ [describeDeploymentStatus deployment (i =? 0) test] in
      if count =? -1 then
        match DeploymentStatusFor deployment with
        | DeploymentStatusComplete => out
        | _ => deploymentLoop test count (i + 1) rest out
        end
      else if count <=? i + 1 then out
      else deploymentLoop test count (i + 1) rest out
  end.

(** [describeDeployments]; the formatter it is given is not used. *)
Definition describeDeployments (dcNode : option DeploymentConfig)
    (activeDeployment : option ReplicationController)
    (inactiveDeployments : list ReplicationController) (count : Z) : list string :=
  match dcNode with
  | None => []
  | Some dc =>
      let out : list string := [] in
      match activeDeployment with
      | None =>
          let '(on, auto) := describeDeploymentConfigTriggers dc in
          let out :=
            if LatestVersion dc =? 0 then out ++ ["deployment #1 waiting " +:+ on]
            else if auto
            then out ++ ["deployment #" +:+ Itoa (LatestVersion dc) +:+ " pending " +:+ on]
            else out in
          deploymentLoop (Test dc) count 0 inactiveDeployments out
      | Some active =>
          deploymentLoop (Test dc) count 0 (active :: inactiveDeployments) out
      end
  end.

(** The line that announces a deployment to come, when no deployment is
    active. *)
Definition announcement (dc : DeploymentConfig) : list string :=
  if LatestVersion dc =? 0
  then ["deployment #1 waiting " +:+ (describeDeploymentConfigTriggers dc).1]
  else if (describeDeploymentConfigTriggers dc).2
  then ["deployment #" +:+ Itoa (LatestVersion dc) +:+ " pending "
        +:+ (describeDeploymentConfigTriggers dc).1]
  else [].

(** The status lines of a list of deployments, the first one marked as
    such. *)
Definition statusLines (test : bool) (deployments : list ReplicationController)
  : list string :=
  match deployments with
  | [] => []
  | d :: rest =>
      describeDeploymentStatus d true test
      :: map (fun d => describeDeploymentStatus d false test) rest
  end.

End Text.
End Deploy.

(** ** The phase of a build *)
Module BuildPhase.
Import GoStr.

(** The value of a decimal digit, as [strconv.ParseUint] reads it in
    base 10; any other byte is a syntax error. *)
Definition digitValue (c : ascii) : option Z :=
  let d := Z.of_nat (nat_of_ascii c) in
  if (48 <=? d) && (d <=? 57) then Some (d - 48) else None.

(** The loop of [strconv.ParseUint(s, 10, 64)]: [n] is the number read so
    far. [None] is an error: a byte that is not a digit, or a number that
    does not fit 64 bits. *)
Fixpoint parseDigits (s : string) (n : Z) : option Z :=
  match s with
  | EmptyString => Some n
  | String c r =>
      match digitValue c with
      | None => None
      | Some v =>
          if 2 ^ 64 <=? n * 10 + v then None
          else parseDigits r (n * 10 + v)
      end
  end.

(** [strconv.Atoi(s)] for a 64-bit [int]: an optional sign, then at least
    one digit, and a value between [-2^63] and [2^63 - 1]. [None] is an
    error. *)
Definition Atoi (s : string) : option Z :=
  match s with
  | EmptyString => None
  | String c r =>
      let neg := Ascii.eqb c "-" in
      let s := if Ascii.eqb c "+" || Ascii.eqb c "-" then r else s in
      match s with
      | EmptyString => None
      | _ =>
          match parseDigits s 0 with
          | None => None
          | Some un =>
              if negb neg && (2 ^ 63 <=? un) then None
              else if neg && (2 ^ 63 <? un) then None
              else Some (if neg then - un else un)
          end
      end
  end.

(** [buildapi.SourceControlUser], [buildapi.GitSourceRevision] and
    [buildapi.SourceRevision], whose [Git] is a pointer. *)
Record SourceControlUser := {
  UserName : string;
  Email : string
}.

Record GitSourceRevision := {
  Commit : string;
  Author : SourceControlUser;
  Committer : SourceControlUser;
  Message : string
}.

Record SourceRevision := { Git : option GitSourceRevision }.

(** [describeSourceControlUser] *)
Definition describeSourceControlUser (user : SourceControlUser) : string :=
  if len (UserName user) =? 0 then Email user
  else if len (Email user) =? 0 then UserName user
  else UserName user +:+ " <" +:+ Email user +:+ ">".

(** [describeSourceRevision] *)
Definition describeSourceRevision (rev : option SourceRevision) : string :=
  match rev with
  | None => ""
  | Some rev =>
      match Git rev with
      | Some git =>
          let author := describeSourceControlUser (Author git) in
          let author :=
            if len author =? 0 then describeSourceControlUser (Committer git)
            else author in
          let author :=
            if negb (len author =? 0) then " (" +:+ author +:+ ")" else author in
          let commit := Commit git in
          let commit := if 7 <? len commit then String.substring 0 7 commit else commit in
          commit +:+ ": " +:+ Message git +:+ author
      | None => ""
      end
  end.

(** [buildapi.BuildPhase] is a string; the code compares it with these
    constants. *)
Inductive Phase :=
| BuildPhaseComplete
| BuildPhaseError
| BuildPhaseFailed
| BuildPhaseOther (value : string).

(** [buildapi.Build] with the fields [describeBuildPhase] reads: the name
    and the timestamps, whether [Spec.Output.To] is set, the revision, a
    pointer, and the phase. *)
Record Build := {
  Meta : Builds.Build;
  OutputTo : bool;
  Revision : option SourceRevision;
  StatusPhase : Phase
}.

(** How [describeBuildPhase] names the build: by its number, when its
    name is the name of its parent, a dash and a number, and by its name
    otherwise. *)
Definition buildIdentification (name parentName : string) : string :=
  let buildIdentification := "build/" +:+ name in
  let prefix := parentName +:+ "-" in
  if HasPrefix name prefix then
    let suffix := slice_from (String.length prefix) name in
    match Atoi suffix with
    | Some buildNumber => "build #" +:+ Itoa buildNumber
    | None => buildIdentification
    end
  else buildIdentification.

Section Text.
(** [formatRelativeTime] reads the clock; [strings.ToLower]. *)
Variables (formatRelativeTime : Builds.Time -> string) (ToLower : string -> string).

(** [describeBuildPhase] *)
Definition describeBuildPhase (build : Build) (t : option Builds.Time)
    (parentName : string) (pushTargetResolved : bool) : string :=
  let imageStreamFailure :=
    if OutputTo build && negb pushTargetResolved then " (can't push to image)" else "" in
  let t :=
    match t with
    | None => Builds.buildTimestamp (Some (Meta build))
    | Some t => t
    end in
  let time :=
    if Builds.IsZero t then "<unknown>" else ToLower (formatRelativeTime t) in
  let buildIdentification := buildIdentification (Builds.Name (Meta build)) parentName in
  let revision := describeSourceRevision (Revision build) in
  let revision := if negb (len revision =? 0) then " - " +:+ revision else revision in
  match StatusPhase build with
  | BuildPhaseComplete =>
      buildIdentification +:+ " succeeded " +:+ time +:+ " ago" +:+ revision
      +:+ imageStreamFailure
  | BuildPhaseError =>
      buildIdentification +:+ " stopped with an error " +:+ time +:+ " ago" +:+ revision
      +:+ imageStreamFailure
  | BuildPhaseFailed =>
      buildIdentification +:+ " failed " +:+ time +:+ " ago" +:+ revision
      +:+ imageStreamFailure
  | BuildPhaseOther status =>
      buildIdentification +:+ " " +:+ ToLower status +:+ " for " +:+ time +:+ revision
      +:+ imageStreamFailure
  end.

End Text.
End BuildPhase.

(** ** Build and deployment pipelines *)
Module Pipeline.
Import GoStr Names.

(** [buildapi.GitBuildSource] and [buildapi.BuildSource], whose [Git] and
    [Dockerfile] are pointers. *)
Record GitBuildSource := {
  URI : string;
  Ref : string
}.

Record BuildSource := {
  Git : option GitBuildSource;
  Dockerfile : option string
}.

(** [buildapi.BuildStrategy]: three pointers, of which the code only asks
    whether they are nil; [true] is a pointer that is not nil. *)
Record BuildStrategy := {
  DockerStrategy : bool;
  SourceStrategy : bool;
  CustomStrategy : bool
}.

(** [buildapi.BuildConfig], with what is read of it *)
Record BuildConfig := {
  Name : string;
  Namespace : string;
  Strategy : BuildStrategy;
  Source : BuildSource
}.

(** [graphview.ImageTagLocation], an interface with the method
    [ImageSpec]. The code tells the image stream tag nodes, of which it
    reads the name and the namespace, from the other implementations. *)
Inductive ImageTagLocation :=
| ImageStreamTag (name namespace imageSpec : string)
| OtherLocation (imageSpec : string).

Definition ImageSpec (image : ImageTagLocation) : string :=
  match image with
  | ImageStreamTag _ _ imageSpec => imageSpec
  | OtherLocation imageSpec => imageSpec
  end.

(** [graphview.ImagePipeline]. [Image] and [BaseImage] are interfaces
    and [Build] is a pointer to a build config node, all possibly nil. *)
Record ImagePipeline := {
  Image : option ImageTagLocation;
  Build : option BuildConfig;
  LastSuccessfulBuild : option Builds.BuildNode;
  LastUnsuccessfulBuild : option Builds.BuildNode;
  ActiveBuilds : list Builds.BuildNode;
  BaseImage : option ImageTagLocation;
  DestinationResolved : bool
}.

(** [graphview.DeploymentConfigPipeline]. [Deployment] is the node of the
    deployment config, with its name and namespace. *)
Record DeploymentConfigPipeline := {
  DeploymentName : string;
  DeploymentNamespace : string;
  Deployment : Deploy.DeploymentConfig;
  ActiveDeployment : option Deploy.ReplicationController;
  InactiveDeployments : list Deploy.ReplicationController;
  Images : list ImagePipeline
}.

(** [describeSourceInPipeline] *)
Definition describeSourceInPipeline (source : BuildSource) : string * bool :=
  match Git source with
  | Some git =>
      if len (Ref git) =? 0 then (URI git, true)
      else (URI git +:+ "#" +:+ Ref git, true)
  | None =>
      match Dockerfile source with
      | Some _ => ("Dockerfile", true)
      | None => ("", false)
      end
  end.

(** [describeBuildInPipeline]; the formatter it is given is not used. *)
Definition describeBuildInPipeline (build : BuildConfig)
    (baseImage : option ImageTagLocation) : string :=
  if DockerStrategy (Strategy build) then
    let '(source, ok) := describeSourceInPipeline (Source build) in
    if negb ok
    then "bc/" +:+ Name build +:+ " unconfigured docker build - no source set"
    else "bc/" +:+ Name build +:+ " docker build of " +:+ source
  else if SourceStrategy (Strategy build) then
    let '(source, ok) := describeSourceInPipeline (Source build) in
    if negb ok then "bc/" +:+ Name build +:+ " unconfigured source build"
    else
      match baseImage with
      | None => "bc/" +:+ Name build +:+ " " +:+ source +:+ "; no image set"
      | Some baseImage =>
          "bc/" +:+ Name build +:+ " builds " +:+ source +:+ " with "
          +:+ ImageSpec baseImage
      end
  else if CustomStrategy (Strategy build) then
    let '(source, ok) := describeSourceInPipeline (Source build) in
    if negb ok then "bc/" +:+ Name build +:+ " custom build "
    else "bc/" +:+ Name build +:+ " custom build of " +:+ source
  else "bc/" +:+ Name build +:+ " unrecognized build".

(** [describeImageTagInPipeline] *)
Definition describeImageTagInPipeline (f : namespacedFormatter)
    (image : ImageTagLocation) (namespace : string) : string :=
  match image with
  | ImageStreamTag name tagNamespace _ =>
      if negb (String.eqb tagNamespace namespace) then ImageSpec image
      else ResourceName f (Node ImageStreamTagNode name tagNamespace)
  | OtherLocation _ => ImageSpec image
  end.

(** [describeImageInPipeline] *)
Definition describeImageInPipeline (f : namespacedFormatter)
    (pipeline : ImagePipeline) (namespace : string) : string :=
  match Image pipeline, Build pipeline with
  | Some image, Some build =>
      describeImageTagInPipeline f image namespace +:+ " <- "
      +:+ describeBuildInPipeline build (BaseImage pipeline)
  | Some image, None => describeImageTagInPipeline f image namespace
  | None, Some build => describeBuildInPipeline build (BaseImage pipeline)
  | None, None => "<unknown>"
  end.

(** [describeStandaloneBuildGroup] *)
Definition describeStandaloneBuildGroup (f : namespacedFormatter)
    (pipeline : ImagePipeline) (namespace : string) : list string :=
  match Build pipeline with
  | Some build =>
      let lines := [describeBuildInPipeline build (BaseImage pipeline)] in
      match Image pipeline with
      | Some image =>
          lines ++ ["pushes to " +:+ describeImageTagInPipeline f image namespace]
      | None => lines
      end
  | None =>
      match Image pipeline with
      | Some image => [describeImageTagInPipeline f image namespace]
      | None => ["<unknown>"]
      end
  end.

(** [strings.SplitN(s, sep, 2)] when [sep] occurs in [s]: what is before
    and what is after its first occurrence; [None] when it does not occur,
    which is when [strings.Contains(s, sep)] is false. *)
Fixpoint cut (sep s : string) {struct s} : option (string * string) :=
  if HasPrefix s sep then Some ("", slice_from (String.length sep) s)
  else
    match s with
    | EmptyString => None
    | String c r =>
        match cut sep r with
        | Some (before, after) => Some (String c before, after)
        | None => None
        end
    end.

Section Text.
(** [formatRelativeTime] reads the clock; [strings.ToLower];
    [describeBuildPhase], whose text is not looked into here. *)
Variables (formatRelativeTime : Builds.Time -> string) (ToLower : string -> string).
Variable describeBuildPhase :
  Builds.Build -> option Builds.Time -> string -> bool -> string.

(** The call of [describeAdditionalBuildDetail] on an image pipeline;
    [None] is a nil dereference. *)
Definition buildDetail (image : ImagePipeline) (includeLastPass : bool)
  : option (list string) :=
  Builds.describeAdditionalBuildDetail describeBuildPhase
    (match Build image with
     | Some build => Some {| Builds.BuildConfigName := Name build |}
     | None => None
     end)
    (LastSuccessfulBuild image) (LastUnsuccessfulBuild image) (ActiveBuilds image)
    (DestinationResolved image) includeLastPass.

(** The loop of [describeDeploymentInServiceGroup] over the images, when
    there is not exactly one. *)
Fixpoint imagesLoop (local : namespacedFormatter) (deploy : DeploymentConfigPipeline)
    (includeLastPass : bool) (images : list ImagePipeline) (lines : list string)
  : option (list string) :=
  match images with
  | [] => Some lines
  | image :: rest =>
      let lines :=
        lines ++ [describeImageInPipeline local image (DeploymentNamespace deploy)] in
      match buildDetail image includeLastPass with
      | None => None
      | Some detail =>
          let lines := lines ++ indentLines "  " detail in
          let lines :=
            lines ++ Deploy.describeDeployments formatRelativeTime ToLower
                       (Some (Deployment deploy)) (ActiveDeployment deploy)
                       (InactiveDeployments deploy) 3 in
          imagesLoop local deploy includeLastPass rest lines
      end
  end.

(** [describeDeploymentInServiceGroup]; [None] is a nil dereference. *)
Definition describeDeploymentInServiceGroup (f : namespacedFormatter)
    (deploy : DeploymentConfigPipeline) : option (list string) :=
  let local := {| hideNamespace := false;
                  currentNamespace := DeploymentNamespace deploy |} in
  let includeLastPass :=
    match ActiveDeployment deploy with None => true | Some _ => false end in
  let name :=
    ResourceName f (Node DeploymentConfigNode (DeploymentName deploy)
                      (DeploymentNamespace deploy)) in
  match Images deploy with
  | [image] =>
      let first :=
        name +:+ (if Deploy.Test (Deployment deploy) then " test deploys " else " deploys ")
        +:+ describeImageInPipeline local image (DeploymentNamespace deploy) +:+ " "
        +:+ Deploy.describeDeploymentConfigTrigger (Deployment deploy) in
      let lines :=
        if 120 <? len first then
          match cut " <- " first with
          | Some (before, after) => [before +:+ " <-"; after]
          | None => [first]
          end
        else [first] in
      match buildDetail image includeLastPass with
      | None => None
      | Some detail =>
          let lines := lines ++ indentLines "  " detail in
          Some (lines ++ Deploy.describeDeployments formatRelativeTime ToLower
                           (Some (Deployment deploy)) (ActiveDeployment deploy)
                           (InactiveDeployments deploy) 3)
      end
  | images =>
      let first :=
        name +:+ (if Deploy.Test (Deployment deploy) then " test deploys " else " deploys ")
        +:+ Deploy.describeDeploymentConfigTrigger (Deployment deploy) in
      imagesLoop local deploy includeLastPass images [first]
  end.

(** The lines of [describeDeploymentInServiceGroup] for one image of
    several: the image, its build detail, and the deployments. *)
Definition imageBlock (deploy : DeploymentConfigPipeline) (image : ImagePipeline)
    (detail : list string) : list string :=
  describeImageInPipeline
    {| hideNamespace := false; currentNamespace := DeploymentNamespace deploy |}
    image (DeploymentNamespace deploy)
  :: indentLines "  " detail
  ++ Deploy.describeDeployments formatRelativeTime ToLower
       (Some (Deployment deploy)) (ActiveDeployment deploy)
       (InactiveDeployments deploy) 3.

End Text.
End Pipeline.

(** ** The marker sections of [Describe] *)
Module MarkerText.
Import GoStr Names Markers.

(** The byte ["\n"] *)
Definition newline : ascii := ascii_of_nat 10.

(** [strings.Split(s, sep)] for a one-byte separator *)
Fixpoint Split (s : string) (sep : ascii) : list string :=
  match s with
  | EmptyString => [""]
  | String c r =>
      if Ascii.eqb c sep then "" :: Split r sep
      else
        match Split r sep with
        | first :: rest => String c first :: rest
        | [] => [String c ""]
        end
  end.

(** The [switch] on the suggestion of a marker: what it writes. *)
Definition printSuggestion (indent s : string) : string :=
  if containsByte s newline then
    fold_left (fun out line => out +:+ indent +:+ "  " +:+ line +:+ nl)
      (Split s newline) nl
  else if 0 <? len s then indent +:+ "  try: " +:+ s +:+ nl
  else "".

(** The section of the errors: what is written, and [errorSuggestions]. *)
Definition printErrors (Suggest : bool) (indent : string) (errorMarkers : list Marker)
  : string * Z :=
  if 0 <? Z.of_nat (length errorMarkers) then
    fold_left
      (fun '(out, errorSuggestions) marker =>
         let out := out +:+ indent +:+ "* " +:+ Message marker +:+ nl in
         if 0 <? len (Suggestion marker) then
           (if Suggest then out +:+ printSuggestion indent (Suggestion marker) else out,
            errorSuggestions + 1)
         else (out, errorSuggestions))
      errorMarkers ("Errors:" +:+ nl, 0)
  else ("", 0).

(** The section of the warnings *)
Definition printWarnings (Suggest : bool) (indent : string)
    (warningMarkers : list Marker) : string :=
  if 0 <? Z.of_nat (length warningMarkers) then
    fold_left
      (fun out marker =>
         if Suggest
         then out +:+ indent +:+ "* " +:+ Message marker +:+ nl
              +:+ printSuggestion indent (Suggestion marker)
         else out)
      warningMarkers (if Suggest then "Warnings:" +:+ nl else "")
  else "".

(** What [Describe] writes between the groups and the summary line: an
    empty line, the two sections, and an empty line if a section was
    written. The markers are the sorted ones. *)
Definition printMarkers (Suggest : bool) (allMarkers : list Marker) : string * Z :=
  let indent := "  " in
  let out := nl in
  let errorMarkers := BySeverity ErrorSeverity allMarkers in
  let '(errors, errorSuggestions) := printErrors Suggest indent errorMarkers in
  let out := out +:+ errors in
  let warningMarkers := BySeverity WarningSeverity allMarkers in
  let out := out +:+ printWarnings Suggest indent warningMarkers in
  let out :=
    if negb (Z.of_nat (length errorMarkers) =? 0)
       || (Suggest && negb (Z.of_nat (length warningMarkers) =? 0))
    then out +:+ nl else out in
  (out, errorSuggestions).

End MarkerText.

(** * Part II: properties *)

(** ** Facts about Go strings *)
Module GoStrFacts.
Import GoStr.

Lemma ascii_compare_refl (c : ascii) : Ascii.compare c c = Eq.
Proof. unfold Ascii.compare. apply N.compare_refl. Qed.

Lemma ascii_compare_lt_trans (a b c : ascii) :
  Ascii.compare a b = Lt -> Ascii.compare b c = Lt -> Ascii.compare a c = Lt.
Proof.
  unfold Ascii.compare. rewrite !N.compare_lt_iff. apply N.lt_trans.
Qed.

Lemma compare_refl (s : string) : String.compare s s = Eq.
Proof.
  induction s as [|c s IH]; simpl; [reflexivity|].
  now rewrite ascii_compare_refl.
Qed.

Lemma compare_lt_trans (a : string) :
  forall b c, String.compare a b = Lt -> String.compare b c = Lt ->
              String.compare a c = Lt.
Proof.
  induction a as [|x a IH]; intros [|y b] [|z c]; simpl; try congruence.
  destruct (Ascii.compare x y) eqn:Exy; try discriminate.
  - apply Ascii.compare_eq_iff in Exy; subst y.
    destruct (Ascii.compare x z); try congruence. apply IH.
  - intros _. destruct (Ascii.compare y z) eqn:Eyz; try discriminate.
    + apply Ascii.compare_eq_iff in Eyz; subst z. now rewrite Exy.
    + intros _. now rewrite (ascii_compare_lt_trans _ _ _ Exy Eyz).
Qed.

Lemma lt_irrefl (s : string) : lt s s = false.
Proof. unfold lt, String.ltb. now rewrite compare_refl. Qed.

Lemma lt_trans (a b c : string) :
  lt a b = true -> lt b c = true -> lt a c = true.
Proof.
  unfold lt, String.ltb. intros H1 H2.
  destruct (String.compare a b) eqn:E1; try discriminate.
  destruct (String.compare b c) eqn:E2; try discriminate.
  now rewrite (compare_lt_trans _ _ _ E1 E2).
Qed.

Lemma lt_asym (a b : string) : lt a b = true -> lt b a = false.
Proof.
  unfold lt, String.ltb. rewrite (String.compare_antisym a b).
  now destruct (String.compare b a).
Qed.

Lemma lt_total (a b : string) : lt a b = false -> lt b a = false -> a = b.
Proof.
  unfold lt, String.ltb. rewrite (String.compare_antisym a b).
  destruct (String.compare b a) eqn:E; simpl; try discriminate.
  intros _ _. symmetry. now apply String.compare_eq_iff.
Qed.

Lemma lt_cons (x : ascii) (a b : string) :
  lt (String x a) (String x b) = lt a b.
Proof. unfold lt, String.ltb. simpl. now rewrite ascii_compare_refl. Qed.

Lemma append_cons (x : ascii) (p s : string) :
  String x p +:+ s = String x (p +:+ s).
Proof. reflexivity. Qed.

Lemma append_nil (s : string) : "" +:+ s = s.
Proof. reflexivity. Qed.

Lemma lt_append (p a b : string) : lt (p +:+ a) (p +:+ b) = lt a b.
Proof.
  induction p as [|x p IH]; [reflexivity|].
  now rewrite !append_cons, lt_cons.
Qed.

Lemma IndexByte_ge (s : string) (c : ascii) : -1 <= IndexByte s c.
Proof.
  induction s as [|x s IH]; simpl; [lia|].
  destruct (Ascii.eqb x c); [lia|].
  destruct (IndexByte s c =? -1) eqn:E; lia.
Qed.

Lemma HasPrefix_split (p : string) :
  forall s, HasPrefix s p = true -> s = p +:+ slice_from (String.length p) s.
Proof.
  unfold HasPrefix.
  induction p as [|x p IH]; intros s.
  - intros _. now destruct s.
  - destruct s as [|y s]; simpl; [discriminate|].
    destruct (ascii_dec x y) as [->|]; [|discriminate].
    intros H. rewrite append_cons. f_equal. now apply IH.
Qed.

Lemma HasPrefix_append (p s : string) : HasPrefix (p +:+ s) p = true.
Proof.
  unfold HasPrefix. induction p as [|x p IH].
  - rewrite append_nil. now destruct s.
  - rewrite append_cons. simpl. destruct (ascii_dec x x); [assumption|congruence].
Qed.

End GoStrFacts.

(** ** Facts about the insertion sort *)
Module GoSortFacts.
Import GoSort.

Section Insertion.
Context {A : Type} (less : A -> A -> bool).

Lemma sink_Permutation (x : A) (acc : list A) :
  Permutation (x :: acc) (sink less x acc).
Proof.
  induction acc as [|y r IH]; cbn; [reflexivity|].
  destruct (less x y); [|reflexivity].
  rewrite perm_swap. now constructor.
Qed.

Lemma fold_sink_Permutation (l acc : list A) :
  Permutation (l ++ acc) (fold_left (fun acc x => sink less x acc) l acc).
Proof.
  revert acc. induction l as [|x l IH]; intros acc; cbn; [reflexivity|].
  rewrite <- IH, <- sink_Permutation. apply Permutation_middle.
Qed.

Lemma insertionSort_Permutation (l : list A) :
  Permutation l (insertionSort less l).
Proof.
  unfold insertionSort. rewrite <- Permutation_rev, <- fold_sink_Permutation.
  now rewrite app_nil_r.
Qed.

(** *** Stability: a class of elements none of which is less than another
    keeps its order. *)
Section Stable.
Variable P : A -> bool.
Hypothesis ties : forall x y, P x = true -> P y = true -> less x y = false.

Lemma sink_filter (x : A) (acc : list A) :
  List.filter P (sink less x acc)
  = if P x then x :: List.filter P acc else List.filter P acc.
Proof.
  induction acc as [|y r IH]; cbn [sink List.filter]; [reflexivity|].
  destruct (less x y) eqn:Hxy; cbn [List.filter]; [|reflexivity].
  rewrite IH. destruct (P x) eqn:Px; [|reflexivity].
  destruct (P y) eqn:Py; [|reflexivity].
  rewrite (ties x y Px Py) in Hxy. discriminate.
Qed.

Lemma fold_sink_filter (l acc : list A) :
  List.filter P (fold_left (fun acc x => sink less x acc) l acc)
  = rev (List.filter P l) ++ List.filter P acc.
Proof.
  revert acc. induction l as [|x l IH]; intros acc; cbn [fold_left List.filter];
    [reflexivity|].
  rewrite IH, sink_filter. destruct (P x); [|reflexivity].
  cbn [rev]. now rewrite <- app_assoc.
Qed.

Lemma insertionSort_stable (l : list A) :
  List.filter P (insertionSort less l) = List.filter P l.
Proof.
  unfold insertionSort. rewrite filter_rev, fold_sink_filter.
  cbn [List.filter]. now rewrite app_nil_r, rev_involutive.
Qed.

End Stable.

(** *** Order: on a strict weak order the result is in order. *)
Section Ordered.
Hypothesis asym : forall x y, less x y = true -> less y x = false.
Hypothesis negtrans :
  forall x y z, less x y = false -> less y z = false -> less x z = false.

Lemma sink_sorted (x : A) (acc : list A) :
  StronglySorted (fun a b => less a b = false) acc ->
  StronglySorted (fun a b => less a b = false) (sink less x acc).
Proof.
  induction acc as [|y r IH]; intros Hs; cbn [sink].
  - repeat constructor.
  - apply StronglySorted_inv in Hs as [Hr Hy].
    destruct (less x y) eqn:Hxy.
    + constructor; [now apply IH|].
      rewrite <- sink_Permutation. constructor; [now apply asym|assumption].
    + constructor; [now constructor|].
      constructor; [assumption|].
      eapply Forall_impl; [exact Hy|].
      intros z Hyz. cbn in Hyz. now apply (negtrans x y z).
Qed.

Lemma fold_sink_sorted (l acc : list A) :
  StronglySorted (fun a b => less a b = false) acc ->
  StronglySorted (fun a b => less a b = false)
    (fold_left (fun acc x => sink less x acc) l acc).
Proof.
  revert acc. induction l as [|x l IH]; intros acc Hs; cbn; [assumption|].
  now apply IH, sink_sorted.
Qed.

Lemma rev_sorted (l : list A) :
  StronglySorted (fun a b => less a b = false) l ->
  StronglySorted (fun a b => less b a = false) (rev l).
Proof.
  induction 1 as [|x l Hs IH Hx]; cbn [rev]; [constructor|].
  apply StronglySorted_app. split; [|split; [assumption|repeat constructor]].
  intros a b Ha Hb. apply list_elem_of_singleton in Hb. subst b.
  rewrite Forall_forall in Hx. apply Hx.
  apply list_elem_of_In, in_rev. now apply list_elem_of_In in Ha.
Qed.

Lemma insertionSort_inOrder (l : list A) : inOrder less (insertionSort less l).
Proof.
  unfold inOrder, insertionSort. apply rev_sorted, fold_sink_sorted. constructor.
Qed.

End Ordered.

End Insertion.

Lemma filter_sorted {A} (R : A -> A -> Prop) (P : A -> bool) (l : list A) :
  StronglySorted R l -> StronglySorted R (List.filter P l).
Proof.
  induction 1 as [|x l Hs IH Hx]; cbn [List.filter]; [constructor|].
  destruct (P x); [|assumption].
  constructor; [assumption|].
  rewrite Forall_forall in *. intros y Hy. apply Hx.
  apply list_elem_of_In in Hy. apply List.filter_In in Hy.
  apply list_elem_of_In. tauto.
Qed.

End GoSortFacts.

(** ** The exposed-route comparator *)
Module RoutesFacts.
Import GoStr GoStrFacts Routes.

Lemma segmentLen_cons (x : ascii) (s : string) :
  x <> " "%char -> segmentLen (String x s) = 1 + segmentLen s.
Proof.
  intros Hx. unfold segmentLen, len. simpl IndexByte.
  destruct (Ascii.eqb_spec x " "%char) as [|_]; [contradiction|].
  pose proof (IndexByte_ge s " "%char) as Hge.
  destruct (IndexByte s " "%char =? -1) eqn:E.
  - simpl. cbn [String.length]. lia.
  - apply Z.eqb_neq in E.
    destruct (IndexByte s " "%char + 1 =? -1) eqn:E'; [apply Z.eqb_eq in E'|]; lia.
Qed.

Lemma lessBySegment_segmentLen (a b : string) :
  lessBySegment a b =
    (if segmentLen a <? segmentLen b then true
     else if segmentLen b <? segmentLen a then false
     else lt a b).
Proof. reflexivity. Qed.

Lemma segmentLen_https (s : string) :
  segmentLen ("https://" +:+ s) = 8 + segmentLen s.
Proof.
  rewrite !append_cons, append_nil, !segmentLen_cons by discriminate. lia.
Qed.

Lemma segmentLen_http (s : string) :
  segmentLen ("http://" +:+ s) = 7 + segmentLen s.
Proof.
  rewrite !append_cons, append_nil, !segmentLen_cons by discriminate. lia.
Qed.

Lemma https_not_http (s : string) :
  HasPrefix s "https://" = true -> HasPrefix s "http://" = false.
Proof.
  intros H. rewrite (HasPrefix_split _ _ H). reflexivity.
Qed.

(** The code computes the keyed comparison. *)
Lemma exposedRoutes_Less_key (a b : string) :
  exposedRoutes_Less a b = routeKeyLess a b.
Proof.
  unfold exposedRoutes_Less, routeKeyLess, tripleLess, hostLen, schemeRank.
  destruct (HasPrefix a "https://") eqn:Ha, (HasPrefix b "https://") eqn:Hb;
    cbn [andb negb].
  - rewrite lessBySegment_segmentLen.
    apply HasPrefix_split in Ha, Hb. cbn [String.length] in Ha, Hb.
    set (a' := slice_from 8 a) in *. set (b' := slice_from 8 b) in *.
    clearbody a' b'. subst a b. rewrite !segmentLen_https, lt_append.
    change (0 =? 2) with false. change (0 <? 0) with false. cbv iota.
    repeat match goal with |- context [?x <? ?y] =>
      destruct (Z.ltb_spec x y) end; try reflexivity; lia.
  - now destruct (HasPrefix b "http://").
  - now destruct (HasPrefix a "http://").
  - destruct (HasPrefix a "http://") eqn:Ha', (HasPrefix b "http://") eqn:Hb';
      cbn [andb negb]; try reflexivity.
    rewrite lessBySegment_segmentLen.
    apply HasPrefix_split in Ha', Hb'. cbn [String.length] in Ha', Hb'.
    set (a' := slice_from 7 a) in *. set (b' := slice_from 7 b) in *.
    clearbody a' b'. subst a b. rewrite !segmentLen_http, lt_append.
    change (1 =? 2) with false. change (1 <? 1) with false. cbv iota.
    repeat match goal with |- context [?x <? ?y] =>
      destruct (Z.ltb_spec x y) end; try reflexivity; lia.
Qed.

(** [tripleLess] is a strict total order on triples. *)
Lemma tripleLess_irrefl (x : Z * Z * string) : tripleLess x x = false.
Proof.
  destruct x as [[r l] s]. unfold tripleLess.
  rewrite !Z.ltb_irrefl. apply lt_irrefl.
Qed.

Ltac split_ltb :=
  repeat match goal with
         | H : context [?x <? ?y] |- _ => destruct (Z.ltb_spec x y)
         | |- context [?x <? ?y] => destruct (Z.ltb_spec x y)
         end.

Lemma tripleLess_trans (x y z : Z * Z * string) :
  tripleLess x y = true -> tripleLess y z = true -> tripleLess x z = true.
Proof.
  destruct x as [[r1 l1] s1], y as [[r2 l2] s2], z as [[r3 l3] s3].
  unfold tripleLess. intros H1 H2.
  split_ltb; try reflexivity; try discriminate; try lia.
  eapply lt_trans; eassumption.
Qed.

Lemma tripleLess_total (x y : Z * Z * string) :
  tripleLess x y = false -> tripleLess y x = false -> x = y.
Proof.
  destruct x as [[r1 l1] s1], y as [[r2 l2] s2].
  unfold tripleLess. intros H1 H2.
  split_ltb; try discriminate; try lia.
  assert (r1 = r2) by lia. assert (l1 = l2) by lia.
  rewrite (lt_total _ _ H1 H2). congruence.
Qed.

Lemma tripleLess_asym (x y : Z * Z * string) :
  tripleLess x y = true -> tripleLess y x = false.
Proof.
  intros H. destruct (tripleLess y x) eqn:E; [|reflexivity].
  pose proof (tripleLess_trans _ _ _ H E) as Hxx.
  now rewrite tripleLess_irrefl in Hxx.
Qed.

End RoutesFacts.

(** The part of C6 that the code satisfies. [exposedRoutes.Less] is a
    strict total order on route strings: it is irreflexive and transitive, and of any two
    strings exactly one is less than the other unless they are equal. It is
    the lexicographic comparison of the triples (scheme priority, segment
    length, raw string), where the scheme priority puts [https://] before
    [http://] before everything else and the segment length is the length
    of the raw string up to its first space for the two URL schemes and is
    not taken into account for the other strings, which are ordered by the
    raw string alone. Sorting [http://a], [https://z], [https://a] yields
    [https://a], [https://z], [http://a]. *)
Theorem exposedRoutes_Less_strict_total_order :
  (forall a b, Routes.exposedRoutes_Less a b = Routes.routeKeyLess a b)
  /\ (forall a, Routes.exposedRoutes_Less a a = false)
  /\ (forall a b c,
        Routes.exposedRoutes_Less a b = true ->
        Routes.exposedRoutes_Less b c = true ->
        Routes.exposedRoutes_Less a c = true)
  /\ (forall a b,
        (Routes.exposedRoutes_Less a b = true /\ a <> b
         /\ Routes.exposedRoutes_Less b a = false)
        \/ (Routes.exposedRoutes_Less a b = false /\ a = b
            /\ Routes.exposedRoutes_Less b a = false)
        \/ (Routes.exposedRoutes_Less a b = false /\ a <> b
            /\ Routes.exposedRoutes_Less b a = true))
  /\ Routes.sortExposed ["http://a"; "https://z"; "https://a"]
     = ["https://a"; "https://z"; "http://a"].
Proof.
  split; [exact RoutesFacts.exposedRoutes_Less_key|].
  split; [intros a; rewrite RoutesFacts.exposedRoutes_Less_key;
          apply RoutesFacts.tripleLess_irrefl|].
  split.
  { intros a b c. rewrite !RoutesFacts.exposedRoutes_Less_key.
    apply RoutesFacts.tripleLess_trans. }
  split; [|reflexivity].
  intros a b. rewrite !RoutesFacts.exposedRoutes_Less_key.
  unfold Routes.routeKeyLess.
  destruct (Routes.tripleLess (Routes.schemeRank a, Routes.hostLen a, a)
                              (Routes.schemeRank b, Routes.hostLen b, b)) eqn:Hab.
  - left. pose proof (RoutesFacts.tripleLess_asym _ _ Hab) as Hba.
    repeat split; [|exact Hba].
    intros ->. now rewrite RoutesFacts.tripleLess_irrefl in Hab.
  - destruct (Routes.tripleLess (Routes.schemeRank b, Routes.hostLen b, b)
                                (Routes.schemeRank a, Routes.hostLen a, a)) eqn:Hba.
    + right; right. repeat split.
      intros ->. now rewrite RoutesFacts.tripleLess_irrefl in Hba.
    + right; left. repeat split.
      pose proof (RoutesFacts.tripleLess_total _ _ Hab Hba) as E.
      now inversion E.
Qed.

(** The transitivity of the order at three routes of a service group. *)
Lemma exposedRoutes_Less_witness :
  Routes.exposedRoutes_Less "https://a" "http://a (!)" = true.
Proof.
  apply (proj1 (proj2 (proj2 exposedRoutes_Less_strict_total_order))
           "https://a" "https://www.test.com to pod port 8080" "http://a (!)");
    reflexivity.
Defined.

(** C6. The comment above [exposedRoutes] orders all strings "by their
    leading prefix", "then by the shortest distance up to the first space",
    "then alphabetically", and so does the specification. [Less] does not
    on two strings with neither URL prefix, for which it returns [a < b]
    before the distances are computed: of the two lines of routes without a
    host, "route/z has no host set" has the shorter distance to its first
    space, so the three-level comparison puts it first, while [Less] says
    that it is not less than "route/api has no host set" and the sort puts
    it last. *)
Lemma exposedRoutes_Less_not_three_level :
  Routes.routeTupleLess "route/z has no host set" "route/api has no host set" = true
  /\ Routes.exposedRoutes_Less "route/z has no host set" "route/api has no host set" = false
  /\ Routes.sortExposed ["route/z has no host set"; "route/api has no host set"]
     = ["route/api has no host set"; "route/z has no host set"].
Proof. repeat split; reflexivity. Qed.


(** ** The loader fan-out of [MakeGraph] *)
Module MakeGraphFacts.
Import Errors Graph MakeGraph.

Section Facts.
Context `{Ops}.

(** *** The effect of each step on the three fields of the state *)

Lemma forEach_updGraph {A} (l : list A) (f : A -> T -> T) (s : State) :
  let r := St.forEach l (fun it => updGraph (f it)) s in
  items (snd r) = items s
  /\ g (snd r) = fold_left (fun gr it => f it gr) l (g s)
  /\ trace (snd r) = trace s.
Proof.
  revert s. induction l as [|x l IH]; intros s; [now cbn|].
  cbn. specialize (IH {| items := items s; g := f x (g s); trace := trace s |}).
  cbn in IH. exact IH.
Qed.

Lemma AddToGraph_effect (l : LoaderKind) (s : State) :
  let r := AddToGraph l s in
  items (snd r) = items s
  /\ g (snd r) = fold_left (fun gr it => EnsureNodes l it gr) (items s l) (g s)
  /\ trace (snd r) = trace s ++ [EvAddToGraph l].
Proof.
  unfold AddToGraph, St.bind, St.get. cbn.
  pose proof (forEach_updGraph (items s l) (EnsureNodes l) s) as (Hi & Hg & Ht).
  cbn in Hi, Hg, Ht.
  destruct (St.forEach (items s l) (fun it => updGraph (EnsureNodes l it)) s)
    as [[] s'] eqn:E.
  cbn in *. now rewrite Hi, Hg, Ht.
Qed.

Lemma forEach_AddToGraph (ls : list LoaderKind) (s : State) :
  let r := St.forEach ls AddToGraph s in
  items (snd r) = items s
  /\ g (snd r) =
       fold_left (fun gr l => fold_left (fun gr it => EnsureNodes l it gr) (items s l) gr)
         ls (g s)
  /\ trace (snd r) = trace s ++ map EvAddToGraph ls.
Proof.
  revert s. induction ls as [|l ls IH]; intros s.
  - cbn. now rewrite app_nil_r.
  - cbn [St.forEach]. unfold St.bind.
    pose proof (AddToGraph_effect l s) as (Hi & Hg & Ht). cbv zeta in Hi, Hg, Ht.
    destruct (AddToGraph l s) as [[] s1] eqn:E1. cbn [snd] in Hi, Hg, Ht.
    specialize (IH s1). cbv zeta in IH. destruct IH as (Hi' & Hg' & Ht').
    cbv zeta. rewrite Hi', Hg', Ht', Hi, Hg, Ht. cbn [fold_left map]. repeat split.
    now rewrite <- app_assoc.
Qed.

Lemma forEach_edges (ps : list EdgePass) (s : State) :
  let r := St.forEach ps (fun p => St.bind (updGraph (AddEdges p))
                                     (fun _ => emit (EvAddEdges p))) s in
  items (snd r) = items s
  /\ g (snd r) = fold_left (fun gr p => AddEdges p gr) ps (g s)
  /\ trace (snd r) = trace s ++ map EvAddEdges ps.
Proof.
  revert s. induction ps as [|p ps IH]; intros s.
  - cbn. now rewrite app_nil_r.
  - cbn.
    specialize (IH {| items := items s; g := AddEdges p (g s);
                      trace := trace s ++ [EvAddEdges p] |}).
    cbn in IH. destruct IH as (Hi & Hg & Ht).
    rewrite Hi, Hg, Ht. repeat split. now rewrite <- app_assoc.
Qed.

Lemma commit_effect (F : gset string) (s : State) :
  let r := commit F s in
  fst r = (F, None)
  /\ g (snd r) = commitGraph (items s) (g s)
  /\ trace (snd r) = trace s ++ map EvAddToGraph loaders ++ map EvAddEdges edgePasses.
Proof.
  unfold commit, St.bind.
  pose proof (forEach_AddToGraph loaders s) as (Hi & Hg & Ht). cbn zeta in Hi, Hg, Ht.
  destruct (St.forEach loaders AddToGraph s) as [[] s1] eqn:E1.
  cbn [snd] in Hi, Hg, Ht.
  pose proof (forEach_edges edgePasses s1) as (Hi' & Hg' & Ht'). cbn zeta in Hi', Hg', Ht'.
  unfold St.bind in Hi', Hg', Ht'.
  destruct (St.forEach edgePasses _ s1) as [[] s2] eqn:E2.
  cbn [snd fst St.ret] in *.
  unfold commitGraph. rewrite Hg', Ht', Hg, Ht. repeat split.
  now rewrite <- app_assoc.
Qed.

Lemma Load_effect (lister : LoaderKind -> ListResult) (l : LoaderKind) (s : State) :
  let r := Load lister l s in
  fst r = loadFailure lister l
  /\ g (snd r) = g s
  /\ trace (snd r) = trace s
  /\ forall l', items (snd r) l' =
        match lister l with
        | Listed its => if decide (l' = l) then its else items s l'
        | ListFailed _ => items s l'
        end.
Proof.
  unfold Load, loadFailure, TolerateNotFoundError.
  destruct (lister l) as [its|err]; cbn.
  - repeat split.
  - destruct (toleratesNotFound l); cbn; [destruct (IsNotFound err)|]; repeat split.
Qed.

Lemma parallel_Run_effect (lister : LoaderKind -> ListResult) (sched : list nat)
    (s : State) :
  let r := parallel_Run (map (fun l => (l, Load lister l)) loaders) sched s in
  fst r = loadErrors lister sched
  /\ g (snd r) = g s
  /\ trace (snd r) = trace s ++ loadTrace sched
  /\ forall l, items (snd r) l =
        match lister l with
        | Listed its => if scheduled sched l then its else items s l
        | ListFailed _ => items s l
        end.
Proof.
  revert s. induction sched as [|i sched IH]; intros s.
  - cbn. rewrite app_nil_r. repeat split. intros l. now destruct (lister l).
  - cbn [parallel_Run].
    change (map (fun l => (l, Load lister l)) loaders)
      with ((fun l => (l, Load lister l)) <$> loaders) in *.
    rewrite list_lookup_fmap.
    unfold loadErrors, loadTrace in *. cbn [omap list_omap scheduled existsb].
    destruct (loaders !! i) as [l0|] eqn:Hi; cbn [fmap option_fmap option_map mbind option_bind].
    + unfold St.bind.
      pose proof (Load_effect lister l0 s) as (Hr & Hg & Ht & Hit). cbv zeta in Hr, Hg, Ht, Hit.
      destruct (Load lister l0 s) as [err s1] eqn:E1. cbn [fst snd] in Hr, Hg, Ht, Hit.
      cbn [emit St.modify].
      set (s2 := {| items := items s1; g := g s1; trace := trace s1 ++ [EvLoadReturned l0] |}).
      specialize (IH s2). cbv zeta in IH. destruct IH as (Hr' & Hg' & Ht' & Hit').
      destruct (parallel_Run _ sched s2) as [errs s3] eqn:E3.
      cbn [fst snd St.ret] in *. subst err errs.
      split; [|split; [|split]].
      * now destruct (loadFailure lister l0).
      * now rewrite Hg'.
      * rewrite Ht'. subst s2. cbn [trace]. rewrite Ht, <- app_assoc. reflexivity.
      * intros l. rewrite Hit'. subst s2. cbn [items]. rewrite Hit.
        destruct (lister l) as [its|err] eqn:El.
        -- fold (scheduled sched l). destruct (scheduled sched l); cbn; [now rewrite orb_true_r|].
           rewrite orb_false_r.
           destruct (lister l0) as [its0|err0] eqn:El0.
           ++ destruct (decide (l = l0)) as [->|Hne].
              ** rewrite bool_decide_eq_true_2 by reflexivity. congruence.
              ** rewrite bool_decide_eq_false_2 by congruence. reflexivity.
           ++ destruct (bool_decide (Some l0 = Some l)) eqn:Eb; [|reflexivity].
              apply bool_decide_eq_true in Eb. congruence.
        -- destruct (lister l0) as [its0|err0] eqn:El0; [|reflexivity].
           destruct (decide (l = l0)) as [->|]; [congruence|reflexivity].
    + specialize (IH s). cbv zeta in IH. exact IH.
Qed.

(** *** The classification loop *)

Lemma classify_actual (errs : list GoError) (F : gset string) (A : list GoError) :
  snd (classify errs F A) = A ++ List.filter (fun e => negb (IsForbidden e)) errs.
Proof.
  revert F A. induction errs as [|e errs IH]; intros F A; cbn [classify List.filter].
  - now rewrite app_nil_r.
  - destruct (IsForbidden e) eqn:Ef; cbn [negb].
    + destruct e as [st| |]; try apply IH.
      destruct (Details st) as [d|]; [|apply IH].
      destruct (0 <? GoStr.len (Kind d)); apply IH.
    + rewrite IH, <- app_assoc. reflexivity.
Qed.

Lemma forbiddenWithoutKind_IsForbidden (e : GoError) :
  forbiddenWithoutKind e = true -> IsForbidden e = true.
Proof.
  destruct e as [st| |]; cbn; try discriminate.
  now destruct (Reason st).
Qed.

Lemma classify_skip (pre post : list GoError) (e : GoError)
    (F : gset string) (A : list GoError) :
  forbiddenWithoutKind e = true ->
  classify (pre ++ e :: post) F A = classify (pre ++ post) F A.
Proof.
  intros He. revert F A. induction pre as [|x pre IH]; intros F A.
  - cbn [app classify]. rewrite (forbiddenWithoutKind_IsForbidden _ He).
    destruct e as [st| |]; try reflexivity.
    cbn in He. destruct (Reason st); try discriminate.
    destruct (Details st) as [d|]; [|reflexivity].
    apply Z.eqb_eq in He. rewrite He. reflexivity.
  - cbn [app classify].
    destruct (IsForbidden x); [|apply IH].
    destruct x as [st| |]; try apply IH.
    destruct (Details st) as [d|]; [|apply IH].
    destruct (0 <? GoStr.len (Kind d)); apply IH.
Qed.

(** *** The run in closed form *)

Lemma commitGraph_ext (st1 st2 : LoaderKind -> list Item) (gr : T) :
  (forall l, st1 l = st2 l) -> commitGraph st1 gr = commitGraph st2 gr.
Proof.
  intros E. unfold commitGraph, loaders. cbn [fold_left]. now rewrite !E.
Qed.

Lemma run_closed (lister : LoaderKind -> ListResult) (sched : list nat) :
  run lister sched =
    let '(F, A) := classify (loadErrors lister sched) ∅ [] in
    match A with
    | [] => (commitGraph (stagedItems lister sched) New, F, None,
             loadTrace sched ++ map EvAddToGraph loaders ++ map EvAddEdges edgePasses)
    | _ :: _ => (New, F, NewAggregate A, loadTrace sched)
    end.
Proof.
  unfold run, MakeGraph, St.bind.
  pose proof (parallel_Run_effect lister sched initial) as (Hr & Hg & Ht & Hit).
  cbv zeta in Hr, Hg, Ht, Hit.
  destruct (parallel_Run _ sched initial) as [errs s1] eqn:E1.
  cbn [fst snd] in Hr, Hg, Ht, Hit. subst errs.
  assert (Hst : forall l, items s1 l = stagedItems lister sched l).
  { intros l. rewrite Hit. unfold stagedItems. cbn.
    destruct (lister l); [now destruct (scheduled sched l)|reflexivity]. }
  assert (Hcommit : forall F, let r := commit F s1 in
            (g (snd r), fst (fst r), snd (fst r), trace (snd r)) =
            (commitGraph (stagedItems lister sched) New, F, None,
             loadTrace sched ++ map EvAddToGraph loaders ++ map EvAddEdges edgePasses)).
  { intros F. pose proof (commit_effect F s1) as (Hc & Hcg & Hct).
    cbv zeta in *. rewrite Hc, Hcg, Hct, Hg, Ht. cbn [fst snd initial g trace app].
    now rewrite (commitGraph_ext _ _ New Hst). }
  cbv zeta in Hcommit.
  destruct (loadErrors lister sched) as [|e errs] eqn:Ee.
  - cbn [length classify]. change (0 <? Z.of_nat 0) with false. cbv iota.
    specialize (Hcommit ∅). destruct (commit ∅ s1) as [[F' err'] s2].
    exact Hcommit.
  - change (0 <? Z.of_nat (length (e :: errs))) with true. cbv iota.
    destruct (classify (e :: errs) ∅ []) as [F A] eqn:Ec.
    destruct A as [|a A].
    + cbn [length]. change (0 <? Z.of_nat 0) with false. cbv iota.
      specialize (Hcommit F). destruct (commit F s1) as [[F' err'] s2].
      exact Hcommit.
    + change (0 <? Z.of_nat (length (a :: A))) with true. cbv iota.
      cbn [St.ret]. now rewrite Hg, Ht.
Qed.

Lemma filter_Permutation_bool {A} (f : A -> bool) (l1 l2 : list A) :
  Permutation l1 l2 -> Permutation (List.filter f l1) (List.filter f l2).
Proof.
  induction 1 as [|x l1 l2 _ IH|x y l|l1 l2 l3 _ IH1 _ IH2]; cbn.
  - constructor.
  - destruct (f x); [now constructor|assumption].
  - destruct (f x), (f y); try reflexivity. apply perm_swap.
  - now transitivity (List.filter f l2).
Qed.

Lemma genuineFailures_Permutation (lister : LoaderKind -> ListResult)
    (o1 o2 : list nat) :
  Permutation o1 o2 ->
  Permutation (genuineFailures lister o1) (genuineFailures lister o2).
Proof.
  intros Hp. unfold genuineFailures, loadErrors.
  apply filter_Permutation_bool. now rewrite Hp.
Qed.

(** *** When every task has returned *)

Lemma scheduled_all (sched : list nat) (l : LoaderKind) :
  Permutation sched (seq 0 (length loaders)) -> scheduled sched l = true.
Proof.
  intros Hp. unfold scheduled. apply existsb_exists.
  assert (Hin : forall i, In i (seq 0 (length loaders)) -> In i sched).
  { intros i. apply Permutation_in. now symmetry. }
  destruct l;
    [exists 0%nat|exists 1%nat|exists 2%nat|exists 3%nat|exists 4%nat
    |exists 5%nat|exists 6%nat|exists 7%nat|exists 8%nat|exists 9%nat];
    (split; [apply Hin; cbn; tauto|reflexivity]).
Qed.

Lemma stagedItems_all (lister : LoaderKind -> ListResult) (sched : list nat) :
  Permutation sched (seq 0 (length loaders)) ->
  commitGraph (stagedItems lister sched) New = committed lister.
Proof.
  intros Hp. apply commitGraph_ext. intros l. unfold stagedItems.
  now rewrite (scheduled_all sched l Hp).
Qed.

Lemma loadTrace_only_loads (sched : list nat) (e : Event) :
  e ∈ loadTrace sched -> exists l, e = EvLoadReturned l.
Proof.
  unfold loadTrace. rewrite list_elem_of_omap. intros (i & _ & Hi).
  destruct (loaders !! i) as [l|]; [|discriminate].
  exists l. now inversion Hi.
Qed.


Lemma all_loaders (l : LoaderKind) : l ∈ loaders.
Proof. unfold loaders. destruct l; set_solver. Qed.



(** Split an equation between two results of [run] into its four parts. *)
Ltac split_run H :=
  let Hg := fresh "Hg" in let HF := fresh "HF" in
  let He := fresh "He" in let Ht := fresh "Ht" in
  apply pair_equal_spec in H as [H Ht];
  apply pair_equal_spec in H as [H He];
  apply pair_equal_spec in H as [Hg HF];
  subst.

(** C1. Whatever the cluster answers and in whatever order the ten load
    tasks return, the genuine failures of the run are the load errors that
    are not Forbidden, once the two build-related loaders have turned
    NotFound into an empty result. If there is one, [MakeGraph] returns
    the aggregate of exactly these errors together with the new, empty
    graph: no loader's [AddToGraph] and no edge inference has run. If there
    is none, it returns no error and the graph with every listed item
    committed. *)
Theorem MakeGraph_aborts_on_genuine_failures
    (lister : LoaderKind -> ListResult) (sched : list nat) :
  Permutation sched (seq 0 (length loaders)) ->
  forall gr F err tr, run lister sched = (gr, F, err, tr) ->
  let genuine := genuineFailures lister sched in
  Permutation genuine (genuineFailures lister (seq 0 (length loaders)))
  /\ (genuine <> [] ->
        err = Some (Aggregate genuine) /\ gr = New
        /\ forall e, e ∈ tr -> exists l, e = EvLoadReturned l)
  /\ (genuine = [] ->
        err = None /\ gr = committed lister
        /\ forall l, EvAddToGraph l ∈ tr).
Proof.
  intros Hp gr F err tr Hrun genuine.
  split; [now apply genuineFailures_Permutation|].
  rewrite run_closed in Hrun.
  pose proof (classify_actual (loadErrors lister sched) ∅ []) as Hact.
  destruct (classify (loadErrors lister sched) ∅ []) as [F' A] eqn:Ec.
  cbn [snd app] in Hact. fold (genuineFailures lister sched) in Hact.
  fold genuine in Hact. subst A.
  destruct genuine as [|a rest] eqn:Eg.
  - split_run Hrun. split; [congruence|]. intros _.
    split; [reflexivity|]. split; [now apply stagedItems_all|].
    intros l. apply elem_of_app; right. apply elem_of_app; left.
    apply list_elem_of_fmap_2. apply all_loaders.
  - split_run Hrun. split; [|congruence]. intros _.
    split; [reflexivity|]. split; [reflexivity|].
    apply loadTrace_only_loads.
Qed.


(** *** Forbidden errors that name no kind *)

Lemma loadFailure_listsNothing_same (lister : LoaderKind -> ListResult)
    (l : LoaderKind) :
  loadFailure (listsNothing lister l) l = None.
Proof.
  unfold loadFailure, listsNothing. now destruct (decide (l = l)).
Qed.

Lemma loadFailure_listsNothing_other (lister : LoaderKind -> ListResult)
    (l l0 : LoaderKind) :
  l0 <> l -> loadFailure (listsNothing lister l) l0 = loadFailure lister l0.
Proof.
  intros Hne. unfold loadFailure, listsNothing.
  now destruct (decide (l0 = l)).
Qed.

Lemma loadFailure_forbidden (lister : LoaderKind -> ListResult)
    (l : LoaderKind) (err : GoError) :
  lister l = ListFailed err -> forbiddenWithoutKind err = true ->
  loadFailure lister l = Some err.
Proof.
  intros Hl He. unfold loadFailure. rewrite Hl.
  assert (Hnf : IsNotFound err = false).
  { destruct err as [st| |]; try reflexivity. cbn in He |- *.
    now destruct (Reason st). }
  now rewrite Hnf, andb_false_r.
Qed.

Lemma classify_cons_congr (e : GoError) (errs1 errs2 : list GoError) :
  (forall F A, classify errs1 F A = classify errs2 F A) ->
  forall F A, classify (e :: errs1) F A = classify (e :: errs2) F A.
Proof.
  intros IH F A. cbn [classify]. destruct (IsForbidden e); [|apply IH].
  destruct e as [st| |]; try apply IH.
  destruct (Details st) as [d|]; [|apply IH].
  destruct (0 <? GoStr.len (Kind d)); apply IH.
Qed.

Lemma classify_loadErrors_listsNothing (lister : LoaderKind -> ListResult)
    (l : LoaderKind) (err : GoError) (sched : list nat) :
  lister l = ListFailed err -> forbiddenWithoutKind err = true ->
  forall F A,
    classify (loadErrors lister sched) F A
    = classify (loadErrors (listsNothing lister l) sched) F A.
Proof.
  intros Hl He. unfold loadErrors.
  induction sched as [|i sched IH]; intros F A; [reflexivity|].
  cbn [omap list_omap].
  destruct (loaders !! i) as [l0|] eqn:Hi; cbn [mbind option_bind]; [|apply IH].
  destruct (decide (l0 = l)) as [->|Hne].
  - rewrite loadFailure_listsNothing_same, (loadFailure_forbidden _ _ _ Hl He).
    etransitivity; [apply (classify_skip [] _ err F A He)|]. apply IH.
  - rewrite (loadFailure_listsNothing_other _ _ _ Hne).
    destruct (loadFailure lister l0) as [e0|]; [|apply IH].
    now apply classify_cons_congr.
Qed.

Lemma stagedItems_listsNothing (lister : LoaderKind -> ListResult)
    (l : LoaderKind) (err : GoError) (sched : list nat) (l' : LoaderKind) :
  lister l = ListFailed err ->
  stagedItems lister sched l' = stagedItems (listsNothing lister l) sched l'.
Proof.
  intros Hl. unfold stagedItems, listsNothing.
  destruct (decide (l' = l)) as [->|]; [|reflexivity].
  rewrite Hl. now destruct (scheduled sched l).
Qed.

Lemma loadErrors_all_listed (lister : LoaderKind -> ListResult) (sched : list nat) :
  (forall l, exists its, lister l = Listed its) -> loadErrors lister sched = [].
Proof.
  intros Hall. unfold loadErrors.
  induction sched as [|i sched IH]; [reflexivity|].
  cbn [omap list_omap]. destruct (loaders !! i) as [l0|]; cbn [mbind option_bind].
  - unfold loadFailure. destruct (Hall l0) as [its ->]. exact IH.
  - exact IH.
Qed.

(** C9. A loader failure that is Forbidden and carries no details, or
    details with an empty kind, leaves no mark on the run: [MakeGraph]
    returns the same graph, the same forbidden kinds and the same error,
    after the same calls, as if that loader had listed no items. When no
    other loader fails, the run returns no error and an empty set of
    forbidden kinds, from which no advisory marker is made. *)
Theorem forbidden_without_kind_is_dropped
    (lister : LoaderKind -> ListResult) (sched : list nat)
    (l : LoaderKind) (err : GoError) :
  lister l = ListFailed err ->
  forbiddenWithoutKind err = true ->
  run lister sched = run (listsNothing lister l) sched
  /\ ((forall l', l' <> l -> exists its, lister l' = Listed its) ->
      forall gr F e tr, run lister sched = (gr, F, e, tr) ->
        e = None /\ F = ∅ /\ Markers.createForbiddenMarkers F = []).
Proof.
  intros Hl He.
  assert (Hsame : run lister sched = run (listsNothing lister l) sched).
  { rewrite !run_closed.
    rewrite (classify_loadErrors_listsNothing lister l err sched Hl He).
    destruct (classify (loadErrors (listsNothing lister l) sched) ∅ []) as [F A].
    destruct A; [|reflexivity].
    rewrite (commitGraph_ext (stagedItems lister sched)
               (stagedItems (listsNothing lister l) sched) New); [reflexivity|].
    intros l'. now apply (stagedItems_listsNothing lister l err). }
  split; [exact Hsame|].
  intros Hothers gr F e tr Hrun.
  rewrite Hsame, run_closed in Hrun.
  rewrite loadErrors_all_listed in Hrun.
  - cbn [classify] in Hrun. split_run Hrun. repeat split.
  - intros l'. unfold listsNothing.
    destruct (decide (l' = l)); [now exists []|now apply Hothers].
Qed.

End Facts.

(** The three properties at work on the sample cluster, with the tasks
    returning in the reverse of the order they were started in. *)
Lemma result_eta {A B C D} (r : A * B * C * D) : r = (r.1.1.1, r.1.1.2, r.1.2, r.2).
Proof. now destruct r as [[[a b] c] d]. Qed.

Lemma MakeGraph_aborts_on_genuine_failures_witness :
  (run (H := logGraphOps) (sampleCluster true) (rev (seq 0 10))).1.2
    = Some (Aggregate [serverError])
  /\ (run (H := logGraphOps) (sampleCluster true) (rev (seq 0 10))).1.1.1 = [].
Proof.
  destruct (MakeGraph_aborts_on_genuine_failures (H := logGraphOps)
              (sampleCluster true) (rev (seq 0 10))
              (Permutation_sym (Permutation_rev (seq 0 10))) _ _ _ _
              (result_eta _))
    as (_ & Habort & _).
  destruct Habort as (He & Hg & _); [discriminate|].
  split; [exact He|exact Hg].
Defined.


Lemma forbidden_without_kind_is_dropped_witness :
  run (H := logGraphOps) (sampleCluster false) (seq 0 10)
  = run (H := logGraphOps)
      (listsNothing (sampleCluster false) serviceAccountLoader) (seq 0 10).
Proof.
  exact (proj1 (forbidden_without_kind_is_dropped (H := logGraphOps)
                  (sampleCluster false) (seq 0 10) serviceAccountLoader
                  (forbidden None) eq_refl eq_refl)).
Defined.

End MakeGraphFacts.
(** ** The order of the markers *)
Module MarkersFacts.
Import GoStr GoStrFacts GoSort GoSortFacts Markers.

Lemma lt_negtrans (a b c : string) :
  lt a b = false -> lt b c = false -> lt a c = false.
Proof.
  intros Hab Hbc. destruct (lt a c) eqn:Hac; [|reflexivity].
  destruct (lt b a) eqn:Hba.
  - now rewrite (lt_trans _ _ _ Hba Hac) in Hbc.
  - rewrite (lt_total _ _ Hab Hba) in Hac. congruence.
Qed.

Lemma ByKey_Less_asym (x y : Marker) :
  ByKey_Less x y = true -> ByKey_Less y x = false.
Proof. apply lt_asym. Qed.

Lemma ByKey_Less_negtrans (x y z : Marker) :
  ByKey_Less x y = false -> ByKey_Less y z = false -> ByKey_Less x z = false.
Proof. apply lt_negtrans. Qed.

Lemma ByNodeID_Less_asym (x y : Marker) :
  ByNodeID_Less x y = true -> ByNodeID_Less y x = false.
Proof.
  unfold ByNodeID_Less. destruct (Node x), (Node y); try easy.
  rewrite Z.ltb_lt, Z.ltb_ge. lia.
Qed.

Lemma ByNodeID_Less_negtrans (x y z : Marker) :
  ByNodeID_Less x y = false -> ByNodeID_Less y z = false ->
  ByNodeID_Less x z = false.
Proof.
  unfold ByNodeID_Less. destruct (Node x), (Node y), (Node z); try easy.
  rewrite !Z.ltb_ge. lia.
Qed.

Lemma ByKey_Less_ties (k : string) (x y : Marker) :
  Key x = k -> Key y = k -> ByKey_Less x y = false.
Proof. unfold ByKey_Less. intros -> ->. apply lt_irrefl. Qed.

Lemma ByNodeID_Less_ties (n : option Z) (x y : Marker) :
  Node x = n -> Node y = n -> ByNodeID_Less x y = false.
Proof.
  unfold ByNodeID_Less. intros -> ->. destruct n; [apply Z.ltb_irrefl|reflexivity].
Qed.

End MarkersFacts.

(** C4. [Describe] orders the filtered markers by a stable sort on the
    marker key followed by a stable sort on the related node. The result
    holds the same markers; it is in order of the related node; the
    markers about one node are in order of their key; and the markers that
    share both the key and the related node are exactly in the order in
    which they were emitted. *)
Theorem sortMarkers_stable_two_keyed (allMarkers : list Markers.Marker) :
  Permutation allMarkers (Markers.sortMarkers allMarkers)
  /\ GoSort.inOrder Markers.ByNodeID_Less (Markers.sortMarkers allMarkers)
  /\ (forall n,
        GoSort.inOrder Markers.ByKey_Less
          (List.filter (Markers.aboutNode n) (Markers.sortMarkers allMarkers)))
  /\ (forall k n,
        List.filter (Markers.sameKeyAndNode k n) (Markers.sortMarkers allMarkers)
        = List.filter (Markers.sameKeyAndNode k n) allMarkers).
Proof.
  unfold Markers.sortMarkers. split; [|split; [|split]].
  - rewrite <- !GoSortFacts.insertionSort_Permutation. reflexivity.
  - apply GoSortFacts.insertionSort_inOrder.
    + apply MarkersFacts.ByNodeID_Less_asym.
    + apply MarkersFacts.ByNodeID_Less_negtrans.
  - intros n. rewrite GoSortFacts.insertionSort_stable.
    + apply GoSortFacts.filter_sorted, GoSortFacts.insertionSort_inOrder.
      * apply MarkersFacts.ByKey_Less_asym.
      * apply MarkersFacts.ByKey_Less_negtrans.
    + intros x y Hx Hy. unfold Markers.aboutNode in *.
      apply bool_decide_eq_true in Hx, Hy.
      now apply (MarkersFacts.ByNodeID_Less_ties n).
  - intros k n. rewrite !GoSortFacts.insertionSort_stable; [reflexivity| |].
    + intros x y Hx Hy. unfold Markers.sameKeyAndNode in *.
      apply andb_true_iff in Hx as [Hx _], Hy as [Hy _].
      apply bool_decide_eq_true in Hx, Hy.
      now apply (MarkersFacts.ByKey_Less_ties k).
    + intros x y Hx Hy. unfold Markers.sameKeyAndNode in *.
      apply andb_true_iff in Hx as [_ Hx], Hy as [_ Hy].
      apply bool_decide_eq_true in Hx, Hy.
      now apply (MarkersFacts.ByNodeID_Less_ties n).
Qed.

(** Two analyzers report on node 7 with the same key, a third marker about
    node 3 comes last: the sort moves the third first and keeps the two in
    their order. *)
Example sortMarkers_sample :
  let mk n k msg := {| Markers.Node := n; Markers.Severity_ := Markers.ErrorSeverity;
                       Markers.Key := k; Markers.Message := msg;
                       Markers.Suggestion := "" |} in
  Markers.sortMarkers
    [mk (Some 7) "K" "A"; mk None "Z" "f"; mk (Some 7) "K" "B"; mk (Some 3) "M" "c";
     mk (Some 7) "A" "d"]
  = [mk None "Z" "f"; mk (Some 3) "M" "c"; mk (Some 7) "A" "d"; mk (Some 7) "K" "A";
     mk (Some 7) "K" "B"].
Proof. reflexivity. Qed.

(** ** The summary line *)
Module SummaryFacts.
Import GoStr Markers Summary.

Lemma countSuggestions_from (errorMarkers : list Marker) (n : Z) :
  n <= fold_left
         (fun errorSuggestions marker =>
            if 0 <? len (Suggestion marker) then errorSuggestions + 1
            else errorSuggestions)
         errorMarkers n.
Proof.
  revert n. induction errorMarkers as [|m l IH]; intros n; cbn [fold_left]; [lia|].
  destruct (0 <? len (Suggestion m)); [|apply IH].
  specialize (IH (n + 1)). lia.
Qed.

Lemma countSuggestions_nonneg (errorMarkers : list Marker) :
  0 <= countSuggestions errorMarkers.
Proof. apply countSuggestions_from. Qed.

End SummaryFacts.

(** C5, as the code has it. The summary is chosen by the first branch
    that applies: with suggest mode off, errors and warnings both present
    give the combined summary; errors present, no warnings and at least one
    error marker with a suggestion give the error-only summary; warnings
    present and no errors give the warning-only summary. In every other
    case the summary is the "no resources" guidance when there are no
    services, no deployment-config pipelines and no image pipelines, and
    the "see details" guidance otherwise. In particular 2 error markers of
    which at least one has a suggestion, 0 warning markers and suggest mode
    off give the line "2 errors identified, use 'oc status -v' to see
    details.". *)
Theorem summary_branch_priority
    (Suggest : bool) (errorMarkers warningMarkers : list Markers.Marker)
    (nServices nDCs nImages : Z) :
  let nErrors := Z.of_nat (length errorMarkers) in
  let nWarnings := Z.of_nat (length warningMarkers) in
  let nSuggestions := Summary.countSuggestions errorMarkers in
  let line :=
    Summary.summary Suggest errorMarkers warningMarkers nServices nDCs nImages in
  (Suggest = false -> 0 < nErrors -> 0 < nWarnings ->
     line = Summary.combinedSummary nErrors nWarnings)
  /\ (Suggest = false -> 0 < nErrors -> nWarnings = 0 -> 0 < nSuggestions ->
        line = Summary.errorOnlySummary nErrors)
  /\ (Suggest = false -> nErrors = 0 -> 0 < nWarnings ->
        line = Summary.warningOnlySummary nWarnings)
  /\ (Suggest = true \/ (nWarnings = 0 /\ (nErrors = 0 \/ nSuggestions = 0)) ->
        nServices = 0 /\ nDCs = 0 /\ nImages = 0 ->
        line = Summary.noResourcesGuidance)
  /\ (Suggest = true \/ (nWarnings = 0 /\ (nErrors = 0 \/ nSuggestions = 0)) ->
        ~ (nServices = 0 /\ nDCs = 0 /\ nImages = 0) ->
        line = Summary.seeDetailsGuidance)
  /\ (Suggest = false -> nErrors = 2 -> nWarnings = 0 -> 0 < nSuggestions ->
        line = "2 errors identified, use 'oc status -v' to see details." +:+ GoStr.nl).
Proof.
  intros nErrors nWarnings nSuggestions line.
  subst line. unfold Summary.summary. cbv zeta.
  fold nErrors nWarnings nSuggestions. clearbody nErrors nWarnings nSuggestions.
  assert (Hother :
    Suggest = true \/ (nWarnings = 0 /\ (nErrors = 0 \/ nSuggestions = 0)) ->
    forall a b c : string,
      (if negb Suggest && (0 <? nErrors) && (0 <? nWarnings) then a
       else if negb Suggest && (0 <? nErrors) && (0 <? nSuggestions) then b
       else if negb Suggest && (0 <? nWarnings) then c
       else if (nServices =? 0) && (nDCs =? 0) && (nImages =? 0)
            then Summary.noResourcesGuidance else Summary.seeDetailsGuidance)
      = if (nServices =? 0) && (nDCs =? 0) && (nImages =? 0)
        then Summary.noResourcesGuidance else Summary.seeDetailsGuidance).
  { intros Hc a b c.
    destruct Hc as [->|[-> He]]; [reflexivity|].
    change (0 <? 0) with false. rewrite !andb_false_r.
    destruct He as [->| ->]; change (0 <? 0) with false;
      rewrite ?andb_false_r; reflexivity. }
  split; [|split; [|split; [|split; [|split]]]].
  - intros -> He Hw. apply Z.ltb_lt in He, Hw. rewrite He, Hw. reflexivity.
  - intros -> He Hw Hs. apply Z.ltb_lt in He, Hs. rewrite He, Hs, Hw. reflexivity.
  - intros -> He Hw. apply Z.ltb_lt in Hw. rewrite Hw, He. reflexivity.
  - intros Hc (-> & -> & ->). etransitivity; [apply (Hother Hc)|reflexivity].
  - intros Hc Hres. etransitivity; [apply (Hother Hc)|].
    destruct (Z.eqb_spec nServices 0), (Z.eqb_spec nDCs 0), (Z.eqb_spec nImages 0);
      try reflexivity.
    exfalso. apply Hres. auto.
  - intros -> He Hw Hs. apply Z.ltb_lt in Hs. rewrite He, Hw, Hs. reflexivity.
Qed.

(** Two error markers, one of them with a suggestion, and nothing else to
    report. *)
Lemma summary_branch_priority_witness :
  Summary.summary false
    [{| Markers.Node := Some 4; Markers.Severity_ := Markers.ErrorSeverity;
        Markers.Key := "CrashLoopingPod";
        Markers.Message := "pod/web is crash-looping";
        Markers.Suggestion := "oc logs -p web" |};
     {| Markers.Node := Some 9; Markers.Severity_ := Markers.ErrorSeverity;
        Markers.Key := "MissingSecret";
        Markers.Message := "secret/db is missing";
        Markers.Suggestion := "" |}]
    [] 1 0 0
  = "2 errors identified, use 'oc status -v' to see details." +:+ GoStr.nl.
Proof.
  apply (proj2 (proj2 (proj2 (proj2 (proj2
          (summary_branch_priority false _ [] 1 0 0)))))); reflexivity.
Defined.

(** C5, as stated, fails when no error marker carries a suggestion: with
    2 error markers, 0 warning markers and suggest mode off the second
    branch does not apply, and the summary is the guidance text. *)
Lemma summary_two_errors_without_suggestion :
  Summary.summary false
    [{| Markers.Node := Some 4; Markers.Severity_ := Markers.ErrorSeverity;
        Markers.Key := "CircularBuild";
        Markers.Message := "bc/a and bc/b build each other";
        Markers.Suggestion := "" |};
     {| Markers.Node := Some 9; Markers.Severity_ := Markers.ErrorSeverity;
        Markers.Key := "MissingSecret";
        Markers.Message := "secret/db is missing";
        Markers.Suggestion := "" |}]
    [] 1 0 0
  = "View details with 'oc describe <resource>/<name>' or list everything with 'oc get all'."
    +:+ GoStr.nl
  /\ Summary.summary false
    [{| Markers.Node := Some 4; Markers.Severity_ := Markers.ErrorSeverity;
        Markers.Key := "CircularBuild";
        Markers.Message := "bc/a and bc/b build each other";
        Markers.Suggestion := "" |};
     {| Markers.Node := Some 9; Markers.Severity_ := Markers.ErrorSeverity;
        Markers.Key := "MissingSecret";
        Markers.Message := "secret/db is missing";
        Markers.Suggestion := "" |}]
    [] 1 0 0
  <> "2 errors identified, use 'oc status -v' to see details." +:+ GoStr.nl.
Proof. split; [reflexivity|]. vm_compute. discriminate. Qed.

(** ** The boring-pod filter *)
Module PodsFacts.
Import Errors Pods.

Section Filter.
Variables (DeployerPodForDeploymentLabel BuildAnnotation : string).

(** The test of the loop fails exactly on the interesting pods. *)
Lemma boring_test (pod : graphview_Pod) (p : kapi_Pod) :
  Object_ (Pod pod) = PodObject p ->
  bool_decide (is_Some (Labels (Meta p) !! DeployerPodForDeploymentLabel))
  || bool_decide (is_Some (Annotations (Meta p) !! BuildAnnotation))
  || (bool_decide (Phase p = PodSucceeded) || bool_decide (Phase p = PodFailed))
  = false
  <-> interesting DeployerPodForDeploymentLabel BuildAnnotation pod.
Proof.
  intros Hobj.
  assert (Hi : interesting DeployerPodForDeploymentLabel BuildAnnotation pod <->
               ~ isDeployerHelper DeployerPodForDeploymentLabel p
               /\ ~ isBuilderHelper BuildAnnotation p /\ ~ isTerminal p).
  { unfold Pods.interesting. now rewrite Hobj. }
  rewrite Hi. unfold isDeployerHelper, isBuilderHelper, isTerminal.
  rewrite !orb_false_iff, !bool_decide_eq_false. unfold is_Some. tauto.
Qed.

Lemma filterLoop_filter (pods monopods : list graphview_Pod) :
  filterLoop DeployerPodForDeploymentLabel BuildAnnotation pods monopods
  = inr (monopods
         ++ filter (interesting DeployerPodForDeploymentLabel BuildAnnotation) pods).
Proof.
  revert monopods. induction pods as [|pod rest IH]; intros monopods.
  - cbn. now rewrite app_nil_r.
  - cbn [Pods.filterLoop]. rewrite filter_cons.
    destruct (Object_ (Pod pod)) as [p|] eqn:Hobj.
    + unfold ObjectMetaFor. pose proof (boring_test pod p Hobj) as Ht.
      destruct (_ || _ || (_ || _)) eqn:Eb.
      * destruct (decide (interesting DeployerPodForDeploymentLabel BuildAnnotation pod))
          as [Hi|Hi]; [|apply IH].
        apply Ht in Hi. discriminate.
      * destruct (decide (interesting DeployerPodForDeploymentLabel BuildAnnotation pod))
          as [Hi|Hi].
        -- rewrite IH, <- app_assoc. reflexivity.
        -- exfalso. apply Hi, Ht. reflexivity.
    + destruct (decide (interesting DeployerPodForDeploymentLabel BuildAnnotation pod))
          as [Hi|Hi]; [|apply IH].
      unfold Pods.interesting in Hi. now rewrite Hobj in Hi.
Qed.

End Filter.

(** Four standalone pods: a deployer helper, a builder helper, a pod that
    has succeeded and a running one. Only the last is kept, here for one
    choice of the names of the label and of the annotation. *)
Example filterBoringPods_sample :
  let pod (id : Z) labels annotations phase :=
    {| Pod := {| ID := id;
                 Object_ := PodObject
                   {| Meta := {| Name := "p"; Namespace := "test";
                                 Labels := labels; Annotations := annotations |};
                      Phase := phase |} |} |} in
  filterBoringPods "openshift.io/deployer-pod-for.name" "openshift.io/build.name"
    [pod 1 {["openshift.io/deployer-pod-for.name" := "web-1"]} ∅ PodRunning;
     pod 2 ∅ {["openshift.io/build.name" := "web-3"]} PodRunning;
     pod 3 ∅ ∅ PodSucceeded;
     pod 4 {["app" := "web"]} ∅ PodRunning]
  = inr [pod 4 {["app" := "web"]} ∅ PodRunning].
Proof. vm_compute. reflexivity. Qed.

End PodsFacts.

(** ** The coverage passes *)
Module CoverageFacts.
Import Pods Coverage.

Lemma IntSet_Insert_union (items : list Z) (s : gset Z) :
  IntSet_Insert items s = s ∪ list_to_set items.
Proof.
  unfold IntSet_Insert. revert s.
  induction items as [|x items IH]; intros s; cbn [fold_left list_to_set].
  - symmetry. apply union_empty_r_L.
  - rewrite IH, (union_comm_L {[x]} s). symmetry. apply union_assoc_L.
Qed.

Lemma Insert_List (claimed s : gset Z) :
  IntSet_Insert (IntSet_List claimed) s = s ∪ claimed.
Proof.
  unfold IntSet_List. now rewrite IntSet_Insert_union, list_to_set_elements_L.
Qed.

Section Facts.
Context `{Views}.

(** The run of the five passes in closed form. *)
Lemma partition_trace (g : Graph) :
  exists c1 c2 c3 c4 c5 : gset Z,
    AllPods g (∅ ∪ c1 ∪ c2 ∪ c3 ∪ c4) = (standalonePods (partition g initial).1, c5)
    /\ coveredNodes (partition g initial).2 = ∅ ∪ c1 ∪ c2 ∪ c3 ∪ c4 ∪ c5
    /\ trace (partition g initial).2 =
         [EvPass ServiceGroupsPass ∅ c1;
          EvCovered (∅ ∪ c1);
          EvPass DeploymentConfigPipelinesPass (∅ ∪ c1) c2;
          EvCovered (∅ ∪ c1 ∪ c2);
          EvPass ReplicationControllersPass (∅ ∪ c1 ∪ c2) c3;
          EvCovered (∅ ∪ c1 ∪ c2 ∪ c3);
          EvPass ImagePipelinesFromBuildConfigPass (∅ ∪ c1 ∪ c2 ∪ c3) c4;
          EvCovered (∅ ∪ c1 ∪ c2 ∪ c3 ∪ c4);
          EvPass PodsPass (∅ ∪ c1 ∪ c2 ∪ c3 ∪ c4) c5;
          EvCovered (∅ ∪ c1 ∪ c2 ∪ c3 ∪ c4 ∪ c5)].
Proof.
  unfold partition, St.bind, call, Insert, St.modify, St.ret, initial.
  cbn [coveredNodes trace app snd fst].
  destruct (AllServiceGroups g ∅) as [v1 c1] eqn:E1.
  cbn [coveredNodes trace app snd fst]. rewrite !Insert_List.
  destruct (AllDeploymentConfigPipelines g (∅ ∪ c1)) as [v2 c2] eqn:E2.
  cbn [coveredNodes trace app snd fst]. rewrite !Insert_List.
  destruct (AllReplicationControllers g (∅ ∪ c1 ∪ c2)) as [v3 c3] eqn:E3.
  cbn [coveredNodes trace app snd fst]. rewrite !Insert_List.
  destruct (AllImagePipelinesFromBuildConfig g (∅ ∪ c1 ∪ c2 ∪ c3)) as [v4 c4] eqn:E4.
  cbn [coveredNodes trace app snd fst]. rewrite !Insert_List.
  destruct (AllPods g (∅ ∪ c1 ∪ c2 ∪ c3 ∪ c4)) as [v5 c5] eqn:E5.
  cbn [coveredNodes trace app snd fst standalonePods]. rewrite !Insert_List.
  exists c1, c2, c3, c4, c5. repeat split. exact E5.
Qed.

Lemma partition_covered_grows_closed (g : Graph) :
  coveredNodes (partition g initial).2 = claimedBy (trace (partition g initial).2).
Proof.
  destruct (partition_trace g) as (c1 & c2 & c3 & c4 & c5 & _ & Hc & Ht).
  now rewrite Hc, Ht.
Qed.

(** C2. In one run of [Describe] the five partition functions are called
    in the fixed order service groups, deployment-config pipelines,
    replication controllers, image pipelines from build configs, pods; each
    of them is given, as the set to exclude, exactly the union of the node
    IDs claimed by the passes before it; the successive values of the
    covered set only grow; and the covered set ends as the union of all
    that was claimed. *)
Theorem partition_covered_grows_in_fixed_order (g : Graph) :
  let tr := trace (partition g initial).2 in
  passOrder tr =
    [ServiceGroupsPass; DeploymentConfigPipelinesPass; ReplicationControllersPass;
     ImagePipelinesFromBuildConfigPass; PodsPass]
  /\ (forall (i : nat) p excluded claimed,
        tr !! i = Some (EvPass p excluded claimed) ->
        excluded = claimedBy (take i tr))
  /\ (forall (i j : nat) c c',
        (i <= j)%nat ->
        coveredHistory tr !! i = Some c -> coveredHistory tr !! j = Some c' ->
        c ⊆ c')
  /\ coveredNodes (partition g initial).2 = claimedBy tr.
Proof.
  destruct (partition_trace g) as (c1 & c2 & c3 & c4 & c5 & _ & Hc & Ht).
  cbv zeta. rewrite Hc, Ht. clear Hc Ht.
  split; [reflexivity|]. split; [|split; [|reflexivity]].
  - intros i p excluded claimed Hi.
    do 10 (destruct i as [|i]; [cbn in Hi; inversion Hi; reflexivity|]).
    discriminate.
  - intros i j c c' Hij Hi Hj. unfold coveredHistory in Hi, Hj.
    cbn [omap list_omap] in Hi, Hj.
    do 6 (destruct i as [|i]; [cbn in Hi; inversion Hi; subst c; clear Hi;
      do 6 (destruct j as [|j]; [cbn in Hj; inversion Hj; subst c'; clear Hj; try lia;
                                 set_solver|]);
      discriminate|]).
    discriminate.
Qed.

(** C7. [filterBoringPods] never fails and returns, in their original
    order, exactly the standalone pods that are interesting: those that
    carry no deployer-pod-for label, no build annotation, and are neither
    Succeeded nor Failed (a node whose object is not a pod is skipped as
    well). In [Describe] the filter is applied to the pods of the last
    pass, after the covered set has taken its last value. When the pods
    pass covers the pods it returns, every standalone pod the filter
    excludes is absent from the monopods that are printed while its node
    is in the covered set, which is the union of everything the passes
    claimed. *)
Theorem filterBoringPods_keeps_interesting
    (DeployerPodForDeploymentLabel BuildAnnotation : string) :
  (forall pods : list graphview_Pod,
     filterBoringPods DeployerPodForDeploymentLabel BuildAnnotation pods
     = inr (filter (interesting DeployerPodForDeploymentLabel BuildAnnotation) pods))
  /\ (podsPassCovers ->
      forall g : Graph,
        exists printed : list graphview_Pod,
          (monopods DeployerPodForDeploymentLabel BuildAnnotation g).1 = inr printed
          /\ printed
             = filter (interesting DeployerPodForDeploymentLabel BuildAnnotation)
                 (standalonePods (partition g initial).1)
          /\ (forall pod : graphview_Pod,
                pod ∈ standalonePods (partition g initial).1 ->
                ~ interesting DeployerPodForDeploymentLabel BuildAnnotation pod ->
                (pod ∉ printed)
                /\ ID (Pod pod)
                   ∈ coveredNodes
                       (monopods DeployerPodForDeploymentLabel BuildAnnotation g).2)
          /\ (forall pod : graphview_Pod,
                pod ∈ printed ->
                ID (Pod pod)
                ∈ coveredNodes
                    (monopods DeployerPodForDeploymentLabel BuildAnnotation g).2)
          /\ coveredNodes (monopods DeployerPodForDeploymentLabel BuildAnnotation g).2
             = claimedBy (trace (partition g initial).2)).
Proof.
  assert (Hfilter : forall pods : list graphview_Pod,
    filterBoringPods DeployerPodForDeploymentLabel BuildAnnotation pods
    = inr (filter (interesting DeployerPodForDeploymentLabel BuildAnnotation) pods)).
  { intros pods. unfold filterBoringPods. now rewrite PodsFacts.filterLoop_filter. }
  split; [exact Hfilter|].
  intros Hpods g.
  exists (filter (interesting DeployerPodForDeploymentLabel BuildAnnotation)
            (standalonePods (partition g initial).1)).
  assert (Hcovered : forall pod : graphview_Pod,
            pod ∈ standalonePods (partition g initial).1 ->
            ID (Pod pod) ∈ coveredNodes (partition g initial).2).
  { intros pod Hin.
    destruct (partition_trace g) as (c1 & c2 & c3 & c4 & c5 & Hall & Hc & _).
    rewrite Hc. apply elem_of_union. right.
    pose proof (Hpods g (∅ ∪ c1 ∪ c2 ∪ c3 ∪ c4) pod) as Hp.
    rewrite Hall in Hp. cbn [fst snd] in Hp. now apply Hp. }
  unfold monopods.
  pose proof (partition_covered_grows_closed g) as Hcov.
  destruct (partition g initial) as [groups s]. cbn [fst snd] in *.
  split; [apply Hfilter|]. split; [reflexivity|].
  split; [|split; [|exact Hcov]].
  - intros pod Hin Hboring. split; [|now apply Hcovered].
    intros Hprinted. apply list_elem_of_filter in Hprinted as [Hi _]. contradiction.
  - intros pod Hprinted. apply list_elem_of_filter in Hprinted as [_ Hin].
    now apply Hcovered.
Qed.

End Facts.

(** The passes on a graph with a service group that covers nodes 10 and
    11 and with two pods, one of them behind the service. *)
Lemma partition_covered_grows_witness :
  ({[10; 11]} : gset Z)
  ⊆ coveredNodes
      (partition (H := sampleViews)
         [(ServiceGroupsPass, 10); (PodsPass, 11); (PodsPass, 12)] initial).2.
Proof.
  apply (proj1 (proj2 (proj2
           (partition_covered_grows_in_fixed_order (H := sampleViews)
              [(ServiceGroupsPass, 10); (PodsPass, 11); (PodsPass, 12)])))
           1%nat 5%nat).
  - lia.
  - vm_compute. reflexivity.
  - vm_compute. reflexivity.
Defined.

(** The pods pass of the sample graph covers the pods it returns. *)
Lemma sampleViews_podsPassCovers : podsPassCovers (H := sampleViews).
Proof.
  intros g excluded pod Hin. cbn [AllPods sampleViews fst snd] in *.
  apply list_elem_of_fmap in Hin as (n & -> & Hn). cbn [ID Pod].
  apply elem_of_list_to_set, list_elem_of_fmap. now exists n.
Qed.

(** Two standalone pods, of which the one of node 40 has succeeded: it is
    not printed, and its node is covered. *)
Lemma filterBoringPods_keeps_interesting_witness :
  40 ∈ coveredNodes
         (monopods (H := sampleViews) "openshift.io/deployer-pod-for.name"
            "openshift.io/build.name" [(PodsPass, 40); (PodsPass, 41)]).2.
Proof.
  destruct (proj2 (filterBoringPods_keeps_interesting (H := sampleViews)
                     "openshift.io/deployer-pod-for.name" "openshift.io/build.name")
              sampleViews_podsPassCovers [(PodsPass, 40); (PodsPass, 41)])
    as (printed & _ & _ & Hdropped & _).
  apply (Hdropped
           {| Pod := {| ID := 40;
                        Object_ := PodObject
                          {| Meta := {| Name := "pod"; Namespace := "test";
                                        Labels := ∅; Annotations := ∅ |};
                             Phase := PodSucceeded |} |} |}).
  - vm_compute. apply elem_of_cons. left. reflexivity.
  - intros (_ & _ & Hterminal). apply Hterminal. left. reflexivity.
Defined.

End CoverageFacts.
(** ** The service-port summary *)
Module PortsFacts.
Import GoStr Ports.

(** The three arities. *)
Lemma describeServicePorts_none (spec : ServiceSpec) :
  Ports spec = [] -> describeServicePorts spec = " no ports".
Proof. unfold describeServicePorts. now intros ->. Qed.

Lemma describeServicePorts_one (spec : ServiceSpec) (port0 : ServicePort) :
  Ports spec = [port0] ->
  describeServicePorts spec = ":" +:+ portOrNodePort spec port0
  \/ describeServicePorts spec
     = ":" +:+ portOrNodePort spec port0 +:+ " -> "
       +:+ IntOrString_String (TargetPort port0).
Proof.
  unfold describeServicePorts. intros ->.
  destruct (_ || _ || _); [now left|now right].
Qed.

Lemma describeServicePorts_many (spec : ServiceSpec) (p q : ServicePort)
    (rest : list ServicePort) :
  Ports spec = p :: q :: rest ->
  describeServicePorts spec = " ports " +:+ Join (describePortPairs spec) ", ".
Proof. unfold describeServicePorts. now intros ->. Qed.

(** What a service of type NodePort shows for one port. *)
Lemma portOrNodePort_NodePort (spec : ServiceSpec) (port : ServicePort) :
  Type_ spec = ServiceTypeNodePort ->
  portOrNodePort spec port
  = if NodePort port =? 0 then "<initializing>" else Itoa (NodePort port).
Proof. unfold portOrNodePort. now intros ->. Qed.

(** The two examples of the specification. *)
Example describeServicePorts_80_8080 :
  describeServicePorts
    {| Type_ := ServiceTypeClusterIP; ClusterIP := "172.30.0.10";
       Ports := [{| Port := 80; TargetPort := FromInt 8080; NodePort := 0 |}] |}
  = ":80 -> 8080".
Proof. reflexivity. Qed.

Example describeServicePorts_unallocated :
  portOrNodePort
    {| Type_ := ServiceTypeNodePort; ClusterIP := "172.30.0.10";
       Ports := [{| Port := 80; TargetPort := FromInt 8080; NodePort := 0 |}] |}
    {| Port := 80; TargetPort := FromInt 8080; NodePort := 0 |}
  = "<initializing>"
  /\ describeServicePorts
       {| Type_ := ServiceTypeNodePort; ClusterIP := "172.30.0.10";
          Ports := [{| Port := 80; TargetPort := FromInt 8080; NodePort := 0 |}] |}
     = ":<initializing> -> 8080".
Proof. split; reflexivity. Qed.

End PortsFacts.

(** C8 does not hold of the multi-port case. A service of type NodePort
    with the ports 80 and 443, each targeting the container port of the
    same number, the first with the node port 30080 allocated and the
    second with none yet, is summarized as [ ports 80, 443]: neither the
    node port nor the placeholder is shown. Each of the two ports alone
    shows them, as the single-port case compares the port that is shown,
    not [Port], with the target. *)
Theorem describeServicePorts_multi_port_drops_node_port :
  Ports.describeServicePorts
    {| Ports.Type_ := Ports.ServiceTypeNodePort; Ports.ClusterIP := "172.30.0.10";
       Ports.Ports :=
         [{| Ports.Port := 80; Ports.TargetPort := Ports.FromInt 80;
             Ports.NodePort := 30080 |};
          {| Ports.Port := 443; Ports.TargetPort := Ports.FromInt 443;
             Ports.NodePort := 0 |}] |}
  = " ports 80, 443"
  /\ Ports.describeServicePorts
       {| Ports.Type_ := Ports.ServiceTypeNodePort; Ports.ClusterIP := "172.30.0.10";
          Ports.Ports :=
            [{| Ports.Port := 80; Ports.TargetPort := Ports.FromInt 80;
                Ports.NodePort := 30080 |}] |}
     = ":30080 -> 80"
  /\ Ports.describeServicePorts
       {| Ports.Type_ := Ports.ServiceTypeNodePort; Ports.ClusterIP := "172.30.0.10";
          Ports.Ports :=
            [{| Ports.Port := 443; Ports.TargetPort := Ports.FromInt 443;
                Ports.NodePort := 0 |}] |}
     = ":<initializing> -> 443".
Proof. repeat split; reflexivity. Qed.

(** ** The build timestamp *)
Module BuildsFacts.
Import Builds.

Lemma buildTimestamp_completed (b : Build) (t : Time) :
  CompletionTimestamp b = Some t -> t <> zeroTime -> buildTimestamp (Some b) = t.
Proof.
  intros Hc Ht. unfold buildTimestamp, IsZeroPtr, IsZero. rewrite Hc.
  unfold zeroTime in Ht. apply Z.eqb_neq in Ht. now rewrite Ht.
Qed.

Lemma buildTimestamp_started (b : Build) (t : Time) :
  IsZeroPtr (CompletionTimestamp b) = true ->
  StartTimestamp b = Some t -> t <> zeroTime -> buildTimestamp (Some b) = t.
Proof.
  intros Hc Hs Ht. unfold buildTimestamp. rewrite Hc. cbn [negb].
  unfold IsZeroPtr, IsZero. rewrite Hs.
  unfold zeroTime in Ht. apply Z.eqb_neq in Ht. now rewrite Ht.
Qed.

Lemma buildTimestamp_created (b : Build) :
  IsZeroPtr (CompletionTimestamp b) = true ->
  IsZeroPtr (StartTimestamp b) = true ->
  buildTimestamp (Some b) = CreationTimestamp b.
Proof. intros Hc Hs. unfold buildTimestamp. now rewrite Hc, Hs. Qed.

End BuildsFacts.

(** C10. [buildTimestamp] is defined for every build: it is the zero time
    for a nil build, the completion time when there is one and it is not
    zero, otherwise the start time when there is one and it is not zero,
    otherwise the creation time. It is the time
    [describeAdditionalBuildDetail] compares: with a last successful, a
    last unsuccessful and a first active build at hand, the unsuccessful
    build is shown exactly when the timestamp of the successful one is
    before its own, and the active builds come after the terminal ones
    exactly when the timestamp of the first active build is before the
    later of the two. *)
Theorem buildTimestamp_fallback_chain
    (describeBuildPhase : Builds.Build -> option Builds.Time -> string -> bool -> string) :
  Builds.buildTimestamp None = Builds.zeroTime
  /\ (forall b : Builds.Build,
        Builds.buildTimestamp (Some b) =
          match Builds.CompletionTimestamp b, Builds.StartTimestamp b with
          | Some c, Some s =>
              if c =? 0 then (if s =? 0 then Builds.CreationTimestamp b else s) else c
          | Some c, None => if c =? 0 then Builds.CreationTimestamp b else c
          | None, Some s => if s =? 0 then Builds.CreationTimestamp b else s
          | None, None => Builds.CreationTimestamp b
          end)
  /\ (forall (bc : Builds.BuildConfigNode) (pass fail first : Builds.Build)
            (rest : list Builds.Build) (pushTargetResolved includeSuccess : bool),
        let node b := {| Builds.Build_ := Some b |} in
        let ts b := Builds.buildTimestamp (Some b) in
        let line b t :=
          describeBuildPhase b t (Builds.BuildConfigName bc) pushTargetResolved in
        let terminal :=
          [line pass (Some (ts pass))]
          ++ (if ts pass <? ts fail then [line fail (Some (ts fail))] else []) in
        let active := map (fun b => line b None) (first :: rest) in
        Builds.describeAdditionalBuildDetail describeBuildPhase (Some bc)
          (Some (node pass)) (Some (node fail)) (map node (first :: rest))
          pushTargetResolved includeSuccess
        = Some (if ts first <? Z.max (ts pass) (ts fail)
                then terminal ++ active else active ++ terminal)).
Proof.
  split; [reflexivity|]. split.
  - intros b. unfold Builds.buildTimestamp, Builds.IsZeroPtr, Builds.IsZero.
    destruct (Builds.CompletionTimestamp b) as [c|], (Builds.StartTimestamp b) as [s|];
      cbn [negb]; try reflexivity.
    + destruct (c =? 0); cbn [negb]; [|reflexivity]. now destruct (s =? 0).
    + now destruct (c =? 0).
    + now destruct (s =? 0).
  - intros bc pass fail first rest ptr inc node ts line terminal active.
    assert (Hactive : forall (bs : list Builds.Build) acc,
      Builds.activeLines describeBuildPhase (map node bs) (Builds.BuildConfigName bc) ptr acc
      = Some (acc ++ map (fun b => line b None) bs)).
    { induction bs as [|b bs IH]; intros acc; cbn.
      - now rewrite app_nil_r.
      - rewrite IH, <- app_assoc. reflexivity. }
    unfold Builds.describeAdditionalBuildDetail.
    rewrite Hactive. cbn [map length Builds.phaseOf Builds.Build_ node app].
    fold (ts pass) (ts fail) (ts first).
    replace (inc || (0 <? Z.of_nat (S (length (map node rest))))) with true
      by (now rewrite orb_true_r).
    cbn [mbind option_bind app]. unfold Builds.Before, Builds.After.
    assert (Hmax : (if ts fail <? ts pass then ts pass else ts fail)
                   = Z.max (ts pass) (ts fail)).
    { destruct (Z.ltb_spec (ts fail) (ts pass)); lia. }
    rewrite Hmax. subst terminal active. cbn [map].
    fold (line pass (Some (ts pass))) (line fail (Some (ts fail))) (line first None).
    destruct (ts pass <? ts fail); cbn [mbind option_bind app];
      destruct (ts first <? Z.max (ts pass) (ts fail)); reflexivity.
Qed.

(** * Part II, continued: further properties of the code *)

(** ** More on [MakeGraph]: the forbidden kinds *)
Module ForbiddenFacts.
Import Errors Graph MakeGraph MakeGraphFacts.

(** The kinds the classification loop adds to the set it starts from. *)
Lemma classify_forbidden (errs : list GoError) (F : gset string) (A : list GoError)
    (k : string) :
  k ∈ (classify errs F A).1 <->
  k ∈ F \/ exists st d,
             StatusError st ∈ errs /\ Reason st = StatusReasonForbidden
             /\ Details st = Some d /\ Kind d = k /\ k <> "".
Proof.
  revert F A. induction errs as [|e errs IH]; intros F A; cbn [classify fst].
  - split; [now left|]. intros [H|(st & d & Hin & _)]; [assumption|].
    now apply not_elem_of_nil in Hin.
  - assert (Hskip :
      (forall st d, e = StatusError st -> Reason st = StatusReasonForbidden ->
                    Details st = Some d -> Kind d = k -> k = "") ->
      (k ∈ F \/ (exists st d, StatusError st ∈ errs /\ Reason st = StatusReasonForbidden
                 /\ Details st = Some d /\ Kind d = k /\ k <> "")) <->
      (k ∈ F \/ (exists st d, StatusError st ∈ e :: errs
                 /\ Reason st = StatusReasonForbidden
                 /\ Details st = Some d /\ Kind d = k /\ k <> ""))).
    { intros Hno. split.
      - intros [H|(st & d & Hin & Hr)]; [now left|].
        right. exists st, d. split; [now right|assumption].
      - intros [H|(st & d & Hin & Hr & Hd & Hk & Hne)]; [now left|].
        apply elem_of_cons in Hin as [He|Hin].
        + exfalso. apply Hne. now apply (Hno st d).
        + right. exists st, d. auto. }
    destruct (IsForbidden e) eqn:Ef.
    + destruct e as [st| |]; try discriminate.
      cbn in Ef. destruct (Reason st) eqn:Hr; try discriminate.
      destruct (Details st) as [d|] eqn:Hd.
      * destruct (0 <? GoStr.len (Kind d)) eqn:Hlen.
        -- rewrite IH. split.
           ++ intros [Hin|(st' & d' & Hin & H')].
              ** apply elem_of_union in Hin as [Hin|Hin]; [|now left].
                 apply elem_of_singleton in Hin. subst k.
                 right. exists st, d. split; [now left|].
                 repeat split; try assumption.
                 intros E. rewrite E in Hlen. discriminate.
              ** right. exists st', d'. split; [now right|assumption].
           ++ intros [Hin|(st' & d' & Hin & Hr' & Hd' & Hk & Hne)].
              ** left. apply elem_of_union. now right.
              ** apply elem_of_cons in Hin as [He|Hin].
                 --- inversion He; subst st'. rewrite Hd in Hd'. inversion Hd'; subst d'.
                     left. apply elem_of_union. left. now apply elem_of_singleton.
                 --- right. exists st', d'. auto.
        -- rewrite IH. apply Hskip. intros st' d' He _ Hd' Hk.
           inversion He; subst st'. rewrite Hd in Hd'. inversion Hd'; subst d'.
           unfold GoStr.len in Hlen. rewrite Hk in Hlen.
           destruct k; [reflexivity|]. cbn in Hlen. discriminate.
      * rewrite IH. apply Hskip. intros st' d' He _ Hd' _.
        inversion He; subst st'. rewrite Hd in Hd'. discriminate.
    + rewrite IH. apply Hskip. intros st' d' He Hr' _ _.
      subst e. cbn in Ef. rewrite Hr' in Ef. discriminate.
Qed.

Section Facts.
Context `{Ops}.

Lemma loadErrors_forbidden (lister : LoaderKind -> ListResult) (sched : list nat)
    (st : Status) :
  Reason st = StatusReasonForbidden ->
  StatusError st ∈ loadErrors lister sched <->
  exists i l, i ∈ sched /\ loaders !! i = Some l
              /\ lister l = ListFailed (StatusError st).
Proof.
  intros Hr. unfold loadErrors. rewrite list_elem_of_omap. split.
  - intros (i & Hi & Hl). destruct (loaders !! i) as [l|] eqn:El; [|discriminate].
    cbn in Hl. unfold loadFailure in Hl.
    destruct (lister l) as [its|err] eqn:E; [discriminate|].
    destruct (toleratesNotFound l && IsNotFound err); [discriminate|].
    inversion Hl; subst err. now exists i, l.
  - intros (i & l & Hi & El & E). exists i. split; [assumption|].
    rewrite El. cbn. unfold loadFailure. rewrite E.
    cbn [IsNotFound]. rewrite Hr. now rewrite andb_false_r.
Qed.

(** X1. The forbidden kinds [MakeGraph] returns, whether it aborts or
    not, are exactly the non-empty kinds named in the details of the
    Forbidden status errors of the [List] calls that were made. *)
Theorem MakeGraph_forbidden_kinds
    (lister : LoaderKind -> ListResult) (sched : list nat) (k : string) :
  k ∈ (run lister sched).1.1.2 <->
  k <> "" /\ exists i l st d,
    i ∈ sched /\ loaders !! i = Some l
    /\ lister l = ListFailed (StatusError st)
    /\ Reason st = StatusReasonForbidden
    /\ Details st = Some d /\ Kind d = k.
Proof.
  assert (HF : (run lister sched).1.1.2 = (classify (loadErrors lister sched) ∅ []).1).
  { rewrite run_closed.
    destruct (classify (loadErrors lister sched) ∅ []) as [F A]. now destruct A. }
  rewrite HF, classify_forbidden. split.
  - intros [Hin|(st & d & Hin & Hr & Hd & Hk & Hne)].
    + now apply not_elem_of_empty in Hin.
    + split; [assumption|]. apply (loadErrors_forbidden _ _ _ Hr) in Hin.
      destruct Hin as (i & l & Hi & El & E). exists i, l, st, d.
      repeat (split; [assumption|]). assumption.
  - intros (Hne & i & l & st & d & Hi & El & E & Hr & Hd & Hk).
    right. exists st, d. split; [|repeat (split; [assumption|]); assumption].
    apply (loadErrors_forbidden _ _ _ Hr). now exists i, l.
Qed.

End Facts.

(** The sample cluster refuses to list the secrets, and names their kind:
    "secrets" is among the forbidden kinds, although the run aborts on the
    failure of the routes. *)
Lemma MakeGraph_forbidden_kinds_witness :
  "secrets" ∈ (run (H := logGraphOps) (sampleCluster true) (seq 0 10)).1.1.2.
Proof.
  apply (proj2 (MakeGraph_forbidden_kinds (H := logGraphOps) (sampleCluster true)
                  (seq 0 10) "secrets")).
  split; [discriminate|].
  exists 2%nat, secretLoader,
    {| Reason := StatusReasonForbidden; Details := Some {| Kind := "secrets" |};
       StatusMessage := "forbidden" |},
    {| Kind := "secrets" |}.
  split; [apply list_elem_of_In; cbn; tauto|].
  repeat split.
Defined.

(** ** [createForbiddenMarkers] *)

Lemma createForbiddenMarkers_map (F : gset string) :
  Markers.createForbiddenMarkers F
  = map (fun forbiddenResource =>
           {| Markers.Node := None;
              Markers.Severity_ := Markers.WarningSeverity;
              Markers.Key := Markers.ForbiddenListWarning;
              Markers.Message :=
                "Unable to list " +:+ forbiddenResource
                +:+ " resources.  Not all status relationships can be established.";
              Markers.Suggestion := "" |})
        (elements F).
Proof.
  unfold Markers.createForbiddenMarkers.
  assert (Hgen : forall (l : list string) (acc : list Markers.Marker) f,
            fold_left (fun markers x => markers ++ [f x]) l acc = acc ++ map f l).
  { induction l as [|x l IH]; intros acc f; cbn.
    - now rewrite app_nil_r.
    - rewrite IH, <- app_assoc. reflexivity. }
  apply (Hgen (elements F) []).
Qed.

(** X2. [createForbiddenMarkers] makes one marker for each forbidden
    kind and nothing else: as many markers as kinds, each a warning with
    the key [Forbidden], about no node and without suggestion, and for each
    kind the marker whose message names it. None of them is an error. *)
Theorem createForbiddenMarkers_one_warning_per_kind (F : gset string) :
  length (Markers.createForbiddenMarkers F) = size F
  /\ (forall m, m ∈ Markers.createForbiddenMarkers F ->
        Markers.Severity_ m = Markers.WarningSeverity
        /\ Markers.Key m = "Forbidden" /\ Markers.Node m = None
        /\ Markers.Suggestion m = ""
        /\ exists k, k ∈ F
             /\ Markers.Message m
                = "Unable to list " +:+ k
                  +:+ " resources.  Not all status relationships can be established.")
  /\ (forall k, k ∈ F ->
        exists m, m ∈ Markers.createForbiddenMarkers F
          /\ Markers.Message m
             = "Unable to list " +:+ k
               +:+ " resources.  Not all status relationships can be established.")
  /\ Markers.BySeverity Markers.ErrorSeverity (Markers.createForbiddenMarkers F) = [].
Proof.
  rewrite createForbiddenMarkers_map. split; [|split; [|split]].
  - now rewrite length_map.
  - intros m Hm. apply list_elem_of_fmap in Hm as (k & -> & Hk).
    cbn. repeat split. exists k. split; [|reflexivity].
    now apply elem_of_elements.
  - intros k Hk.
    exists {| Markers.Node := None;
              Markers.Severity_ := Markers.WarningSeverity;
              Markers.Key := Markers.ForbiddenListWarning;
              Markers.Message :=
                "Unable to list " +:+ k
                +:+ " resources.  Not all status relationships can be established.";
              Markers.Suggestion := "" |}.
    split; [|reflexivity].
    apply list_elem_of_fmap. exists k. split; [reflexivity|].
    now apply elem_of_elements.
  - unfold Markers.BySeverity. induction (elements F) as [|k l IH]; [reflexivity|].
    cbn. exact IH.
Qed.

Lemma createForbiddenMarkers_witness :
  Markers.Key
    {| Markers.Node := None; Markers.Severity_ := Markers.WarningSeverity;
       Markers.Key := Markers.ForbiddenListWarning;
       Markers.Message :=
         "Unable to list secrets resources.  Not all status relationships can be established.";
       Markers.Suggestion := "" |} = "Forbidden".
Proof.
  refine (proj1 (proj2 (proj1 (proj2
            (createForbiddenMarkers_one_warning_per_kind {["secrets"]})) _ _))).
  vm_compute. apply list_elem_of_here.
Defined.

End ForbiddenFacts.

(** ** More facts about strings *)
Module GoStrMore.
Import GoStr GoStrFacts.

Lemma append_assoc (a b c : string) : (a +:+ b) +:+ c = a +:+ (b +:+ c).
Proof.
  induction a as [|x a IH]; [reflexivity|].
  now rewrite !append_cons, IH.
Qed.

Lemma append_nil_r (a : string) : a +:+ "" = a.
Proof.
  induction a as [|x a IH]; [reflexivity|]. now rewrite append_cons, IH.
Qed.

Lemma len_append (a b : string) : len (a +:+ b) = len a + len b.
Proof.
  unfold len. induction a as [|x a IH]; [rewrite append_nil; cbn; lia|].
  rewrite append_cons. cbn [String.length]. lia.
Qed.

Lemma len_nonneg (a : string) : 0 <= len a.
Proof. unfold len. lia. Qed.

Lemma len_zero (a : string) : len a = 0 <-> a = "".
Proof.
  unfold len. destruct a; [cbn; tauto|].
  split; [cbn [String.length]; lia|discriminate].
Qed.

Lemma append_eq_nil (a b : string) : a +:+ b = "" -> a = "" /\ b = "".
Proof.
  destruct a as [|x a]; [now rewrite append_nil|].
  rewrite append_cons. discriminate.
Qed.

Lemma append_cancel_r_byte (a b : string) (c : ascii) :
  a +:+ String c "" = b +:+ String c "" -> a = b.
Proof.
  revert b. induction a as [|x a IH]; intros [|y b]; rewrite ?append_cons, ?append_nil.
  - reflexivity.
  - intros E. inversion E as [[Hc Hb]]. symmetry in Hb.
    apply append_eq_nil in Hb as [_ Hb]. discriminate.
  - intros E. inversion E as [[Hc Ha]].
    apply append_eq_nil in Ha as [_ Ha]. discriminate.
  - intros E. inversion E. f_equal. now apply IH.
Qed.

Lemma append_cancel_l (p a b : string) : p +:+ a = p +:+ b -> a = b.
Proof.
  induction p as [|x p IH]; [now rewrite !append_nil|].
  rewrite !append_cons. intros E. inversion E. now apply IH.
Qed.

(** *** Occurrences of a byte *)

Lemma containsByte_nil (c : ascii) : Names.containsByte "" c = false.
Proof. reflexivity. Qed.

Lemma containsByte_cons (x : ascii) (s : string) (c : ascii) :
  Names.containsByte (String x s) c = Ascii.eqb x c || Names.containsByte s c.
Proof.
  unfold Names.containsByte. cbn [IndexByte].
  destruct (Ascii.eqb x c); [reflexivity|]. cbn [orb].
  pose proof (IndexByte_ge s c).
  destruct (IndexByte s c =? -1) eqn:E; [reflexivity|].
  apply Z.eqb_neq in E. cbn [negb].
  destruct (IndexByte s c + 1 =? -1) eqn:E'; [apply Z.eqb_eq in E'; lia|reflexivity].
Qed.

Lemma containsByte_append (a b : string) (c : ascii) :
  Names.containsByte (a +:+ b) c = Names.containsByte a c || Names.containsByte b c.
Proof.
  induction a as [|x a IH]; [now rewrite append_nil|].
  rewrite append_cons, !containsByte_cons, IH. now rewrite orb_assoc.
Qed.

(** Two strings cut at the first occurrence of a byte. *)
Lemma append_byte_inj (a b x y : string) (c : ascii) :
  Names.containsByte a c = false -> Names.containsByte b c = false ->
  a +:+ String c x = b +:+ String c y -> a = b /\ x = y.
Proof.
  revert b. induction a as [|u a IH]; intros [|v b] Ha Hb;
    rewrite ?append_cons, ?append_nil.
  - intros E. inversion E. auto.
  - intros E. inversion E; subst v.
    rewrite containsByte_cons, Ascii.eqb_refl in Hb. discriminate.
  - intros E. inversion E; subst u.
    rewrite containsByte_cons, Ascii.eqb_refl in Ha. discriminate.
  - intros E. inversion E; subst v.
    rewrite containsByte_cons in Ha, Hb.
    apply orb_false_iff in Ha as [_ Ha], Hb as [_ Hb].
    destruct (IH b Ha Hb) as [-> ->]; [assumption|]. auto.
Qed.

(** The segment up to the first space of a text that starts with a word
    without space, followed by nothing or by a space. *)
Lemma segmentLen_word (w rest : string) :
  Names.containsByte w " "%char = false ->
  rest = "" \/ (exists r, rest = String " "%char r) ->
  Routes.segmentLen (w +:+ rest) = len w.
Proof.
  intros Hw Hrest. induction w as [|x w IH].
  - rewrite append_nil. destruct Hrest as [->|[r ->]]; reflexivity.
  - rewrite containsByte_cons in Hw. apply orb_false_iff in Hw as [Hx Hw].
    rewrite append_cons, RoutesFacts.segmentLen_cons.
    + rewrite (IH Hw). unfold len. cbn [String.length]. lia.
    + intros ->. discriminate.
Qed.

End GoStrMore.

(** ** More on the exposed routes *)
Module RouteViewFacts.
Import GoStr GoStrFacts GoStrMore Names Routes RoutesFacts RouteView.

Lemma exposedRoutes_Less_asym (a b : string) :
  exposedRoutes_Less a b = true -> exposedRoutes_Less b a = false.
Proof. rewrite !exposedRoutes_Less_key. apply tripleLess_asym. Qed.

Lemma exposedRoutes_Less_negtrans (a b c : string) :
  exposedRoutes_Less a b = false -> exposedRoutes_Less b c = false ->
  exposedRoutes_Less a c = false.
Proof.
  rewrite !exposedRoutes_Less_key. unfold routeKeyLess.
  set (ka := (schemeRank a, hostLen a, a)).
  set (kb := (schemeRank b, hostLen b, b)).
  set (kc := (schemeRank c, hostLen c, c)).
  intros Hab Hbc. destruct (tripleLess ka kc) eqn:Hac; [|reflexivity].
  destruct (tripleLess kb ka) eqn:Hba.
  - now rewrite (tripleLess_trans _ _ _ Hba Hac) in Hbc.
  - rewrite (tripleLess_total _ _ Hab Hba) in Hac. congruence.
Qed.

Lemma exposedRoutes_Less_total (a b : string) :
  exposedRoutes_Less a b = false -> exposedRoutes_Less b a = false -> a = b.
Proof.
  rewrite !exposedRoutes_Less_key. intros Hab Hba.
  pose proof (tripleLess_total _ _ Hab Hba) as E. now inversion E.
Qed.

(** X3. [sort.Sort(exposedRoutes(exposes))] returns the same strings in
    the order of [Less], and the result depends only on which strings are
    given, not on the order they come in. *)
Theorem sortExposed_sorted_and_order_independent (exposes : list string) :
  Permutation exposes (sortExposed exposes)
  /\ GoSort.inOrder exposedRoutes_Less (sortExposed exposes)
  /\ (forall exposes', Permutation exposes exposes' ->
        sortExposed exposes = sortExposed exposes').
Proof.
  assert (Hsorted : forall l, GoSort.inOrder exposedRoutes_Less (sortExposed l)).
  { intros l. apply GoSortFacts.insertionSort_inOrder.
    - apply exposedRoutes_Less_asym.
    - apply exposedRoutes_Less_negtrans. }
  split; [apply GoSortFacts.insertionSort_Permutation|]. split; [apply Hsorted|].
  intros exposes' Hp.
  apply (StronglySorted_unique_strong (fun a b => exposedRoutes_Less b a = false)).
  - intros x y _ _ Hxy Hyx. now apply exposedRoutes_Less_total.
  - apply Hsorted.
  - apply Hsorted.
  - unfold sortExposed.
    rewrite <- !GoSortFacts.insertionSort_Permutation. exact Hp.
Qed.

Lemma sortExposed_order_independent_witness :
  sortExposed ["http://b.io"; "route/x has no host set"; "https://a.io (redirects)"]
  = sortExposed ["route/x has no host set"; "https://a.io (redirects)"; "http://b.io"].
Proof.
  apply (proj2 (proj2 (sortExposed_sorted_and_order_independent _))).
  apply Permutation_cons_append.
Defined.

(** *** What [describeRouteExposed] writes *)

Lemma describeRouteExposed_shape (host : string) (route : Route) (errors : bool) :
  describeRouteExposed host route errors
  = schemeOf route +:+ (host +:+ exposedTail route errors).
Proof.
  unfold describeRouteExposed, exposedTail, schemeOf.
  destruct (TLS route) as [tls|].
  - destruct (Termination tls), (InsecureEdgeTerminationPolicy tls),
      (Port route) as [port|];
      try destruct (0 <? len (Ports.IntOrString_String (TargetPort port)));
      now rewrite ?append_assoc, ?append_nil.
  - destruct (Port route) as [port|];
      try destruct (0 <? len (Ports.IntOrString_String (TargetPort port)));
      now rewrite ?append_assoc, ?append_nil.
Qed.

Lemma exposedTail_starts (route : Route) (errors : bool) :
  exposedTail route errors = ""
  \/ exists r, exposedTail route errors = String " "%char r.
Proof.
  unfold exposedTail.
  destruct (TLS route) as [tls|];
    [destruct (Termination tls), (InsecureEdgeTerminationPolicy tls)|];
    destruct (Port route) as [port|];
    try destruct (0 <? len (Ports.IntOrString_String (TargetPort port)));
    destruct errors;
    rewrite ?append_nil, ?append_cons;
    first [now left | right; eexists; reflexivity].
Qed.

Lemma schemeRank_exposed (host : string) (route : Route) (errors : bool) :
  schemeRank (describeRouteExposed host route errors)
  = match TLS route with None => 1 | Some _ => 0 end.
Proof.
  rewrite describeRouteExposed_shape. unfold schemeOf, schemeRank.
  destruct (TLS route).
  - now rewrite HasPrefix_append.
  - rewrite HasPrefix_append.
    replace (HasPrefix ("http://" +:+ (host +:+ exposedTail route errors)) "https://")
      with false; [reflexivity|].
    rewrite !append_cons. reflexivity.
Qed.

Lemma hostLen_exposed (host : string) (route : Route) (errors : bool) :
  containsByte host " "%char = false ->
  hostLen (describeRouteExposed host route errors)
  = len (schemeOf route) + len host.
Proof.
  intros Hh. unfold hostLen. rewrite schemeRank_exposed.
  rewrite describeRouteExposed_shape, <- append_assoc.
  rewrite segmentLen_word.
  - rewrite len_append. now destruct (TLS route).
  - rewrite containsByte_append, Hh. unfold schemeOf. now destruct (TLS route).
  - apply exposedTail_starts.
Qed.

(** X4. How the lines of [describeRouteExposed] sort under
    [exposedRoutes.Less]: a route with TLS comes before a route without,
    whatever the hosts; and of two routes that both have TLS or both have
    none, the one with the shorter host comes first, whatever follows the
    host, provided the hosts contain no space. *)
Theorem exposed_routes_order (h1 h2 : string) (r1 r2 : Route) (e1 e2 : bool) :
  (TLS r1 <> None -> TLS r2 = None ->
     exposedRoutes_Less (describeRouteExposed h1 r1 e1)
                        (describeRouteExposed h2 r2 e2) = true)
  /\ ((TLS r1 = None <-> TLS r2 = None) ->
      containsByte h1 " "%char = false -> containsByte h2 " "%char = false ->
      len h1 < len h2 ->
      exposedRoutes_Less (describeRouteExposed h1 r1 e1)
                         (describeRouteExposed h2 r2 e2) = true).
Proof.
  split.
  - intros H1 H2. rewrite exposedRoutes_Less_key. unfold routeKeyLess, tripleLess.
    rewrite !schemeRank_exposed, H2. destruct (TLS r1); [reflexivity|congruence].
  - intros Hsame Hh1 Hh2 Hlen.
    rewrite exposedRoutes_Less_key. unfold routeKeyLess, tripleLess.
    rewrite !schemeRank_exposed, !hostLen_exposed by assumption.
    unfold schemeOf.
    destruct (TLS r1) as [t1|], (TLS r2) as [t2|].
    + change (0 <? 0) with false. cbv iota.
      destruct (Z.ltb_spec (len "https://" + len h1) (len "https://" + len h2));
        [reflexivity|lia].
    + exfalso. destruct Hsame as [_ Hs]. now specialize (Hs eq_refl).
    + exfalso. destruct Hsame as [Hs _]. now specialize (Hs eq_refl).
    + change (1 <? 1) with false. cbv iota.
      destruct (Z.ltb_spec (len "http://" + len h1) (len "http://" + len h2));
        [reflexivity|lia].
Qed.

Lemma exposed_routes_order_witness :
  exposedRoutes_Less
    (describeRouteExposed "www.example.com"
       {| Name := "secure"; Namespace := "test"; SpecHost := "www.example.com";
          TLS := Some {| Termination := TLSTerminationEdge;
                         InsecureEdgeTerminationPolicy :=
                           InsecureEdgeTerminationPolicyRedirect |};
          Port := None; Ingress := [] |} false)
    (describeRouteExposed "a.io"
       {| Name := "plain"; Namespace := "test"; SpecHost := "a.io";
          TLS := None; Port := None; Ingress := [] |} true) = true.
Proof.
  apply (proj1 (exposed_routes_order _ _ _ _ _ _)); [discriminate|reflexivity].
Defined.

(** *** [extractRouteInfo] *)

Lemma extractLoop_closed (specHost : string) (ingresses : list RouteIngress) :
  extractLoop specHost ingresses
  = (existsb (fun i => negb (rejected i)
                       && String.eqb specHost (Host i)) ingresses,
     map Host (List.filter
                 (fun i => negb (rejected i)
                           && negb (String.eqb specHost (Host i))) ingresses),
     list_to_set (map AdmittedReason
                    (List.filter rejected
                       ingresses))).
Proof.
  unfold extractLoop.
  match goal with |- fold_left ?f _ _ = _ => set (step := f) end.
  assert (Hgen : forall (req : bool) (other : list string) (reasons : gset string),
    fold_left step ingresses (req, other, reasons)
    = (req || existsb (fun i => negb (rejected i)
                                && String.eqb specHost (Host i)) ingresses,
       other ++ map Host (List.filter
                 (fun i => negb (rejected i)
                           && negb (String.eqb specHost (Host i))) ingresses),
       reasons ∪ list_to_set (map AdmittedReason (List.filter rejected ingresses)))).
  { induction ingresses as [|i l IH]; intros req other reasons.
    - cbn. rewrite orb_false_r, app_nil_r. f_equal. symmetry. apply union_empty_r_L.
    - cbn [fold_left existsb List.filter].
      assert (Hstep : step (req, other, reasons) i =
                if rejected i then (req, other, {[AdmittedReason i]} ∪ reasons)
                else if String.eqb specHost (Host i) then (true, other, reasons)
                else (req, other ++ [Host i], reasons)).
      { unfold step, rejected. now destruct (AdmittedStatus i). }
      rewrite Hstep.
      destruct (rejected i); cbn [negb andb orb map list_to_set].
      + rewrite IH. f_equal.
        rewrite (union_comm_L {[AdmittedReason i]} reasons). symmetry.
        apply union_assoc_L.
      + destruct (String.eqb specHost (Host i)); cbn [negb andb orb map];
          rewrite IH; rewrite ?orb_true_r, <- ?app_assoc; reflexivity. }
  rewrite Hgen. cbn [orb app]. f_equal. apply union_empty_l_L.
Qed.

Lemma sortedList_Permutation (s : gset string) :
  Permutation (elements s) (sortedList s).
Proof. apply GoSortFacts.insertionSort_Permutation. Qed.

Lemma sortedList_elem (s : gset string) (x : string) : x ∈ sortedList s <-> x ∈ s.
Proof. now rewrite <- sortedList_Permutation, elem_of_elements. Qed.

Lemma strictly_sorted (l : list string) :
  GoSort.inOrder GoStr.lt l -> NoDup l ->
  StronglySorted (fun a b => GoStr.lt a b = true) l.
Proof.
  unfold GoSort.inOrder. induction 1 as [|x l Hs IH Hx]; intros Hnd; [constructor|].
  apply NoDup_cons in Hnd as [Hnin Hnd]. constructor; [now apply IH|].
  rewrite Forall_forall in *. intros y Hy. specialize (Hx y Hy).
  destruct (GoStr.lt x y) eqn:Hxy; [reflexivity|].
  exfalso. apply Hnin. now rewrite (lt_total _ _ Hxy Hx).
Qed.

Lemma sortedList_strict (s : gset string) :
  StronglySorted (fun a b => GoStr.lt a b = true) (sortedList s).
Proof.
  apply strictly_sorted.
  - apply GoSortFacts.insertionSort_inOrder.
    + apply lt_asym.
    + apply MarkersFacts.lt_negtrans.
  - rewrite <- sortedList_Permutation. apply NoDup_elements.
Qed.

(** X5. [extractRouteInfo] sorts the ingresses of a route three ways. The
    route counts as requested when an ingress that is not rejected has the
    host of the route; the other hosts are those of the remaining
    ingresses that are not rejected, in their order; and the errors are the
    reasons of the rejected ingresses, each once, in increasing order. *)
Theorem extractRouteInfo_sorts_ingresses (route : Route) :
  ((extractRouteInfo route).1.1 = true <->
     exists i, i ∈ Ingress route /\ AdmittedStatus i <> ConditionFalse
               /\ Host i = SpecHost route)
  /\ (extractRouteInfo route).1.2
     = map Host (List.filter
                   (fun i => negb (rejected i)
                             && negb (String.eqb (SpecHost route) (Host i)))
                   (Ingress route))
  /\ (forall reason, reason ∈ (extractRouteInfo route).2 <->
        exists i, i ∈ Ingress route /\ AdmittedStatus i = ConditionFalse
                  /\ AdmittedReason i = reason)
  /\ StronglySorted (fun a b => GoStr.lt a b = true) (extractRouteInfo route).2.
Proof.
  unfold extractRouteInfo. rewrite extractLoop_closed. cbn [fst snd].
  split; [|split; [reflexivity|split; [|apply sortedList_strict]]].
  - rewrite existsb_exists. split.
    + intros (i & Hin & Hi). apply andb_true_iff in Hi as [Hs Hh].
      exists i. split; [now apply list_elem_of_In|].
      apply String.eqb_eq in Hh. split; [|auto].
      intros E. unfold rejected in Hs. now rewrite E in Hs.
    + intros (i & Hin & Hs & Hh). exists i. split; [now apply list_elem_of_In|].
      apply andb_true_iff. split.
      * unfold rejected. now destruct (AdmittedStatus i).
      * apply String.eqb_eq. auto.
  - intros reason. rewrite sortedList_elem, elem_of_list_to_set, list_elem_of_fmap.
    split.
    + intros (i & -> & Hin). apply list_elem_of_In, List.filter_In in Hin as [Hin Hs].
      exists i. split; [now apply list_elem_of_In|].
      unfold rejected in Hs. now destruct (AdmittedStatus i).
    + intros (i & Hin & Hs & <-). exists i. split; [reflexivity|].
      apply list_elem_of_In, List.filter_In. split; [now apply list_elem_of_In|].
      unfold rejected. now rewrite Hs.
Qed.

Lemma extractRouteInfo_witness :
  (extractRouteInfo
     {| Name := "web"; Namespace := "test"; SpecHost := "www.example.com";
        TLS := None; Port := None;
        Ingress := [{| Host := "www.example.com"; AdmittedStatus := ConditionTrue;
                       AdmittedReason := "" |}] |}).1.1 = true.
Proof.
  apply (proj1 (extractRouteInfo_sorts_ingresses _)).
  exists {| Host := "www.example.com"; AdmittedStatus := ConditionTrue;
            AdmittedReason := "" |}.
  split; [apply list_elem_of_here|]. split; [discriminate|reflexivity].
Defined.

(** *** [describeRouteInServiceGroup] *)

Lemma fold_append_map {A B} (f : A -> B) (l : list A) (acc : list B) :
  fold_left (fun lines s => lines ++ [f s]) l acc = acc ++ map f l.
Proof.
  revert acc. induction l as [|x l IH]; intros acc; cbn.
  - now rewrite app_nil_r.
  - rewrite IH, <- app_assoc. reflexivity.
Qed.

Lemma route_name_shape (f : namespacedFormatter) (name namespace : string) :
  exists rest, ResourceName f (Node RouteNode name namespace) = "route/" +:+ rest.
Proof.
  cbn [ResourceName]. unfold namespaceNameWithType.
  destruct (_ || _ || _); eexists; rewrite !append_cons, append_nil; reflexivity.
Qed.

(** An ingress list that yields nothing is empty. *)
Lemma extract_nothing (route : Route) :
  extractRouteInfo route = (false, [], []) -> Ingress route = [].
Proof.
  unfold extractRouteInfo. rewrite extractLoop_closed. intros E.
  apply pair_equal_spec in E as [E Herr]. apply pair_equal_spec in E as [Hreq Hoth].
  destruct (Ingress route) as [|i l]; [reflexivity|]. exfalso.
  cbn [existsb List.filter map] in *.
  destruct (rejected i) eqn:Hr.
  - cbn [list_to_set map] in Herr.
    assert (Hin : AdmittedReason i ∈ sortedList
              ({[AdmittedReason i]} ∪ list_to_set (map AdmittedReason (List.filter rejected l)))).
    { apply sortedList_elem. set_solver. }
    rewrite Herr in Hin. now apply not_elem_of_nil in Hin.
  - cbn [negb andb] in *. destruct (String.eqb (SpecHost route) (Host i)).
    + discriminate.
    + cbn [negb map] in Hoth. discriminate.
Qed.

Lemma describeRouteInServiceGroup_shape (f : namespacedFormatter) (routeNode : Route) :
  describeRouteInServiceGroup f routeNode <> []
  /\ forall line, line ∈ describeRouteInServiceGroup f routeNode ->
      (exists host errors, line = describeRouteExposed host routeNode errors)
      \/ HasPrefix line
           (ResourceName f (Node RouteNode (Name routeNode) (Namespace routeNode)))
         = true.
Proof.
  unfold describeRouteInServiceGroup.
    pose proof (extract_nothing routeNode) as Hnothing.
    destruct (extractRouteInfo routeNode) as [[requested other] errors].
    rewrite fold_append_map.
    set (name := ResourceName f (Node RouteNode (Name routeNode) (Namespace routeNode))).
    set (hasErrors := 0 <? Z.of_nat (length errors)).
    assert (Hexposed : forall line (l : list string),
              line ∈ map (fun s => describeRouteExposed s routeNode hasErrors) l ->
              exists host errs, line = describeRouteExposed host routeNode errs).
    { intros line l Hin. apply list_elem_of_fmap in Hin as (s & -> & _). eauto. }
    destruct requested.
    - cbn [app]. split; [discriminate|].
      intros line Hin. left. apply elem_of_cons in Hin as [->|Hin]; [eauto|].
      now apply (Hexposed line other).
    - cbn [app]. destruct other as [|o other].
      + cbn [map]. destruct errors as [|reason errors].
        * destruct (len (SpecHost routeNode) =? 0).
          -- cbn [app]. split; [discriminate|]. intros line Hin.
             apply list_elem_of_singleton in Hin as ->. right. apply HasPrefix_append.
          -- rewrite (Hnothing eq_refl). cbn [length app Z.of_nat Z.eqb].
             split; [discriminate|]. intros line Hin.
             apply list_elem_of_singleton in Hin as ->. left. eauto.
        * cbn [app]. split; [discriminate|]. intros line Hin.
          apply list_elem_of_singleton in Hin as ->. right. apply HasPrefix_append.
      + cbn [map]. split; [discriminate|]. intros line Hin. left.
        now apply (Hexposed line (o :: other)).
Qed.

(** X6. [describeRouteInServiceGroup] always returns at least one line.
    Each line is either a line of [describeRouteExposed] for this route or
    starts with the name of the route; the generic line "exposed as ... by
    ..." of its last case is never returned, because a route with
    ingresses always yields a host or a reason. *)
Theorem describeRouteInServiceGroup_lines (f : namespacedFormatter) (routeNode : Route) :
  describeRouteInServiceGroup f routeNode <> []
  /\ (forall line, line ∈ describeRouteInServiceGroup f routeNode ->
        (exists host errors, line = describeRouteExposed host routeNode errors)
        \/ HasPrefix line
             (ResourceName f (Node RouteNode (Name routeNode) (Namespace routeNode)))
           = true)
  /\ (forall line, line ∈ describeRouteInServiceGroup f routeNode ->
        HasPrefix line "exposed as " = false).
Proof.
  destruct (describeRouteInServiceGroup_shape f routeNode) as [Hne Hlines].
  split; [exact Hne|]. split; [exact Hlines|].
  intros line Hin. destruct (Hlines line Hin) as [(host & errs & ->)|Hname].
  - rewrite describeRouteExposed_shape. unfold schemeOf.
    destruct (TLS routeNode); rewrite !append_cons; reflexivity.
  - apply HasPrefix_split in Hname.
    destruct (route_name_shape f (Name routeNode) (Namespace routeNode)) as [rest Hr].
    rewrite Hname, Hr, append_assoc, !append_cons. reflexivity.
Qed.

Lemma describeRouteInServiceGroup_witness :
  HasPrefix "route/web not accepted: HostAlreadyClaimed" "exposed as " = false.
Proof.
  apply (proj2 (proj2 (describeRouteInServiceGroup_lines
           {| hideNamespace := false; currentNamespace := "test" |}
           {| Name := "web"; Namespace := "test"; SpecHost := "www.example.com";
              TLS := None; Port := None;
              Ingress := [{| Host := "www.example.com";
                             AdmittedStatus := ConditionFalse;
                             AdmittedReason := "HostAlreadyClaimed" |}] |}))).
  vm_compute. apply list_elem_of_here.
Defined.

(** *** The header of a service group *)

Lemma describeServiceInServiceGroup_length (f : namespacedFormatter)
    (svc : ServiceGroup) (exposed : list string) :
  length (describeServiceInServiceGroup f svc exposed) = Nat.max 1 (length exposed).
Proof.
  unfold describeServiceInServiceGroup.
  destruct exposed as [|first [|second rest]]; cbn [length app Nat.max]; try reflexivity.
  destruct (bool_decide _); [reflexivity|].
  destruct (String.eqb _ _); [reflexivity|]. now destruct (len _ =? 0).
Qed.

Lemma fold_append_length {A} (g : A -> list string) (l : list A) (acc : list string) :
  (forall x, g x <> []) ->
  (length acc + length l <= length (fold_left (fun e x => e ++ g x) l acc))%nat.
Proof.
  intros Hg. revert acc. induction l as [|x l IH]; intros acc; cbn [fold_left length].
  - lia.
  - specialize (IH (acc ++ g x)). rewrite length_app in IH.
    specialize (Hg x). destruct (g x); [contradiction|]. cbn [length] in IH. lia.
Qed.

(** X7. The header [Describe] prints for a service group has at least one
    line, and at least one line for each route that exposes the service.
    When there is such a route, the header consists of the sorted route
    lines, the first one followed by the name of the service in
    parentheses: the cluster IP and the ports are not shown. *)
Theorem serviceHeader_lines (f : namespacedFormatter) (service : ServiceGroup) :
  (1 <= length (serviceHeader f service))%nat
  /\ (length (ExposingRoutes service) <= length (serviceHeader f service))%nat
  /\ (ExposingRoutes service <> [] ->
      exists first rest,
        sortExposed
          (flat_map (describeRouteInServiceGroup
                       {| hideNamespace := false;
                          currentNamespace := ServiceNamespace (Service service) |})
             (ExposingRoutes service)) = first :: rest
        /\ serviceHeader f service
           = (first +:+ " ("
              +:+ ResourceName f (Node Names.ServiceNode (ServiceName (Service service))
                                    (ServiceNamespace (Service service)))
              +:+ ")") :: rest).
Proof.
  unfold serviceHeader.
  set (local := {| hideNamespace := false;
                   currentNamespace := ServiceNamespace (Service service) |}).
  assert (Hflat : forall (l : list Route) acc,
            fold_left (fun exposes r => exposes ++ describeRouteInServiceGroup local r) l acc
            = acc ++ flat_map (describeRouteInServiceGroup local) l).
  { induction l as [|r l IH]; intros acc; cbn [fold_left flat_map].
    - now rewrite app_nil_r.
    - rewrite IH, <- app_assoc. reflexivity. }
  pose proof (fold_append_length (describeRouteInServiceGroup local)
                (ExposingRoutes service) []
                (fun r => proj1 (describeRouteInServiceGroup_shape local r))) as Hlen.
  rewrite Hflat in *. cbn [app length Nat.add] in *.
  set (exposes := flat_map (describeRouteInServiceGroup local) (ExposingRoutes service)) in *.
  rewrite describeServiceInServiceGroup_length.
  assert (Hsl : length (sortExposed exposes) = length exposes).
  { symmetry. apply Permutation_length, GoSortFacts.insertionSort_Permutation. }
  rewrite Hsl. split; [lia|]. split; [lia|].
  intros Hroutes.
  destruct (sortExposed exposes) as [|first rest] eqn:Es.
  - exfalso. destruct (ExposingRoutes service); [contradiction|].
    cbn [length] in *. lia.
  - exists first, rest. split; [reflexivity|].
    unfold describeServiceInServiceGroup. now destruct rest.
Qed.

Lemma serviceHeader_lines_witness :
  exists first rest,
    sortExposed
      (flat_map (describeRouteInServiceGroup
                   {| hideNamespace := false;
                      currentNamespace := ServiceNamespace (Service sampleService) |})
         (ExposingRoutes sampleService)) = first :: rest
    /\ serviceHeader {| hideNamespace := false; currentNamespace := "test" |}
         sampleService
       = (first +:+ " ("
          +:+ ResourceName {| hideNamespace := false; currentNamespace := "test" |}
                (Node Names.ServiceNode (ServiceName (Service sampleService))
                   (ServiceNamespace (Service sampleService)))
          +:+ ")") :: rest.
Proof.
  apply (proj2 (proj2 (serviceHeader_lines
                         {| hideNamespace := false; currentNamespace := "test" |}
                         sampleService))).
  discriminate.
Defined.

End RouteViewFacts.

(** ** Resource names *)
Module NamesFacts.
Import GoStr GoStrFacts GoStrMore Names.

Lemma ResourceName_shape (f : namespacedFormatter) (kind : NodeKind)
    (name namespace : string) :
  ResourceName f (Node kind name namespace)
  = resourceOf kind +:+ String "/"%char
      (name +:+ match shownNamespace f namespace with
                | None => ""
                | Some ns => String "["%char (ns +:+ "]")
                end).
Proof.
  unfold shownNamespace.
  destruct kind; cbn [ResourceName resourceOf]; unfold namespaceNameWithType;
    destruct (_ || _ || _); rewrite ?append_nil_r; reflexivity.
Qed.

Lemma resourceOf_no_slash (kind : NodeKind) :
  containsByte (resourceOf kind) "/"%char = false.
Proof. now destruct kind. Qed.

Lemma resourceOf_inj (k1 k2 : NodeKind) : resourceOf k1 = resourceOf k2 -> k1 = k2.
Proof. destruct k1, k2; cbn; intros E; first [reflexivity|discriminate E]. Qed.

(** X8. The names [ResourceName] gives to nodes can be read back: if two
    nodes whose names contain no bracket get the same text, they are of the
    same kind, have the same name, and the same namespace is shown for
    both (or for neither). *)
Theorem ResourceName_injective (f : namespacedFormatter)
    (k1 k2 : NodeKind) (n1 n2 ns1 ns2 : string) :
  containsByte n1 "["%char = false ->
  containsByte n2 "["%char = false ->
  ResourceName f (Node k1 n1 ns1) = ResourceName f (Node k2 n2 ns2) ->
  k1 = k2 /\ n1 = n2 /\ shownNamespace f ns1 = shownNamespace f ns2.
Proof.
  intros H1 H2. rewrite !ResourceName_shape. intros E.
  apply append_byte_inj in E as [Hk E]; try apply resourceOf_no_slash.
  apply resourceOf_inj in Hk. split; [exact Hk|].
  destruct (shownNamespace f ns1) as [s1|], (shownNamespace f ns2) as [s2|].
  - apply append_byte_inj in E as [Hn E]; try assumption.
    split; [exact Hn|]. f_equal. now apply (append_cancel_r_byte _ _ "]"%char).
  - exfalso. rewrite append_nil_r in E.
    assert (Hc : containsByte n2 "["%char = true).
    { rewrite <- E, containsByte_append, containsByte_cons, Ascii.eqb_refl.
      now rewrite orb_true_r. }
    congruence.
  - exfalso. rewrite append_nil_r in E.
    assert (Hc : containsByte n1 "["%char = true).
    { rewrite E, containsByte_append, containsByte_cons, Ascii.eqb_refl.
      now rewrite orb_true_r. }
    congruence.
  - rewrite !append_nil_r in E. auto.
Qed.

Lemma ResourceName_injective_witness :
  shownNamespace {| hideNamespace := true; currentNamespace := "" |} "test"
  = shownNamespace {| hideNamespace := true; currentNamespace := "" |} "prod".
Proof.
  exact (proj2 (proj2 (ResourceName_injective
           {| hideNamespace := true; currentNamespace := "" |}
           PodNode PodNode "web-1" "web-1" "test" "prod"
           eq_refl eq_refl eq_refl))).
Defined.

(** [namespaceNameWithType] without the bracket restriction: a name with a
    bracket in the current namespace reads like a name in another one. *)
Example ResourceName_bracket_clash :
  ResourceName {| hideNamespace := false; currentNamespace := "test" |}
    (Node PodNode "a[prod]" "test")
  = ResourceName {| hideNamespace := false; currentNamespace := "test" |}
      (Node PodNode "a" "prod").
Proof. reflexivity. Qed.

End NamesFacts.

(** ** Deployments and pod summaries *)
Module DeployFacts.
Import GoStr GoStrFacts GoStrMore Deploy.

Lemma append_nonempty_r (a b : string) : b <> "" -> a +:+ b <> "".
Proof. intros Hb E. apply append_eq_nil in E as [_ E]. contradiction. Qed.

(** X9. The pod summary that follows a controller or a deployment is
    empty exactly when no pod runs, none is wanted and empty summaries are
    not asked for. Otherwise it starts with " - ", and it says that the
    controller is growing or reducing exactly when the number of pods wanted
    differs from the number there is. *)
Theorem describePodSummaryInline_empty (rc : ReplicationController) (includeEmpty : bool) :
  (describePodSummaryInline rc includeEmpty = "" <->
     StatusReplicas rc = 0 /\ SpecReplicas rc = 0 /\ includeEmpty = false)
  /\ (describePodSummaryInline rc includeEmpty <> "" ->
        HasPrefix (describePodSummaryInline rc includeEmpty) " - " = true)
  /\ (SpecReplicas rc = StatusReplicas rc ->
        describePodSummaryInline rc includeEmpty <> "" ->
        describePodSummaryInline rc includeEmpty
        = " - " +:+ describePodSummary rc includeEmpty)
  /\ (SpecReplicas rc < StatusReplicas rc ->
        describePodSummaryInline rc includeEmpty
        = " - " +:+ Itoa (StatusReplicas rc) +:+ "/" +:+ Itoa (SpecReplicas rc)
          +:+ " pods" +:+ " reducing to " +:+ Itoa (SpecReplicas rc))
  /\ (StatusReplicas rc < SpecReplicas rc ->
        describePodSummaryInline rc includeEmpty
        = " - " +:+ Itoa (StatusReplicas rc) +:+ "/" +:+ Itoa (SpecReplicas rc)
          +:+ " pods" +:+ " growing to " +:+ Itoa (SpecReplicas rc)).
Proof.
  assert (Hsum : describePodSummary rc includeEmpty = "" <->
                 StatusReplicas rc = 0 /\ SpecReplicas rc = 0 /\ includeEmpty = false).
  { unfold describePodSummary.
    destruct (Z.eqb_spec (StatusReplicas rc) (SpecReplicas rc)) as [E|E].
    - destruct (Z.eqb_spec (StatusReplicas rc) 0) as [E0|E0].
      + destruct includeEmpty; cbn [negb].
        * split; [discriminate|]. intros (_ & _ & H). discriminate.
        * split; [|reflexivity]. intros _. repeat split; congruence.
      + destruct (1 <? StatusReplicas rc).
        * split; [|tauto]. intros H. now apply append_nonempty_r in H.
        * split; [discriminate|tauto].
    - split; [|lia]. intros H.
      rewrite <- !append_assoc in H. now apply append_nonempty_r in H. }
  assert (Hinline : describePodSummaryInline rc includeEmpty
                    = if len (describePodSummary rc includeEmpty) =? 0 then ""
                      else " - " +:+ describePodSummary rc includeEmpty
                           +:+ (if SpecReplicas rc <? StatusReplicas rc
                                then " reducing to " +:+ Itoa (SpecReplicas rc)
                                else if StatusReplicas rc <? SpecReplicas rc
                                then " growing to " +:+ Itoa (SpecReplicas rc)
                                else "")).
  { unfold describePodSummaryInline.
    destruct (Z.eqb_spec (len (describePodSummary rc includeEmpty)) 0) as [E|E];
      [|reflexivity].
    now apply len_zero in E. }
  assert (Hlen : forall s : string, (len s =? 0) = true <-> s = "").
  { intros s. rewrite Z.eqb_eq. apply len_zero. }
  split; [|split; [|split; [|split]]].
  - rewrite Hinline. destruct (len (describePodSummary rc includeEmpty) =? 0) eqn:E.
    + apply Hlen in E. rewrite <- Hsum. tauto.
    + split; [rewrite !append_cons; discriminate|].
      intros H. apply Hsum, Hlen in H. congruence.
  - rewrite Hinline. destruct (len (describePodSummary rc includeEmpty) =? 0);
      [congruence|]. intros _. apply HasPrefix_append.
  - intros Eq. rewrite Hinline.
    destruct (len (describePodSummary rc includeEmpty) =? 0); [congruence|].
    intros _. rewrite Eq, Z.ltb_irrefl. now rewrite append_nil_r.
  - intros Hlt. rewrite Hinline.
    assert (Hs : describePodSummary rc includeEmpty
                 = Itoa (StatusReplicas rc) +:+ "/" +:+ Itoa (SpecReplicas rc) +:+ " pods").
    { unfold describePodSummary.
      destruct (Z.eqb_spec (StatusReplicas rc) (SpecReplicas rc)); [lia|reflexivity]. }
    destruct (len (describePodSummary rc includeEmpty) =? 0) eqn:E.
    + apply Hlen, Hsum in E. lia.
    + apply Z.ltb_lt in Hlt. rewrite Hlt, Hs. now rewrite !append_assoc.
  - intros Hlt. rewrite Hinline.
    assert (Hs : describePodSummary rc includeEmpty
                 = Itoa (StatusReplicas rc) +:+ "/" +:+ Itoa (SpecReplicas rc) +:+ " pods").
    { unfold describePodSummary.
      destruct (Z.eqb_spec (StatusReplicas rc) (SpecReplicas rc)); [lia|reflexivity]. }
    destruct (len (describePodSummary rc includeEmpty) =? 0) eqn:E.
    + apply Hlen, Hsum in E. lia.
    + destruct (Z.ltb_spec (SpecReplicas rc) (StatusReplicas rc)); [lia|].
      apply Z.ltb_lt in Hlt. rewrite Hlt, Hs. now rewrite !append_assoc.
Qed.

Lemma describePodSummaryInline_witness :
  describePodSummaryInline
    {| Name := "web-1"; CreationTimestamp := 100; SpecReplicas := 3;
       StatusReplicas := 1; DeploymentStatusFor := DeploymentStatusRunning;
       DeploymentVersionFor := 1; DeploymentStatusReasonFor := "" |} false
  = " - 1/3 pods growing to 3".
Proof.
  refine (eq_trans
            (proj2 (proj2 (proj2 (proj2
               (describePodSummaryInline_empty
                  {| Name := "web-1"; CreationTimestamp := 100; SpecReplicas := 3;
                     StatusReplicas := 1; DeploymentStatusFor := DeploymentStatusRunning;
                     DeploymentVersionFor := 1; DeploymentStatusReasonFor := "" |}
                  false)))) _) _);
    reflexivity.
Defined.

(** *** Triggers *)





(** *** [describeDeployments] *)
Section Text.
Variables (formatRelativeTime : Builds.Time -> string) (ToLower : string -> string).

Lemma deploymentLoop_later (test : bool) (count : Z)
    (l : list ReplicationController) :
  count <> -1 ->
  forall i out, 1 <= i ->
    deploymentLoop formatRelativeTime ToLower test count i l out
    = out ++ firstn (Z.to_nat (Z.max 1 (count - i)))
               (map (fun d => describeDeploymentStatus formatRelativeTime ToLower
                                d false test) l).
Proof.
  intros Hc. induction l as [|d l IH]; intros i out Hi; cbn [deploymentLoop map].
  - now rewrite firstn_nil, app_nil_r.
  - destruct (Z.eqb_spec count (-1)) as [|_]; [contradiction|].
    destruct (Z.eqb_spec i 0) as [|_]; [lia|].
    destruct (Z.leb_spec count (i + 1)) as [Hle|Hgt].
    + replace (Z.to_nat (Z.max 1 (count - i))) with 1%nat by lia.
      reflexivity.
    + rewrite IH by lia.
      replace (Z.to_nat (Z.max 1 (count - i)))
        with (S (Z.to_nat (Z.max 1 (count - (i + 1))))) by lia.
      cbn [firstn]. rewrite <- app_assoc. reflexivity.
Qed.

Lemma deploymentLoop_first (test : bool) (count : Z)
    (l : list ReplicationController) (out : list string) :
  count <> -1 ->
  deploymentLoop formatRelativeTime ToLower test count 0 l out
  = out ++ firstn (Z.to_nat (Z.max 1 count))
             (statusLines formatRelativeTime ToLower test l).
Proof.
  intros Hc. destruct l as [|d l]; cbn [deploymentLoop statusLines].
  - now rewrite firstn_nil, app_nil_r.
  - destruct (Z.eqb_spec count (-1)) as [|_]; [contradiction|].
    change (0 =? 0) with true. change (0 + 1) with 1.
    destruct (Z.leb_spec count 1) as [Hle|Hgt].
    + replace (Z.to_nat (Z.max 1 count)) with 1%nat by lia. reflexivity.
    + rewrite deploymentLoop_later by (assumption || lia).
      replace (Z.to_nat (Z.max 1 count)) with (S (Z.to_nat (Z.max 1 (count - 1)))) by lia.
      cbn [firstn]. rewrite <- app_assoc. reflexivity.
Qed.

(** X11. With a count other than -1, [describeDeployments] prints the
    status of the first [count] deployments, and of one deployment even if
    the count is zero or less, the active deployment first and marked as
    the first. Without an active deployment the line that announces the
    next one, if there is one to announce, comes before. So it prints at
    most one line more than the larger of [count] and one. *)
Theorem describeDeployments_count (dc : DeploymentConfig)
    (activeDeployment : option ReplicationController)
    (inactiveDeployments : list ReplicationController) (count : Z) :
  count <> -1 ->
  describeDeployments formatRelativeTime ToLower (Some dc) activeDeployment
    inactiveDeployments count
  = match activeDeployment with
    | None =>
        announcement dc
        ++ firstn (Z.to_nat (Z.max 1 count))
             (statusLines formatRelativeTime ToLower (Test dc) inactiveDeployments)
    | Some active =>
        firstn (Z.to_nat (Z.max 1 count))
          (statusLines formatRelativeTime ToLower (Test dc)
             (active :: inactiveDeployments))
    end
  /\ Z.of_nat (length (describeDeployments formatRelativeTime ToLower (Some dc)
                          activeDeployment inactiveDeployments count))
     <= 1 + Z.max 1 count.
Proof.
  intros Hc.
  assert (Hann : (length (announcement dc) <= 1)%nat).
  { unfold announcement. destruct (LatestVersion dc =? 0); [cbn; lia|].
    destruct (describeDeploymentConfigTriggers dc).2; cbn; lia. }
  assert (Heq : describeDeployments formatRelativeTime ToLower (Some dc) activeDeployment
    inactiveDeployments count
  = match activeDeployment with
    | None =>
        announcement dc
        ++ firstn (Z.to_nat (Z.max 1 count))
             (statusLines formatRelativeTime ToLower (Test dc) inactiveDeployments)
    | Some active =>
        firstn (Z.to_nat (Z.max 1 count))
          (statusLines formatRelativeTime ToLower (Test dc)
             (active :: inactiveDeployments))
    end).
  { unfold describeDeployments. destruct activeDeployment as [active|].
    - now rewrite deploymentLoop_first.
    - unfold announcement.
      destruct (describeDeploymentConfigTriggers dc) as [on auto]. cbn [fst snd].
      rewrite deploymentLoop_first by assumption.
      destruct (LatestVersion dc =? 0); [reflexivity|]. destruct auto; reflexivity. }
  split; [exact Heq|]. rewrite Heq.
  destruct activeDeployment as [active|].
  - pose proof (firstn_le_length (Z.to_nat (Z.max 1 count))
                  (statusLines formatRelativeTime ToLower (Test dc)
                     (active :: inactiveDeployments))). lia.
  - rewrite length_app.
    pose proof (firstn_le_length (Z.to_nat (Z.max 1 count))
                  (statusLines formatRelativeTime ToLower (Test dc) inactiveDeployments)).
    lia.
Qed.

End Text.

Lemma describeDeployments_count_witness :
  Z.of_nat (length (describeDeployments (fun _ => "2 minutes") (fun s => s)
                      (Some {| LatestVersion := 3; Test := false;
                               Triggers := [DeploymentTriggerOnConfigChange] |})
                      None
                      (map (fun v => {| Name := "web"; CreationTimestamp := 100;
                                        SpecReplicas := 0; StatusReplicas := 0;
                                        DeploymentStatusFor := DeploymentStatusComplete;
                                        DeploymentVersionFor := v;
                                        DeploymentStatusReasonFor := "" |})
                           [3; 2; 1; 0])
                      3))
  <= 1 + Z.max 1 3.
Proof.
  apply (proj2 (describeDeployments_count _ _ _ _ _ 3 ltac:(discriminate))).
Defined.

End DeployFacts.

(** ** More on builds: the detail lines *)
Module BuildDetailFacts.
Import Builds.

Section Detail.
Variable describeBuildPhase : Build -> option Time -> string -> bool -> string.

(** The loop over the active builds, when every node holds a build. *)
Lemma activeLines_defined (parentName : string) (pushTargetResolved : bool)
    (activeBuilds : list BuildNode) :
  Forall (fun node => Build_ node <> None) activeBuilds ->
  forall activeOut, exists lines,
    activeLines describeBuildPhase activeBuilds parentName pushTargetResolved activeOut
    = Some (activeOut ++ lines)
    /\ length lines = length activeBuilds
    /\ forall node b, node ∈ activeBuilds -> Build_ node = Some b ->
         describeBuildPhase b None parentName pushTargetResolved ∈ lines.
Proof.
  induction 1 as [|node rest Hnode _ IH]; intros activeOut; cbn [activeLines].
  - exists []. rewrite app_nil_r. split; [reflexivity|]. split; [reflexivity|].
    intros node b Hin. now apply not_elem_of_nil in Hin.
  - unfold phaseOf. destruct (Build_ node) as [b|] eqn:Hb; [|contradiction].
    destruct (IH (activeOut ++ [describeBuildPhase b None parentName pushTargetResolved]))
      as (lines & Heq & Hlen & Hin).
    exists (describeBuildPhase b None parentName pushTargetResolved :: lines).
    split; [|split].
    + rewrite Heq, <- app_assoc. reflexivity.
    + cbn [length]. now rewrite Hlen.
    + intros node' b' Hin' Hb'. apply elem_of_cons in Hin' as [->|Hin'].
      * rewrite Hb in Hb'. injection Hb' as <-. apply elem_of_cons. now left.
      * apply elem_of_cons. right. eapply Hin; eassumption.
Qed.

(** X12. When every node it is given holds a build, and the last
    successful build is not older than the zero time in case there is no
    unsuccessful one, [describeAdditionalBuildDetail] returns lines without
    dereferencing nil: one line for each active build, at most two more, at
    least one whenever there is no successful build, and exactly "not built
    yet" for a build config without any build. *)
Theorem describeAdditionalBuildDetail_defined (bc : BuildConfigNode)
    (lastSuccessfulBuild lastUnsuccessfulBuild : option BuildNode)
    (activeBuilds : list BuildNode) (pushTargetResolved includeSuccess : bool) :
  (forall node, lastSuccessfulBuild = Some node -> Build_ node <> None) ->
  (forall node, lastUnsuccessfulBuild = Some node -> Build_ node <> None) ->
  (lastUnsuccessfulBuild = None ->
     forall node, lastSuccessfulBuild = Some node -> 0 <= buildTimestamp (Build_ node)) ->
  Forall (fun node => Build_ node <> None) activeBuilds ->
  exists out,
    describeAdditionalBuildDetail describeBuildPhase (Some bc) lastSuccessfulBuild
      lastUnsuccessfulBuild activeBuilds pushTargetResolved includeSuccess = Some out
    /\ (lastSuccessfulBuild = None -> out <> [])
    /\ (length activeBuilds <= length out <= 2 + length activeBuilds)%nat
    /\ (forall node b, node ∈ activeBuilds -> Build_ node = Some b ->
          describeBuildPhase b None (BuildConfigName bc) pushTargetResolved ∈ out)
    /\ (lastSuccessfulBuild = None -> lastUnsuccessfulBuild = None ->
        activeBuilds = [] -> out = ["not built yet"]).
Proof.
  intros Hs Hf Hz Ha.
  destruct (activeLines_defined (BuildConfigName bc) pushTargetResolved activeBuilds Ha [])
    as (act & Hact & Hlen & Hin).
  cbn [app] in Hact.
  unfold describeAdditionalBuildDetail.
  set (passTime := match lastSuccessfulBuild with
                   | Some node => buildTimestamp (Build_ node) | None => zeroTime end).
  set (failTime := match lastUnsuccessfulBuild with
                   | Some node => buildTimestamp (Build_ node) | None => zeroTime end).
  cbv zeta.
  (* the line of the last successful build *)
  assert (H1 : exists o1,
    match lastSuccessfulBuild with
    | Some node =>
        if includeSuccess || (0 <? Z.of_nat (length activeBuilds))
        then line ← phaseOf describeBuildPhase node (Some passTime) (BuildConfigName bc)
                      pushTargetResolved; Some ([] ++ [line])
        else Some []
    | None => Some []
    end = Some o1
    /\ (length o1 <= 1)%nat /\ (lastSuccessfulBuild = None -> o1 = [])).
  { destruct lastSuccessfulBuild as [node|].
    - destruct (includeSuccess || (0 <? Z.of_nat (length activeBuilds))).
      + unfold phaseOf. specialize (Hs node eq_refl).
        destruct (Build_ node) as [b|]; [|contradiction].
        eexists. split; [reflexivity|]. split; [cbn; lia|discriminate].
      + exists []. split; [reflexivity|]. split; [cbn; lia|discriminate].
    - exists []. split; [reflexivity|]. split; [cbn; lia|reflexivity]. }
  destruct H1 as (o1 & -> & Ho1 & Ho1nil). cbn [mbind option_bind].
  (* the line of the last unsuccessful build *)
  assert (H2 : exists o2,
    (if Before passTime failTime
     then match lastUnsuccessfulBuild with
          | None => None
          | Some node =>
              line ← phaseOf describeBuildPhase node (Some failTime) (BuildConfigName bc)
                       pushTargetResolved; Some (o1 ++ [line])
          end
     else Some o1) = Some o2
    /\ (length o2 <= 2)%nat
    /\ (lastSuccessfulBuild = None -> lastUnsuccessfulBuild = None -> o2 = [])).
  { destruct (Before passTime failTime) eqn:Hb.
    - destruct lastUnsuccessfulBuild as [node|].
      + unfold phaseOf. specialize (Hf node eq_refl).
        destruct (Build_ node) as [b|]; [|contradiction].
        eexists. split; [reflexivity|]. split; [rewrite length_app; cbn; lia|discriminate].
      + exfalso. unfold Before in Hb. apply Z.ltb_lt in Hb.
        subst failTime passTime. unfold zeroTime in Hb.
        destruct lastSuccessfulBuild as [node|]; [|unfold zeroTime in Hb; lia].
        specialize (Hz eq_refl node eq_refl). lia.
    - exists o1. split; [reflexivity|]. split; [lia|]. intros Hn _. auto. }
  destruct H2 as (o2 & -> & Ho2 & Ho2nil). cbn [mbind option_bind].
  (* the active builds *)
  assert (H3 : exists o3,
    match activeBuilds with
    | [] => Some o2
    | first :: _ =>
        activeOut ← activeLines describeBuildPhase activeBuilds (BuildConfigName bc)
                      pushTargetResolved [];
        if Before (buildTimestamp (Build_ first))
             (if After passTime failTime then passTime else failTime)
        then Some (o2 ++ activeOut) else Some (activeOut ++ o2)
    end = Some o3
    /\ length o3 = (length o2 + length activeBuilds)%nat
    /\ (forall line, line ∈ act -> line ∈ o3)
    /\ (activeBuilds = [] -> o3 = o2)).
  { destruct activeBuilds as [|first rest] eqn:Hab.
    - exists o2. split; [reflexivity|]. split; [cbn; lia|].
      split; [|reflexivity]. destruct act; [|discriminate].
      intros line Hl. now apply not_elem_of_nil in Hl.
    - rewrite Hact. cbn [mbind option_bind].
      destruct (Before _ _); eexists; (split; [reflexivity|]);
        rewrite length_app, Hlen;
        (split; [lia|]); (split; [|discriminate]);
        intros line Hl; apply elem_of_app; auto. }
  destruct H3 as (o3 & -> & Ho3 & Ho3in & Ho3nil). cbn [mbind option_bind].
  destruct o3 as [|x o3].
  - destruct lastSuccessfulBuild as [node|].
    + exists []. split; [reflexivity|]. split; [discriminate|].
      cbn [length] in *. split; [lia|]. split; [|discriminate].
      intros n b Hn Hb. eapply Ho3in, Hin; eassumption.
    + exists ["not built yet"]. split; [reflexivity|]. split; [discriminate|].
      cbn [length] in *. split; [lia|]. split; [|reflexivity].
      intros n b Hn Hb. exfalso.
      eapply not_elem_of_nil, Ho3in, Hin; eassumption.
  - exists (x :: o3).
    split; [now destruct lastSuccessfulBuild|]. split; [intros _; discriminate|].
    split; [lia|]. split.
    + intros n b Hn Hb. eapply Ho3in, Hin; eassumption.
    + intros Hn1 Hn2 Hn3. pose proof (Ho3nil Hn3) as E.
      rewrite (Ho2nil Hn1 Hn2) in E. discriminate.
Qed.

End Detail.

Lemma describeAdditionalBuildDetail_witness :
  exists out,
    describeAdditionalBuildDetail (fun b _ _ _ => Name b)
      (Some {| BuildConfigName := "app" |}) None None
      [{| Build_ := Some {| Name := "app-1"; CreationTimestamp := 10;
                            StartTimestamp := None; CompletionTimestamp := None |} |}]
      true true = Some out
    /\ "app-1" ∈ out.
Proof.
  destruct (describeAdditionalBuildDetail_defined (fun b _ _ _ => Name b)
              {| BuildConfigName := "app" |} None None
              [{| Build_ := Some {| Name := "app-1"; CreationTimestamp := 10;
                                    StartTimestamp := None;
                                    CompletionTimestamp := None |} |}]
              true true)
    as (out & Heq & _ & _ & Hin & _).
  - discriminate.
  - discriminate.
  - discriminate.
  - repeat constructor. discriminate.
  - exists out. split; [exact Heq|].
    eapply (Hin _ {| Name := "app-1"; CreationTimestamp := 10;
                     StartTimestamp := None; CompletionTimestamp := None |});
      [apply elem_of_cons; now left|reflexivity].
Defined.

End BuildDetailFacts.

(** ** The identification of a build *)
Module BuildPhaseFacts.
Import GoStr GoStrFacts GoStrMore BuildPhase.

Lemma digitValue_digit (d : Z) : 0 <= d <= 9 -> digitValue (digit d) = Some d.
Proof.
  intros Hd.
  assert (H : d = 0 \/ d = 1 \/ d = 2 \/ d = 3 \/ d = 4 \/ d = 5 \/ d = 6 \/ d = 7
              \/ d = 8 \/ d = 9) by lia.
  repeat (destruct H as [->|H]; [reflexivity|]). now subst.
Qed.

Lemma digit_not_sign (d : Z) :
  0 <= d <= 9 -> Ascii.eqb (digit d) "+" = false /\ Ascii.eqb (digit d) "-" = false.
Proof.
  intros Hd.
  assert (H : d = 0 \/ d = 1 \/ d = 2 \/ d = 3 \/ d = 4 \/ d = 5 \/ d = 6 \/ d = 7
              \/ d = 8 \/ d = 9) by lia.
  repeat (destruct H as [->|H]; [split; reflexivity|]). subst. split; reflexivity.
Qed.

(** Reading back the digits that [digits] writes. *)
Lemma parseDigits_digits (fuel : nat) :
  forall n acc, 0 < n < 2 ^ 64 -> n < 2 ^ Z.of_nat fuel ->
    parseDigits (digits fuel n acc) 0 = parseDigits acc n.
Proof.
  induction fuel as [|fuel IH]; intros n acc Hn Hf.
  - change (2 ^ Z.of_nat 0) with 1 in Hf. lia.
  - cbn [digits].
    assert (Hmod : 0 <= n mod 10 <= 9) by (pose proof (Z.mod_pos_bound n 10); lia).
    assert (Hdm : n = 10 * (n / 10) + n mod 10) by (apply Z.div_mod; lia).
    assert (Hdiv : 0 <= n / 10) by (apply Z.div_pos; lia).
    destruct (Z.eqb_spec (n / 10) 0) as [E|E].
    + cbn [parseDigits]. rewrite digitValue_digit by assumption.
      replace (0 * 10 + n mod 10) with n by lia.
      destruct (Z.leb_spec (2 ^ 64) n); [lia|reflexivity].
    + rewrite IH.
      * cbn [parseDigits]. rewrite digitValue_digit by assumption.
        replace (n / 10 * 10 + n mod 10) with n by lia.
        destruct (Z.leb_spec (2 ^ 64) n); [lia|reflexivity].
      * lia.
      * rewrite Nat2Z.inj_succ, Z.pow_succ_r in Hf by lia. lia.
Qed.

(** The first byte of what [digits] writes is a digit. *)
Lemma digits_head (fuel : nat) :
  forall n acc,
    (0 < fuel)%nat \/ (exists d r, 0 <= d <= 9 /\ acc = String (digit d) r) ->
    exists d r, 0 <= d <= 9 /\ digits fuel n acc = String (digit d) r.
Proof.
  induction fuel as [|fuel IH]; intros n acc H.
  - destruct H as [H|H]; [lia|exact H].
  - cbn [digits].
    assert (Hmod : 0 <= n mod 10 <= 9) by (pose proof (Z.mod_pos_bound n 10); lia).
    destruct (n / 10 =? 0).
    + now exists (n mod 10), acc.
    + apply IH. right. now exists (n mod 10), acc.
Qed.

Lemma fuel_enough (n : Z) : 0 < n -> n < 2 ^ Z.of_nat (S (Z.to_nat (Z.log2 n))).
Proof.
  intros Hn. pose proof (Z.log2_nonneg n). pose proof (Z.log2_spec n Hn).
  rewrite Nat2Z.inj_succ, Z2Nat.id by assumption. lia.
Qed.

(** Reading an unsigned number back. *)
Lemma Atoi_digits (n : Z) :
  0 < n < 2 ^ 63 ->
  Atoi (digits (S (Z.to_nat (Z.log2 n))) n "") = Some n.
Proof.
  intros Hn.
  destruct (digits_head (S (Z.to_nat (Z.log2 n))) n "") as (d & r & Hd & Hr);
    [left; lia|].
  assert (Hp : parseDigits (digits (S (Z.to_nat (Z.log2 n))) n "") 0 = Some n).
  { rewrite parseDigits_digits; [reflexivity|lia|apply fuel_enough; lia]. }
  rewrite Hr in *. unfold Atoi.
  destruct (digit_not_sign d Hd) as [-> ->]. cbn [orb negb andb].
  rewrite Hp. destruct (Z.leb_spec (2 ^ 63) n); [lia|reflexivity].
Qed.

(** [strconv.Atoi] reads back what [strconv.Itoa] writes. *)
Lemma Atoi_Itoa (n : Z) : - 2 ^ 63 <= n < 2 ^ 63 -> Atoi (Itoa n) = Some n.
Proof.
  intros Hn. unfold Itoa.
  destruct (Z.eqb_spec n 0) as [->|Hz]; [reflexivity|].
  destruct (Z.ltb_spec n 0) as [Hneg|Hpos].
  - destruct (digits_head (S (Z.to_nat (Z.log2 (- n)))) (- n) "") as (d & r & Hd & Hr);
      [left; lia|].
    assert (Hp : parseDigits (digits (S (Z.to_nat (Z.log2 (- n)))) (- n) "") 0
                 = Some (- n)).
    { rewrite parseDigits_digits; [reflexivity|lia|apply fuel_enough; lia]. }
    unfold Atoi. change (Ascii.eqb "-" "+") with false.
    change (Ascii.eqb "-" "-") with true. cbn [orb negb andb].
    rewrite Hr in *. rewrite Hp.
    destruct (Z.ltb_spec (2 ^ 63) (- n)); [lia|]. f_equal. lia.
  - apply Atoi_digits. lia.
Qed.

(** A plus sign before the number is read as well. *)
Lemma Atoi_plus (n : Z) : 0 <= n < 2 ^ 63 -> Atoi (String "+" (Itoa n)) = Some n.
Proof.
  intros Hn. unfold Itoa.
  destruct (Z.eqb_spec n 0) as [->|Hz]; [reflexivity|].
  destruct (Z.ltb_spec n 0) as [Hneg|Hpos]; [lia|].
  destruct (digits_head (S (Z.to_nat (Z.log2 n))) n "") as (d & r & Hd & Hr);
    [left; lia|].
  assert (Hp : parseDigits (digits (S (Z.to_nat (Z.log2 n))) n "") 0 = Some n).
  { rewrite parseDigits_digits; [reflexivity|lia|apply fuel_enough; lia]. }
  unfold Atoi. change (Ascii.eqb "+" "+") with true.
  change (Ascii.eqb "+" "-") with false. cbn [orb negb andb].
  rewrite Hr in *. rewrite Hp.
  destruct (Z.leb_spec (2 ^ 63) n); [lia|reflexivity].
Qed.

Lemma slice_from_append (p s : string) : slice_from (String.length p) (p +:+ s) = s.
Proof.
  induction p as [|c p IH]; [now rewrite append_nil; destruct s|].
  rewrite append_cons. cbn [String.length slice_from]. exact IH.
Qed.

Lemma buildIdentification_suffix (parentName suffix : string) :
  buildIdentification (parentName +:+ "-" +:+ suffix) parentName
  = match Atoi suffix with
    | Some buildNumber => "build #" +:+ Itoa buildNumber
    | None => "build/" +:+ parentName +:+ "-" +:+ suffix
    end.
Proof.
  unfold buildIdentification. cbv zeta.
  rewrite <- (append_assoc parentName "-" suffix).
  rewrite HasPrefix_append, slice_from_append.
  destruct (Atoi suffix); [reflexivity|].
  now rewrite (append_assoc parentName "-" suffix).
Qed.

Lemma starts_with_space (id rest : string) :
  HasPrefix (id +:+ String " " rest) (id +:+ " ") = true.
Proof.
  change (String " " rest) with (" " +:+ rest).
  rewrite <- append_assoc. apply HasPrefix_append.
Qed.

(** X13. A build named after its parent, a dash and a number between 0
    and [2^63 - 1] is identified by that number, "build #n", at the head of
    the line [describeBuildPhase] writes for it, whatever its phase; a
    build whose name does not start with the name of the parent and a dash
    is identified by its name, "build/name". Since the number is read with
    [strconv.Atoi], which accepts a sign, a build named with a plus sign
    before the number is given the same identification. *)
Theorem buildIdentification_numbered (formatRelativeTime : Builds.Time -> string)
    (ToLower : string -> string) (parentName : string) (n : Z) :
  0 <= n < 2 ^ 63 ->
  buildIdentification (parentName +:+ "-" +:+ Itoa n) parentName = "build #" +:+ Itoa n
  /\ buildIdentification (parentName +:+ "-" +:+ String "+" (Itoa n)) parentName
     = "build #" +:+ Itoa n
  /\ (forall name, HasPrefix name (parentName +:+ "-") = false ->
        buildIdentification name parentName = "build/" +:+ name)
  /\ (forall build t pushTargetResolved,
        Builds.Name (Meta build) = parentName +:+ "-" +:+ Itoa n ->
        HasPrefix (describeBuildPhase formatRelativeTime ToLower build t parentName
                     pushTargetResolved)
                  ("build #" +:+ Itoa n +:+ " ") = true).
Proof.
  intros Hn. split; [|split; [|split]].
  - rewrite buildIdentification_suffix, Atoi_Itoa by lia. reflexivity.
  - rewrite buildIdentification_suffix, Atoi_plus by lia. reflexivity.
  - intros name Hp. unfold buildIdentification. cbv zeta. now rewrite Hp.
  - intros build t ptr Hname. unfold describeBuildPhase. cbv zeta.
    rewrite Hname, buildIdentification_suffix, Atoi_Itoa by lia.
    rewrite <- (append_assoc "build #" (Itoa n) " ").
    destruct (StatusPhase build); apply starts_with_space.
Qed.

Lemma buildIdentification_numbered_witness :
  buildIdentification "ruby-sample-build-12" "ruby-sample-build" = "build #12".
Proof.
  exact (proj1 (buildIdentification_numbered (fun _ => "") (fun s => s)
                  "ruby-sample-build" 12 ltac:(lia))).
Defined.

(** *** The source revision *)

Lemma substring_prefix (n : nat) (s : string) :
  HasPrefix s (String.substring 0 n s) = true
  /\ String.length (String.substring 0 n s) = Nat.min n (String.length s).
Proof.
  revert s. induction n as [|n IH]; intros s.
  - destruct s; split; reflexivity.
  - destruct s as [|c s]; [split; reflexivity|].
    destruct (IH s) as [Hp Hl]. cbn [String.substring String.length].
    split; [|now rewrite Hl].
    unfold HasPrefix in *. cbn [String.prefix].
    destruct (ascii_dec c c); [exact Hp|contradiction].
Qed.

Lemma describeSourceControlUser_empty (user : SourceControlUser) :
  describeSourceControlUser user = "" <-> UserName user = "" /\ Email user = "".
Proof.
  unfold describeSourceControlUser.
  destruct (Z.eqb_spec (len (UserName user)) 0) as [Hn|Hn].
  - apply len_zero in Hn. rewrite Hn. tauto.
  - destruct (Z.eqb_spec (len (Email user)) 0) as [He|He].
    + apply len_zero in He. rewrite He. tauto.
    + split.
      * intros H. apply append_eq_nil in H as [H _]. apply len_zero in H. contradiction.
      * intros [H _]. apply len_zero in H. contradiction.
Qed.

(** X14. [describeSourceRevision] is empty exactly for a revision that is
    nil or not a git one. For a git revision it writes the commit, cut to
    its first seven bytes, a colon, the message, and in parentheses the
    author, or the committer when the author has neither a name nor an
    email; the parentheses are left out only when neither of the two has
    a name or an email. *)
Theorem describeSourceRevision_shape (git : GitSourceRevision) :
  describeSourceRevision None = ""
  /\ describeSourceRevision (Some {| Git := None |}) = ""
  /\ exists commit author,
       describeSourceRevision (Some {| Git := Some git |})
       = commit +:+ ": " +:+ Message git +:+ author
       /\ describeSourceRevision (Some {| Git := Some git |}) <> ""
       /\ HasPrefix (Commit git) commit = true
       /\ len commit = Z.min 7 (len (Commit git))
       /\ author
          = (if negb (String.eqb (describeSourceControlUser (Author git)) "")
             then " (" +:+ describeSourceControlUser (Author git) +:+ ")"
             else if negb (String.eqb (describeSourceControlUser (Committer git)) "")
             then " (" +:+ describeSourceControlUser (Committer git) +:+ ")"
             else "")
       /\ (author = "" <->
             UserName (Author git) = "" /\ Email (Author git) = ""
             /\ UserName (Committer git) = "" /\ Email (Committer git) = "").
Proof.
  split; [reflexivity|]. split; [reflexivity|].
  unfold describeSourceRevision. cbn [Git]. cbv zeta.
  set (a := describeSourceControlUser (Author git)).
  set (c := describeSourceControlUser (Committer git)).
  pose proof (describeSourceControlUser_empty (Author git)) as Ha. fold a in Ha.
  pose proof (describeSourceControlUser_empty (Committer git)) as Hc. fold c in Hc.
  exists (if 7 <? len (Commit git) then String.substring 0 7 (Commit git)
          else Commit git).
  eexists. split; [reflexivity|].
  split; [|split; [|split; [|split]]].
  - intros H. apply append_eq_nil in H as [_ H]. discriminate.
  - destruct (7 <? len (Commit git)); [apply substring_prefix|].
    unfold HasPrefix. rewrite <- (append_nil_r (Commit git)) at 2.
    apply (HasPrefix_append (Commit git) "").
  - destruct (Z.ltb_spec 7 (len (Commit git))) as [H|H]; [|lia].
    unfold len in *. rewrite (proj2 (substring_prefix 7 (Commit git))). lia.
  - destruct (Z.eqb_spec (len a) 0) as [E|E].
    + apply len_zero in E. rewrite E. cbn [String.eqb negb].
      destruct (Z.eqb_spec (len c) 0) as [E'|E'].
      * apply len_zero in E'. rewrite E'. reflexivity.
      * destruct (String.eqb_spec c ""); [|reflexivity].
        apply len_zero in e. contradiction.
    + destruct (String.eqb_spec a "") as [e|_]; [apply len_zero in e; contradiction|].
      cbn [negb]. destruct (Z.eqb_spec (len a) 0); [contradiction|reflexivity].
  - destruct (Z.eqb_spec (len a) 0) as [E|E].
    + apply len_zero in E.
      destruct (Z.eqb_spec (len c) 0) as [E'|E'].
      * apply len_zero in E'. cbn [negb]. rewrite E'. tauto.
      * cbn [negb]. split; [rewrite !append_cons; discriminate|].
        intros (_ & _ & H). apply Hc in H. apply len_zero in H. contradiction.
    + destruct (Z.eqb_spec (len a) 0); [contradiction|]. cbn [negb].
      split; [rewrite !append_cons; discriminate|].
      intros (H1 & H2 & _). assert (a = "") as H by (apply Ha; tauto).
      apply len_zero in H. contradiction.
Qed.

End BuildPhaseFacts.

(** ** Build and deployment pipelines *)
Module PipelineFacts.
Import GoStr GoStrFacts GoStrMore Names Pipeline.

Lemma indentLines_map (indent : string) (lines : list string) :
  indentLines indent lines = map (fun line => indent +:+ line) lines.
Proof.
  unfold indentLines.
  assert (Hgen : forall (l acc : list string),
            fold_left (fun ret line => ret ++ [indent +:+ line]) l acc
            = acc ++ map (fun line => indent +:+ line) l).
  { induction l as [|x l IH]; intros acc; cbn [fold_left map].
    - now rewrite app_nil_r.
    - rewrite IH, <- app_assoc. reflexivity. }
  apply (Hgen lines []).
Qed.

Lemma describeBuildInPipeline_name (build : BuildConfig)
    (baseImage : option ImageTagLocation) :
  exists rest,
    describeBuildInPipeline build baseImage = "bc/" +:+ Name build +:+ " " +:+ rest.
Proof.
  unfold describeBuildInPipeline.
  destruct (DockerStrategy (Strategy build)).
  { destruct (describeSourceInPipeline (Source build)) as [source [|]]; cbn [negb];
      eexists; rewrite !append_cons, !append_nil; reflexivity. }
  destruct (SourceStrategy (Strategy build)).
  { destruct (describeSourceInPipeline (Source build)) as [source [|]]; cbn [negb];
      [destruct baseImage|];
      eexists; rewrite !append_cons, !append_nil; reflexivity. }
  destruct (CustomStrategy (Strategy build)).
  { destruct (describeSourceInPipeline (Source build)) as [source [|]]; cbn [negb];
      eexists; rewrite !append_cons, !append_nil; reflexivity. }
  eexists; rewrite !append_cons, !append_nil; reflexivity.
Qed.

(** X15. The two descriptions of an image pipeline say the same. With a
    build and an image, [describeImageInPipeline] writes the image, an
    arrow and the build on one line, and [describeStandaloneBuildGroup] the
    build on a first line and "pushes to" the image on a second; with one of
    the two only, or none, the group is the one line of
    [describeImageInPipeline]. The description of a build always starts
    with "bc/", the name of the build config and a space, so that a
    pipeline with a build is never described as "<unknown>". *)
Theorem describeStandaloneBuildGroup_lines (f : namespacedFormatter)
    (pipeline : ImagePipeline) (namespace : string) :
  match Image pipeline, Build pipeline with
  | Some image, Some build =>
      describeImageInPipeline f pipeline namespace
      = describeImageTagInPipeline f image namespace +:+ " <- "
        +:+ describeBuildInPipeline build (BaseImage pipeline)
      /\ describeStandaloneBuildGroup f pipeline namespace
         = [describeBuildInPipeline build (BaseImage pipeline);
            "pushes to " +:+ describeImageTagInPipeline f image namespace]
  | _, _ =>
      describeStandaloneBuildGroup f pipeline namespace
      = [describeImageInPipeline f pipeline namespace]
  end
  /\ (forall build, Build pipeline = Some build ->
        exists rest,
          hd "" (describeStandaloneBuildGroup f pipeline namespace)
          = "bc/" +:+ Name build +:+ " " +:+ rest)
  /\ (describeImageInPipeline f pipeline namespace = "<unknown>" ->
      Build pipeline = None).
Proof.
  unfold describeStandaloneBuildGroup, describeImageInPipeline.
  split; [|split].
  - destruct (Image pipeline), (Build pipeline); try reflexivity. split; reflexivity.
  - intros build ->.
    destruct (describeBuildInPipeline_name build (BaseImage pipeline)) as [rest Hr].
    exists rest. destruct (Image pipeline); exact Hr.
  - destruct (Build pipeline) as [build|]; [|reflexivity].
    intros H. exfalso.
    destruct (describeBuildInPipeline_name build (BaseImage pipeline)) as [rest Hr].
    rewrite Hr in H. destruct (Image pipeline) as [image|].
    + set (tag := describeImageTagInPipeline f image namespace) in *.
      assert (Hc : containsByte (tag +:+ " <- " +:+ "bc/" +:+ Name build +:+ " " +:+ rest)
                     " " = true).
      { rewrite containsByte_append.
        replace (containsByte (" <- " +:+ "bc/" +:+ Name build +:+ " " +:+ rest) " ")
          with true; [apply orb_true_r|].
        rewrite append_cons. symmetry. apply containsByte_cons. }
      rewrite H in Hc. discriminate.
    + rewrite !append_cons in H. discriminate.
Qed.

Lemma describeStandaloneBuildGroup_witness :
  exists rest,
    hd "" (describeStandaloneBuildGroup
             {| hideNamespace := false; currentNamespace := "test" |}
             {| Image := Some (ImageStreamTag "ruby-sample:latest" "test"
                                 "test/ruby-sample:latest");
                Build := Some {| Name := "ruby-sample-build"; Namespace := "test";
                                 Strategy := {| DockerStrategy := false;
                                                SourceStrategy := true;
                                                CustomStrategy := false |};
                                 Source := {| Git := Some {| URI := "git://host/app.git";
                                                            Ref := "" |};
                                              Dockerfile := None |} |};
                LastSuccessfulBuild := None; LastUnsuccessfulBuild := None;
                ActiveBuilds := []; BaseImage := None;
                DestinationResolved := true |} "test")
    = "bc/" +:+ "ruby-sample-build" +:+ " " +:+ rest.
Proof.
  apply (proj1 (proj2 (describeStandaloneBuildGroup_lines _ _ _))
           {| Name := "ruby-sample-build"; Namespace := "test";
              Strategy := {| DockerStrategy := false; SourceStrategy := true;
                             CustomStrategy := false |};
              Source := {| Git := Some {| URI := "git://host/app.git"; Ref := "" |};
                           Dockerfile := None |} |}).
  reflexivity.
Defined.

Section Text.
Variables (formatRelativeTime : Builds.Time -> string) (ToLower : string -> string).
Variable describeBuildPhase :
  Builds.Build -> option Builds.Time -> string -> bool -> string.

(** The loop over the images, when the build detail of each is defined. *)
Lemma imagesLoop_blocks (deploy : DeploymentConfigPipeline) (includeLastPass : bool)
    (images : list ImagePipeline) (details : list (list string)) :
  Forall2 (fun image detail =>
             buildDetail describeBuildPhase image includeLastPass = Some detail)
    images details ->
  forall lines,
    imagesLoop formatRelativeTime ToLower describeBuildPhase
      {| hideNamespace := false; currentNamespace := DeploymentNamespace deploy |}
      deploy includeLastPass images lines
    = Some (lines
            ++ concat (zip_with (imageBlock formatRelativeTime ToLower deploy)
                         images details)).
Proof.
  induction 1 as [|image detail images details Hd _ IH]; intros lines.
  - cbn. now rewrite app_nil_r.
  - cbn [imagesLoop]. rewrite Hd, IH. cbn [zip_with concat]. unfold imageBlock at 2.
    f_equal. cbn [app]. rewrite <- !app_assoc. cbn [app]. reflexivity.
Qed.

(** The loop over the images dereferences nil as soon as the build detail
    of one image does. *)
Lemma imagesLoop_nil (local : namespacedFormatter) (deploy : DeploymentConfigPipeline)
    (includeLastPass : bool) (images : list ImagePipeline) :
  Exists (fun image => buildDetail describeBuildPhase image includeLastPass = None)
    images ->
  forall lines,
    imagesLoop formatRelativeTime ToLower describeBuildPhase local deploy
      includeLastPass images lines = None.
Proof.
  induction images as [|image images IH]; intros Hex lines.
  - inversion Hex.
  - cbn [imagesLoop].
    destruct (buildDetail describeBuildPhase image includeLastPass) eqn:Hd;
      [|reflexivity].
    apply IH. inversion Hex as [? ? Hn|? ? Hn]; subst; [congruence|assumption].
Qed.

(** X16. For a deployment config with no image or with several,
    [describeDeploymentInServiceGroup] writes one line for the deployment
    config and then, for each image, the image, its build detail and the
    status of the deployments: the deployments are described once for
    each image, and not at all when there is no image. It dereferences nil
    exactly when the build detail of one of the images does. *)
Theorem describeDeploymentInServiceGroup_per_image (f : namespacedFormatter)
    (deploy : DeploymentConfigPipeline) :
  length (Images deploy) <> 1%nat ->
  let header :=
    ResourceName f (Node DeploymentConfigNode (DeploymentName deploy)
                      (DeploymentNamespace deploy))
    +:+ (if Deploy.Test (Deployment deploy) then " test deploys " else " deploys ")
    +:+ Deploy.describeDeploymentConfigTrigger (Deployment deploy) in
  let includeLastPass :=
    match ActiveDeployment deploy with None => true | Some _ => false end in
  (forall details,
     Forall2 (fun image detail =>
                buildDetail describeBuildPhase image includeLastPass = Some detail)
       (Images deploy) details ->
     describeDeploymentInServiceGroup formatRelativeTime ToLower describeBuildPhase
       f deploy
     = Some (header
             :: concat (zip_with (imageBlock formatRelativeTime ToLower deploy)
                          (Images deploy) details)))
  /\ (Exists (fun image => buildDetail describeBuildPhase image includeLastPass = None)
        (Images deploy) ->
      describeDeploymentInServiceGroup formatRelativeTime ToLower describeBuildPhase
        f deploy = None)
  /\ (Images deploy = [] ->
      describeDeploymentInServiceGroup formatRelativeTime ToLower describeBuildPhase
        f deploy = Some [header]).
Proof.
  intros Hlen header includeLastPass.
  assert (Hloop :
    describeDeploymentInServiceGroup formatRelativeTime ToLower describeBuildPhase
      f deploy
    = imagesLoop formatRelativeTime ToLower describeBuildPhase
        {| hideNamespace := false; currentNamespace := DeploymentNamespace deploy |}
        deploy includeLastPass (Images deploy) [header]).
  { unfold describeDeploymentInServiceGroup. cbv zeta.
    destruct (Images deploy) as [|image [|image' images]]; [reflexivity| |reflexivity].
    cbn [length] in Hlen. lia. }
  rewrite Hloop. split; [|split].
  - intros details Hd. now rewrite (imagesLoop_blocks _ _ _ _ Hd).
  - intros Hex. now apply imagesLoop_nil.
  - intros ->. reflexivity.
Qed.

End Text.

Lemma describeDeploymentInServiceGroup_per_image_witness :
  describeDeploymentInServiceGroup (fun _ => "2 minutes") (fun s => s)
    (fun b _ _ _ => Builds.Name b)
    {| hideNamespace := false; currentNamespace := "test" |}
    {| DeploymentName := "web"; DeploymentNamespace := "test";
       Deployment := {| Deploy.LatestVersion := 2; Deploy.Test := false;
                        Deploy.Triggers := [Deploy.DeploymentTriggerOnConfigChange] |};
       ActiveDeployment :=
         Some {| Deploy.Name := "web-2"; Deploy.CreationTimestamp := 100;
                 Deploy.SpecReplicas := 1; Deploy.StatusReplicas := 1;
                 Deploy.DeploymentStatusFor := Deploy.DeploymentStatusComplete;
                 Deploy.DeploymentVersionFor := 2;
                 Deploy.DeploymentStatusReasonFor := "" |};
       InactiveDeployments := [];
       Images := [] |}
  = Some ["dc/web deploys "].
Proof.
  refine (proj2 (proj2 (describeDeploymentInServiceGroup_per_image _ _ _ _
                          {| DeploymentName := "web"; DeploymentNamespace := "test";
                             Deployment := {| Deploy.LatestVersion := 2;
                                              Deploy.Test := false;
                                              Deploy.Triggers :=
                                                [Deploy.DeploymentTriggerOnConfigChange] |};
                             ActiveDeployment := _; InactiveDeployments := [];
                             Images := [] |} _)) eq_refl).
  cbn. lia.
Defined.

End PipelineFacts.

(** ** The marker sections *)
Module MarkerTextFacts.
Import GoStr GoStrFacts GoStrMore Names Markers MarkerText.

Lemma printErrors_fold (Suggest : bool) (indent : string) (errorMarkers : list Marker) :
  forall out n,
    fold_left
      (fun '(out, errorSuggestions) marker =>
         let out := out +:+ indent +:+ "* " +:+ Message marker +:+ nl in
         if 0 <? len (Suggestion marker) then
           (if Suggest then out +:+ printSuggestion indent (Suggestion marker) else out,
            errorSuggestions + 1)
         else (out, errorSuggestions))
      errorMarkers (out, n)
    = (out +:+ String.concat ""
                 (map (fun marker =>
                         indent +:+ "* " +:+ Message marker +:+ nl
                         +:+ (if Suggest && (0 <? len (Suggestion marker))
                              then printSuggestion indent (Suggestion marker) else ""))
                    errorMarkers),
       n + (Summary.countSuggestions errorMarkers)).
Proof.
  unfold Summary.countSuggestions.
  assert (Hcount : forall (l : list Marker) k,
            fold_left (fun errorSuggestions marker =>
                         if 0 <? len (Suggestion marker) then errorSuggestions + 1
                         else errorSuggestions) l k
            = k + fold_left (fun errorSuggestions marker =>
                               if 0 <? len (Suggestion marker) then errorSuggestions + 1
                               else errorSuggestions) l 0).
  { induction l as [|m l IH]; intros k; cbn [fold_left]; [lia|].
    rewrite IH. rewrite (IH (if 0 <? len (Suggestion m) then 0 + 1 else 0)).
    destruct (0 <? len (Suggestion m)); lia. }
  induction errorMarkers as [|m l IH]; intros out n.
  - cbn. rewrite append_nil_r. f_equal. lia.
  - cbn [fold_left map]. cbv zeta.
    rewrite (Hcount l (if 0 <? len (Suggestion m) then 0 + 1 else 0)).
    assert (Hconcat : forall (x : string) (xs : list string),
              String.concat "" (x :: xs) = x +:+ String.concat "" xs).
    { intros x [|y xs]; cbn [String.concat]; [now rewrite append_nil_r|].
      now rewrite append_nil. }
    rewrite Hconcat.
    destruct (0 <? len (Suggestion m)); destruct Suggest; cbn [andb];
      rewrite IH; f_equal; rewrite ?append_nil_r, ?append_assoc; try reflexivity; lia.
Qed.

Lemma printErrors_closed (Suggest : bool) (indent : string)
    (errorMarkers : list Marker) :
  printErrors Suggest indent errorMarkers
  = (match errorMarkers with
     | [] => ""
     | _ =>
         ("Errors:" +:+ nl)
         +:+ String.concat ""
               (map (fun marker =>
                       indent +:+ "* " +:+ Message marker +:+ nl
                       +:+ (if Suggest && (0 <? len (Suggestion marker))
                            then printSuggestion indent (Suggestion marker) else ""))
                  errorMarkers)
     end,
     Summary.countSuggestions errorMarkers).
Proof.
  unfold printErrors. destruct errorMarkers as [|m l]; [reflexivity|].
  change (0 <? Z.of_nat (length (m :: l))) with true. cbv iota.
  rewrite printErrors_fold. reflexivity.
Qed.

Lemma printWarnings_silent (indent : string) (warningMarkers : list Marker) :
  printWarnings false indent warningMarkers = "".
Proof.
  unfold printWarnings.
  destruct (0 <? Z.of_nat (length warningMarkers)); [|reflexivity].
  induction warningMarkers as [|m l IH]; [reflexivity|exact IH].
Qed.

(** X17. The counter of the error markers with a suggestion, which
    decides on the summary line, counts them whether suggestions are shown
    or not. Without the suggest mode [Describe] writes for the markers an
    empty line and, when there is an error, "Errors:", one line for each
    error marker and an empty line: neither a suggestion nor a warning is
    written. *)
Theorem printMarkers_without_suggest (allMarkers : list Marker) :
  (forall Suggest, (printMarkers Suggest allMarkers).2
                   = Summary.countSuggestions (BySeverity ErrorSeverity allMarkers))
  /\ (forall indent warningMarkers, printWarnings false indent warningMarkers = "")
  /\ (printMarkers false allMarkers).1
     = match BySeverity ErrorSeverity allMarkers with
       | [] => nl
       | errorMarkers =>
           nl +:+ "Errors:" +:+ nl
           +:+ String.concat ""
                 (map (fun marker => "  * " +:+ Message marker +:+ nl) errorMarkers)
           +:+ nl
       end.
Proof.
  split; [|split].
  - intros Suggest. unfold printMarkers. now rewrite printErrors_closed.
  - exact printWarnings_silent.
  - unfold printMarkers. rewrite printErrors_closed, printWarnings_silent.
    destruct (BySeverity ErrorSeverity allMarkers) as [|m l] eqn:E.
    + reflexivity.
    + assert (Hmap : map (fun marker =>
                            "  " +:+ "* " +:+ Message marker +:+ nl
                            +:+ (if false && (0 <? len (Suggestion marker))
                                 then printSuggestion "  " (Suggestion marker) else ""))
                       (m :: l)
                     = map (fun marker => "  * " +:+ Message marker +:+ nl) (m :: l)).
      { apply map_ext. intros a. cbn [andb]. now rewrite append_nil_r. }
      rewrite Hmap.
      change (negb (Z.of_nat (length (m :: l)) =? 0)) with true. cbn [orb fst snd].
      rewrite append_nil_r, !append_assoc. reflexivity.
Qed.

End MarkerTextFacts.

